(** * glycowork.motif.graph: glycan notation, graphs and matching

    A shallow embedding of [glycowork/motif/graph.py]: the parser from
    IUPAC-condensed notation to node-labelled graphs, the serializer back to
    notation, the isomorphism based matchers, the common-subgraph extractor
    and the topology enumerator, followed by the properties checked against
    the specification. *)

From Stdlib Require Import ZArith Ascii String List Lia Bool DecimalString.
From stdpp Require Import base option list gmap strings.

Local Open Scope Z_scope.

(** ** Python outcomes *)

(** The exceptions the module can surface. *)
Inductive exn : Type :=
| IndexError
| ValueError
| KeyError
| TypeError
| AttributeError
| UnboundLocalError
| NetworkXError.

Inductive result (A : Type) : Type :=
| Ok (a : A)
| Raise (e : exn).
Arguments Ok {A} a.
Arguments Raise {A} e.

#[global] Instance result_ret : MRet result := fun A a => Ok a.
#[global] Instance result_bind : MBind result := fun A B f m =>
  match m with
  | Ok a => f a
  | Raise e => Raise e
  end.
#[global] Instance result_fmap : FMap result := fun A B f m =>
  match m with
  | Ok a => Ok (f a)
  | Raise e => Raise e
  end.

Definition is_ok {A} (r : result A) : bool :=
  match r with Ok _ => true | Raise _ => false end.

(** [o is not None] *)
Definition found {A} (o : option A) : bool :=
  match o with Some _ => true | None => false end.

(** [for x in l: ...] where the body may raise. *)
Fixpoint result_mapM {A B} (f : A -> result B) (l : list A) : result (list B) :=
  match l with
  | [] => Ok []
  | x :: l' => y ← f x; ys ← result_mapM f l'; Ok (y :: ys)
  end.

(** ** Python strings *)

Module PyStr.

Definition empty : string := EmptyString.

Definition len (s : string) : nat := String.length s.

Definition is_empty (s : string) : bool :=
  match s with EmptyString => true | _ => false end.

(** [s.startswith(p)] *)
Fixpoint startswith (p s : string) : bool :=
  match p, s with
  | EmptyString, _ => true
  | String a p', String b s' => Ascii.eqb a b && startswith p' s'
  | String _ _, EmptyString => false
  end.

(** [s[n:]] for [n >= 0] *)
Fixpoint drop (n : nat) (s : string) : string :=
  match n, s with
  | O, _ => s
  | S n', String _ s' => drop n' s'
  | S _, EmptyString => EmptyString
  end.

(** [s[:n]] for [n >= 0] *)
Fixpoint take (n : nat) (s : string) : string :=
  match n, s with
  | O, _ => EmptyString
  | S n', String c s' => String c (take n' s')
  | S _, EmptyString => EmptyString
  end.

(** [s[a:b]] for [a, b >= 0]: empty when [b <= a]. *)
Definition slice (a b : nat) (s : string) : string :=
  take (b - a)%nat (drop a s).

(** [s[:-1]] *)
Definition drop_last (s : string) : string :=
  take (len s - 1)%nat s.

(** [s[-1]], an [IndexError] on the empty string *)
Fixpoint last (s : string) : result ascii :=
  match s with
  | EmptyString => Raise IndexError
  | String c EmptyString => Ok c
  | String _ s' => last s'
  end.

(** [s[0]] *)
Definition first (s : string) : result ascii :=
  match s with
  | EmptyString => Raise IndexError
  | String c _ => Ok c
  end.

(** [s.find(sub)] as an option *)
Fixpoint find (sub s : string) : option nat :=
  if startswith sub s then Some O
  else match s with
       | EmptyString => None
       | String _ s' => S <$> find sub s'
       end.

(** [s.index(sub)], a [ValueError] when absent *)
Definition index (sub s : string) : result nat :=
  match find sub s with
  | Some i => Ok i
  | None => Raise ValueError
  end.

(** [sub in s] *)
Definition contains (sub s : string) : bool :=
  match find sub s with Some _ => true | None => false end.

(** Position of the last occurrence, scanning from offset [i]. *)
Fixpoint rfind_from (sub s : string) (i : nat) (found : Z) : Z :=
  let found' := if startswith sub s then Z.of_nat i else found in
  match s with
  | EmptyString => found'
  | String _ s' => rfind_from sub s' (S i) found'
  end.

(** [s.rfind(sub)]: [-1] when absent *)
Definition rfind (sub s : string) : Z := rfind_from sub s O (-1).

(** [s[:z]] for an integer bound that is never negative here
    ([rfind + 1 >= 0]). *)
Definition take_Z (z : Z) (s : string) : string := take (Z.to_nat z) s.

(** [s.replace(old, new, 1)] *)
Fixpoint replace_first (old new s : string) : string :=
  if startswith old s then new +:+ drop (len old) s
  else match s with
       | EmptyString => EmptyString
       | String c s' => String c (replace_first old new s')
       end.

(** Left-to-right scan of [s.replace(old, new)] for a non-empty [old];
    [skip] counts the characters of a match still to be passed over. *)
Fixpoint replace_scan (old new : string) (skip : nat) (s : string) : string :=
  match s with
  | EmptyString => EmptyString
  | String c s' =>
      match skip with
      | S k => replace_scan old new k s'
      | O => if startswith old s
             then new +:+ replace_scan old new (len old - 1)%nat s'
             else String c (replace_scan old new O s')
      end
  end.

(** With an empty [old] Python inserts [new] around every character. *)
Fixpoint intersperse (new s : string) : string :=
  match s with
  | EmptyString => new
  | String c s' => new +:+ String c (intersperse new s')
  end.

(** [s.replace(old, new)] *)
Definition replace (old new s : string) : string :=
  if is_empty old then intersperse new s else replace_scan old new O s.

(** [while old in s: s = s.replace(old, new)]; every round of the two
    loops of the serializer shortens the string, so its length bounds the
    number of rounds. *)
Fixpoint replace_while (fuel : nat) (old new s : string) : string :=
  match fuel with
  | O => s
  | S f => if contains old s then replace_while f old new (replace old new s) else s
  end.

(** [sep.join(l)] *)
Fixpoint join (sep : string) (l : list string) : string :=
  match l with
  | [] => EmptyString
  | [x] => x
  | x :: l' => x +:+ sep +:+ join sep l'
  end.

(** [''.join(l)] *)
Definition concat (l : list string) : string := join EmptyString l.

(** Split on the characters satisfying [is_sep]; [cur] is the piece being
    read, reversed. *)
Fixpoint rev_append (a b : string) : string :=
  match a with
  | EmptyString => b
  | String c a' => rev_append a' (String c b)
  end.
Definition rev (s : string) : string := rev_append s EmptyString.

Fixpoint split_on (is_sep : ascii -> bool) (cur : string) (s : string) : list string :=
  match s with
  | EmptyString => [rev cur]
  | String c s' =>
      if is_sep c then rev cur :: split_on is_sep EmptyString s'
      else split_on is_sep (String c cur) s'
  end.

(** Code-point comparison [a < b] of Python strings. *)
Fixpoint ltb (a b : string) : bool :=
  match a, b with
  | _, EmptyString => false
  | EmptyString, String _ _ => true
  | String x a', String y b' =>
      if (nat_of_ascii x <? nat_of_ascii y)%nat then true
      else if (nat_of_ascii y <? nat_of_ascii x)%nat then false
      else ltb a' b'
  end.

(** [max(a, b)]: the first argument unless the second is greater. *)
Definition max (a b : string) : string := if ltb a b then b else a.

Definition is_digit (c : ascii) : bool :=
  let n := nat_of_ascii c in ((48 <=? n) && (n <=? 57))%nat.

Definition is_alpha (c : ascii) : bool :=
  let n := nat_of_ascii c in
  (((65 <=? n) && (n <=? 90)) || ((97 <=? n) && (n <=? 122)))%nat.

(** [str(k)] *)
Definition of_Z (k : Z) : string := NilZero.string_of_int (Z.to_int k).
Definition of_nat (k : nat) : string := of_Z (Z.of_nat k).

(** [sorted(s)]: the characters in code-point order. *)
Fixpoint insert_sorted (c : ascii) (l : list ascii) : list ascii :=
  match l with
  | [] => [c]
  | d :: l' => if (nat_of_ascii c <=? nat_of_ascii d)%nat then c :: l
               else d :: insert_sorted c l'
  end.
Definition sorted (s : string) : list ascii :=
  foldr insert_sorted [] (list_ascii_of_string s).

End PyStr.

Definition str_eqb : string -> string -> bool := String.eqb.

(** [x in l] for a list of strings *)
Definition str_in (x : string) (l : list string) : bool :=
  existsb (str_eqb x) l.

(** [range(n)] *)
Definition range (n : nat) : list nat := seq 0 n.

(** ** Tokenizer *)

Definition is_delimiter (c : ascii) : bool :=
  existsb (Ascii.eqb c) ["("; ")"; "["; "]"; "{"; "}"]%char.

(** Modelled from the spec: [min_process_glycans] is imported from
    [glycowork.motif.processing], which is not part of the sources at hand.
    The specification describes it as the tokenizer "producing the ordered
    token sequence for a notation string", the tokens being the runs of
    token characters between the delimiters [( ) [ ] { }]. *)
Definition tokenize (glycan : string) : list string :=
  List.filter (fun t => negb (PyStr.is_empty t))
    (PyStr.split_on is_delimiter EmptyString glycan).

Definition min_process_glycans (glycan_list : list string) : list (list string) :=
  map tokenize glycan_list.

(** ** Token registry *)

(** [libr.index(x)] *)
Fixpoint list_index (x : string) (libr : list string) : result Z :=
  match libr with
  | [] => Raise ValueError
  | y :: libr' => if str_eqb x y then Ok 0 else Z.succ <$> list_index x libr'
  end.

Definition character_to_label (character : string) (libr : list string) : result Z :=
  list_index character libr.

Definition string_to_labels (character_string : list string) (libr : list string)
  : result (list Z) :=
  result_mapM (fun character => character_to_label character libr) character_string.

(** ** Parser: from notation to adjacency matrix *)

Definition is_paren (c : ascii) : bool :=
  Ascii.eqb c "("%char || Ascii.eqb c ")"%char.

Definition evaluate_adjacency (glycan_part : string) (adjustment : nat) : result bool :=
  c ← PyStr.last glycan_part;
  if is_paren c && (PyStr.len glycan_part <? 2 + adjustment)%nat then Ok true
  else if Ascii.eqb c "]"%char then
    let inner := PyStr.drop_last glycan_part in
    c' ← PyStr.last inner;
    if is_paren c' && (PyStr.len inner <? 2 + adjustment)%nat then Ok true
    else Ok false
  else Ok false.

(** The regular expression [\[[^\[\]]+\]]: an opening bracket, a non-empty
    run without brackets, a closing bracket. *)
Definition is_bracket (c : ascii) : bool :=
  Ascii.eqb c "["%char || Ascii.eqb c "]"%char.

Fixpoint run_length (ok : ascii -> bool) (s : string) : nat :=
  match s with
  | EmptyString => O
  | String c s' => if ok c then S (run_length ok s') else O
  end.

(** Length of the match that starts with the ["["] preceding [rest], less
    that first character. *)
Definition branch_match (rest : string) : option nat :=
  let n := run_length (fun c => negb (is_bracket c)) rest in
  if (1 <=? n)%nat && PyStr.startswith "]" (PyStr.drop n rest) then Some (S n) else None.

(** [re.search('\[[^\[\]]+\]', s)] as a truth value *)
Fixpoint branch_search (s : string) : bool :=
  match s with
  | EmptyString => false
  | String c s' =>
      (Ascii.eqb c "["%char && found (branch_match s')) || branch_search s'
  end.

(** [re.sub('\[[^\[\]]+\]', '', s)]: leftmost non-overlapping matches are
    dropped; [skip] counts the characters of a match still to be dropped. *)
Fixpoint branch_sub (skip : nat) (s : string) : string :=
  match s with
  | EmptyString => EmptyString
  | String c s' =>
      match skip with
      | S k => branch_sub k s'
      | O =>
          if Ascii.eqb c "["%char then
            match branch_match s' with
            | Some n => branch_sub n s'
            | None => String c (branch_sub O s')
            end
          else String c (branch_sub O s')
      end
  end.

(** The [while] loop of [bracket_removal]; each round that finds a match
    removes at least three characters. *)
Fixpoint bracket_removal_loop (fuel : nat) (glycan_part : string) : string :=
  match fuel with
  | O => glycan_part
  | S f =>
      if branch_search glycan_part
      then bracket_removal_loop f (branch_sub O glycan_part)
      else glycan_part
  end.

Definition bracket_removal (glycan_part : string) : string :=
  bracket_removal_loop (PyStr.len glycan_part) glycan_part.

(** [list(enumerate(l))] *)
Definition enumerate {A} (l : list A) : list (nat * A) :=
  combine (range (length l)) l.

Definition adjustment_of (k : nat) : nat :=
  if (100 <=? k)%nat then 2%nat else if (10 <=? k)%nat then 1%nat else 0%nat.

(** The notation with every glycoletter replaced by its position. *)
Definition mask_glycan (glycan : string) (glycan_proc : list string) : string :=
  foldl (fun g kj => PyStr.replace_first (snd kj) (PyStr.of_nat (fst kj)) g)
    glycan (enumerate glycan_proc).

(** One cell [adj_matrix[k, j]] of the double loop. *)
Definition adjacency_cell (glycan : string) (k j : nat) : result Z :=
  if (k <? j)%nat then
    let adjustment := adjustment_of k in
    ik ← PyStr.index (PyStr.of_nat k) glycan;
    ij ← PyStr.index (PyStr.of_nat j) glycan;
    let glycan_part := PyStr.slice (S ik) ij glycan in
    a ← evaluate_adjacency glycan_part adjustment;
    if (a : bool) then Ok 1
    else if (PyStr.len (bracket_removal glycan_part) <=? 2 + adjustment)%nat then
      let glycan_part := bracket_removal glycan_part in
      a' ← evaluate_adjacency glycan_part adjustment;
      Ok (if (a' : bool) then 1 else 0)
    else Ok 0
  else Ok 0.

Definition glycan_to_graph (glycan : string)
  : result (list string * list (list Z)) :=
  let glycan_proc := tokenize glycan in
  let mask_dic := glycan_proc in
  let glycan := mask_glycan glycan glycan_proc in
  let n := length glycan_proc in
  adj_matrix ← result_mapM
    (fun k => result_mapM (fun j => adjacency_cell glycan k j) (range n))
    (range n);
  Ok (mask_dic, adj_matrix).

(** ** Graph model *)

(** The attribute dictionary of a node. Every attribute may be absent:
    ['labels'] is the registry index, ['string_labels'] the glycoletter and
    ['termini'] the position annotation. *)
Record node_data : Type := mk_node_data {
  attr_labels : option Z;
  attr_string_labels : option string;
  attr_termini : option string
}.

Definition no_data : node_data := mk_node_data None None None.

(** A node of a networkx [Graph]: its id, its attributes and its
    neighbours in insertion order. A graph lists its nodes in insertion
    order, as the dictionaries of networkx do. *)
Record nx_node : Type := mk_nx_node {
  n_id : Z;
  n_data : node_data;
  n_adj : list Z
}.

Definition nxGraph : Type := list nx_node.

Definition Z_in (x : Z) (l : list Z) : bool := existsb (Z.eqb x) l.

(** The part of the networkx API used by the module. *)
Module nx.

Definition Graph : nxGraph := [].

Definition nodes (G : nxGraph) : list Z := map n_id G.

Definition number_of_nodes (G : nxGraph) : nat := length G.

Definition has_node (G : nxGraph) (n : Z) : bool := Z_in n (nodes G).

Fixpoint find_node (G : nxGraph) (n : Z) : option nx_node :=
  match G with
  | [] => None
  | x :: G' => if n_id x =? n then Some x else find_node G' n
  end.

Definition update_node (f : nx_node -> nx_node) (n : Z) (G : nxGraph) : nxGraph :=
  map (fun x => if n_id x =? n then f x else x) G.

Definition add_node (G : nxGraph) (n : Z) : nxGraph :=
  if has_node G n then G else G ++ [mk_nx_node n no_data []].

Definition add_nodes_from (G : nxGraph) (ns : list Z) : nxGraph :=
  foldl add_node G ns.

Definition add_neighbour (v : Z) (x : nx_node) : nx_node :=
  if Z_in v (n_adj x) then x
  else mk_nx_node (n_id x) (n_data x) (n_adj x ++ [v]).

Definition add_edge (G : nxGraph) (u v : Z) : nxGraph :=
  let G := add_node (add_node G u) v in
  update_node (add_neighbour u) v (update_node (add_neighbour v) u G).

Definition add_edges_from (G : nxGraph) (es : list (Z * Z)) : nxGraph :=
  foldl (fun G e => add_edge G (fst e) (snd e)) G es.

Definition drop_neighbour (n : Z) (x : nx_node) : nx_node :=
  mk_nx_node (n_id x) (n_data x) (List.filter (fun v => negb (v =? n)) (n_adj x)).

(** Removal of a node that is present. *)
Definition delete_node (G : nxGraph) (n : Z) : nxGraph :=
  map (drop_neighbour n) (List.filter (fun x => negb (n_id x =? n)) G).

Definition remove_node (G : nxGraph) (n : Z) : result nxGraph :=
  if has_node G n then Ok (delete_node G n) else Raise NetworkXError.

(** [remove_nodes_from] skips the nodes that are absent. *)
Definition remove_nodes_from (G : nxGraph) (ns : list Z) : nxGraph :=
  foldl (fun G n => if has_node G n then delete_node G n else G) G ns.

Definition neighbors (G : nxGraph) (n : Z) : list Z :=
  match find_node G n with
  | Some x => n_adj x
  | None => []
  end.

Definition has_edge (G : nxGraph) (u v : Z) : bool := Z_in v (neighbors G u).

(** [G.degree[n]]: a self-loop counts twice. *)
Definition degree (G : nxGraph) (n : Z) : result Z :=
  match find_node G n with
  | Some x => Ok (Z.of_nat (length (n_adj x)) + (if Z_in n (n_adj x) then 1 else 0))
  | None => Raise KeyError
  end.

(** [G.edges()]: every edge once, reported from the endpoint met first. *)
Fixpoint edges_from (G : nxGraph) (seen : list Z) : list (Z * Z) :=
  match G with
  | [] => []
  | x :: G' =>
      map (fun nbr => (n_id x, nbr))
        (List.filter (fun nbr => negb (Z_in nbr seen)) (n_adj x))
      ++ edges_from G' (n_id x :: seen)
  end.

Definition edges (G : nxGraph) : list (Z * Z) := edges_from G [].

(** [nx.from_numpy_matrix(A)]: nodes [0 .. n-1], one edge per non-zero
    cell in row-major order. *)
Definition nonzero (A : list (list Z)) : list (Z * Z) :=
  flat_map
    (fun row => flat_map
       (fun cell => if snd cell =? 0 then [] else [(Z.of_nat (fst row), Z.of_nat (fst cell))])
       (enumerate (snd row)))
    (enumerate A).

Definition from_numpy_matrix (A : list (list Z)) : nxGraph :=
  add_edges_from (add_nodes_from Graph (map Z.of_nat (range (length A)))) (nonzero A).

(** [nx.get_node_attributes(G, name)] *)
Definition get_node_attributes {V} (attr : node_data -> option V) (G : nxGraph)
  : list (Z * V) :=
  omap (fun x => pair (n_id x) <$> attr (n_data x)) G.

Definition set_labels (v : Z) (x : nx_node) : nx_node :=
  mk_nx_node (n_id x)
    (mk_node_data (Some v) (attr_string_labels (n_data x)) (attr_termini (n_data x)))
    (n_adj x).

Definition set_string_labels (v : string) (x : nx_node) : nx_node :=
  mk_nx_node (n_id x)
    (mk_node_data (attr_labels (n_data x)) (Some v) (attr_termini (n_data x)))
    (n_adj x).

Definition set_termini (v : string) (x : nx_node) : nx_node :=
  mk_nx_node (n_id x)
    (mk_node_data (attr_labels (n_data x)) (attr_string_labels (n_data x)) (Some v))
    (n_adj x).

(** [nx.set_node_attributes(G, values, name)]: entries for absent nodes are
    skipped. *)
Definition set_node_attributes {V} (set : V -> nx_node -> nx_node)
    (G : nxGraph) (values : list (Z * V)) : nxGraph :=
  foldl (fun G kv => update_node (set (snd kv)) (fst kv) G) G values.

(** [G.subgraph(ns)]: the induced subgraph, nodes in the order of [G]. *)
Definition subgraph (G : nxGraph) (ns : list Z) : nxGraph :=
  map (fun x => mk_nx_node (n_id x) (n_data x)
                  (List.filter (fun v => Z_in v ns) (n_adj x)))
    (List.filter (fun x => Z_in (n_id x) ns) G).

(** Breadth-first closure: every round adds the unseen neighbours of the
    frontier, so [length G] rounds reach the whole component. *)
Fixpoint add_unseen (seen : list Z) (cands : list Z) : list Z :=
  match cands with
  | [] => []
  | c :: cands' =>
      if Z_in c seen then add_unseen seen cands'
      else c :: add_unseen (c :: seen) cands'
  end.

Fixpoint bfs (fuel : nat) (G : nxGraph) (seen frontier : list Z) : list Z :=
  match fuel with
  | O => seen
  | S f =>
      match add_unseen seen (flat_map (neighbors G) frontier) with
      | [] => seen
      | next => bfs f G (seen ++ next) next
      end
  end.

Definition plain_bfs (G : nxGraph) (source : Z) : list Z :=
  bfs (length G) G [source] [source].

Fixpoint components_from (G : nxGraph) (todo seen : list Z) : list (list Z) :=
  match todo with
  | [] => []
  | v :: todo' =>
      if Z_in v seen then components_from G todo' seen
      else let c := plain_bfs G v in c :: components_from G todo' (seen ++ c)
  end.

(** [nx.connected_components(G)] *)
Definition connected_components (G : nxGraph) : list (list Z) :=
  components_from G (nodes G) [].

(** [nx.is_connected(G)]: the null graph is refused. *)
Definition is_connected (G : nxGraph) : result bool :=
  match G with
  | [] => Raise NetworkXError
  | x :: _ => Ok (length (plain_bfs G (n_id x)) =? length G)%nat
  end.

(** [mapping.get(n, n)] *)
Fixpoint mapping_get (mapping : list (Z * Z)) (n : Z) : Z :=
  match mapping with
  | [] => n
  | (k, v) :: mapping' => if k =? n then v else mapping_get mapping' n
  end.

Definition set_data (d : node_data) (x : nx_node) : nx_node :=
  mk_nx_node (n_id x) d (n_adj x).

(** [nx.relabel_nodes(G, mapping)] with [copy=True]. *)
Definition relabel_nodes (G : nxGraph) (mapping : list (Z * Z)) : nxGraph :=
  let H := add_nodes_from Graph (map (mapping_get mapping) (nodes G)) in
  let H := foldl (fun H x => update_node (set_data (n_data x)) (mapping_get mapping (n_id x)) H)
             H G in
  add_edges_from H
    (map (fun e => (mapping_get mapping (fst e), mapping_get mapping (snd e))) (edges G)).

Definition merge_data (d new : node_data) : node_data :=
  mk_node_data
    (match attr_labels new with Some v => Some v | None => attr_labels d end)
    (match attr_string_labels new with Some v => Some v | None => attr_string_labels d end)
    (match attr_termini new with Some v => Some v | None => attr_termini d end).

(** [G.add_nodes_from(H.nodes(data=True))] *)
Definition add_nodes_with_data (G H : nxGraph) : nxGraph :=
  foldl (fun G x =>
           update_node (fun y => set_data (merge_data (n_data y) (n_data x)) y)
             (n_id x) (add_node G (n_id x)))
    G H.

(** [nx.compose(G, H)] *)
Definition compose (G H : nxGraph) : nxGraph :=
  let R := add_nodes_with_data (add_nodes_with_data Graph G) H in
  add_edges_from (add_edges_from R (edges G)) (edges H).

(** [nx.algorithms.operators.all.compose_all(graphs)] *)
Definition compose_all (graphs : list nxGraph) : result nxGraph :=
  match graphs with
  | [] => Raise ValueError
  | C :: graphs' => Ok (foldl compose C graphs')
  end.

End nx.

(** ** Parser: from notation to graph *)

(** A glycan argument is a notation string or a graph already built. *)
Inductive glycan_arg : Type :=
| GString (s : string)
| GGraph (g : nxGraph).

Definition last_is (c : ascii) (s : string) : result bool :=
  d ← PyStr.last s; Ok (Ascii.eqb d c).

Definition glycan_to_nxGraph_int (glycan : string) (libr : list string)
    (termini : string) (termini_list : option (list string))
    (override_reducing_end : bool) : result nxGraph :=
  (* this allows to make glycan graphs of motifs ending in a linkage *)
  glycan ← (if override_reducing_end then
              b ← last_is ")" glycan;
              Ok (if (b : bool) then glycan +:+ "Hex" else glycan)
            else Ok glycan);
  (* map glycan string to node labels and adjacency matrix *)
  '(node_dict, adj_matrix) ← glycan_to_graph glycan;
  (* convert adjacency matrix to networkx graph *)
  let g1 := if (1 <? length node_dict)%nat
            then nx.from_numpy_matrix adj_matrix
            else nx.add_node nx.Graph 0 in
  (* remove the helper monosaccharide if used *)
  g1 ← (if override_reducing_end then
          b ← last_is "x" glycan;
          if (b : bool)
          then nx.remove_node g1 (Z.of_nat (length (nx.nodes g1)) - 1)
          else Ok g1
        else Ok g1);
  (* add node labels *)
  labels ← string_to_labels node_dict libr;
  let keys := map Z.of_nat (range (length node_dict)) in
  let g1 := nx.set_node_attributes nx.set_labels g1 (combine keys labels) in
  let g1 := nx.set_node_attributes nx.set_string_labels g1 (combine keys node_dict) in
  if str_eqb termini "ignore" then Ok g1
  else if str_eqb termini "calc" then
    values ← result_mapM
      (fun k => d ← nx.degree g1 k;
                Ok (k, if d =? 1 then "terminal" else "internal"))
      (nx.nodes g1);
    Ok (nx.set_node_attributes nx.set_termini g1 values)
  else if str_eqb termini "provided" then
    match termini_list with
    | Some l => Ok (nx.set_node_attributes nx.set_termini g1 (combine (nx.nodes g1) l))
    | None => Raise TypeError
    end
  else Ok g1.

(** The relabelling loop over all parts but the last: every floating part
    is shifted past the nodes placed so far. *)
Fixpoint shift_parts (parts : list nxGraph) (len_org : Z) : list nxGraph :=
  match parts with
  | [] => []
  | [main] => [main]
  | p :: parts' =>
      nx.relabel_nodes p (map (fun pn => (pn, pn + len_org)) (nx.nodes p))
      :: shift_parts parts' (len_org + Z.of_nat (length (nx.nodes p)))
  end.

Definition glycan_to_nxGraph (glycan : string) (libr : list string)
    (termini : string) (termini_list : option (list string))
    (override_reducing_end : bool) : result nxGraph :=
  if PyStr.contains "{" glycan then
    let parts := PyStr.split_on (Ascii.eqb "{"%char) EmptyString
                   (PyStr.replace "}" "{" glycan) in
    let parts := List.filter (fun k => (0 <? PyStr.len k)%nat) parts in
    parts ← result_mapM
      (fun k => glycan_to_nxGraph_int k libr termini termini_list true) parts;
    match List.last (map Some parts) None with
    | None => Raise IndexError
    | Some main =>
        let len_org := Z.of_nat (length (nx.nodes main)) in
        nx.compose_all (shift_parts parts len_org)
    end
  else glycan_to_nxGraph_int glycan libr termini termini_list override_reducing_end.

Definition ensure_graph (glycan : glycan_arg) (libr : list string) : result nxGraph :=
  match glycan with
  | GString s => glycan_to_nxGraph s libr "ignore" None false
  | GGraph g => Ok g
  end.

(** ** Node-compatibility predicates *)

(** An element of a wildcard list: the matchers are handed glycoletters in
    one place and registry indices in another. *)
Inductive pyval : Type :=
| PyInt (z : Z)
| PyString (s : string).

Definition pyval_eqb (a b : pyval) : bool :=
  match a, b with
  | PyInt x, PyInt y => x =? y
  | PyString x, PyString y => str_eqb x y
  | _, _ => false
  end.

Definition pyval_in (x : pyval) (l : list pyval) : bool := existsb (pyval_eqb x) l.

Definition node_match_t : Type := node_data -> node_data -> result bool.

(** [data.get('labels', default)] *)
Definition get_labels (default : Z) (data : node_data) : Z :=
  match attr_labels data with Some v => v | None => default end.

(** [data.get('termini', default)] *)
Definition get_termini (default : string) (data : node_data) : string :=
  match attr_termini data with Some v => v | None => default end.

(** [nx.algorithms.isomorphism.categorical_node_match('labels', default)] *)
Definition categorical_node_match (default : Z) : node_match_t :=
  fun data1 data2 => Ok (get_labels default data1 =? get_labels default data2).

Definition categorical_node_match_wildcard (default : Z) (wildcard_list : list pyval)
  : node_match_t :=
  fun data1 data2 =>
    match attr_string_labels data1 with
    | None => Raise KeyError
    | Some s1 =>
        if pyval_in (PyString s1) wildcard_list then Ok true
        else match attr_string_labels data2 with
             | None => Raise KeyError
             | Some s2 =>
                 if pyval_in (PyString s2) wildcard_list then Ok true
                 else Ok (get_labels default data1 =? get_labels default data2)
             end
    end.

Definition categorical_termini_match (default1 : Z) (default2 : string) : node_match_t :=
  fun data1 data2 =>
    let same_labels := get_labels default1 data1 =? get_labels default1 data2 in
    match attr_termini data1 with
    | None => Raise KeyError
    | Some t1 =>
        if str_in t1 ["flexible"] then Ok (same_labels && true)
        else match attr_termini data2 with
             | None => Raise KeyError
             | Some t2 =>
                 if str_in t2 ["flexible"] then Ok (same_labels && true)
                 else Ok (same_labels
                          && str_eqb (get_termini default2 data1) (get_termini default2 data2))
             end
    end.

(** ** The isomorphism engine *)

(** [networkx.algorithms.isomorphism.GraphMatcher] is a library class; the
    model below is a reference search with the semantics its documentation
    gives: [subgraph_is_isomorphic] holds when a node-induced subgraph of
    [G1] is isomorphic to [G2] with every matched pair accepted by
    [node_match], and [mapping] then sends the matched nodes of [G1] to the
    nodes of [G2]. Candidates are tried in node order and a pair is put to
    [node_match] only after it has passed the structural test, as in the
    library; which of several occurrences is found first is not specified
    by the library and none of the results below depends on it.

    The library prunes more than the structural test below: before it calls
    [node_match] it also compares, for the two nodes of a pair, the numbers
    of their neighbours that are not mapped yet (its look-ahead rules).
    These rules reject only pairs that belong to no occurrence, so the
    answer of the search and the occurrences it can return are the same,
    but the library may never put to [node_match] a pair that this search
    does. What is proved about an exception of [node_match] is therefore
    stated only for searches in which every pair of an occurrence raises
    it, and a pair of an occurrence is one the library cannot prune. *)
Module isomorphism.

Record GraphMatcher : Type := mk_GraphMatcher {
  G1 : nxGraph;
  G2 : nxGraph;
  node_match : node_match_t
}.

Definition mapping_t : Type := list (Z * Z).

(** The structural test for the pair [(u, v)] against the pairs chosen so
    far: edges to mapped nodes, and self-loops, must agree. The look-ahead
    counts of the library are not part of it. *)
Definition syntactic_feasibility (GM : GraphMatcher) (core : mapping_t) (u v : Z) : bool :=
  Bool.eqb (nx.has_edge (G1 GM) u u) (nx.has_edge (G2 GM) v v)
  && forallb (fun p => Bool.eqb (nx.has_edge (G1 GM) u (fst p)) (nx.has_edge (G2 GM) v (snd p))
                       && Bool.eqb (nx.has_edge (G1 GM) (fst p) u) (nx.has_edge (G2 GM) (snd p) v))
       core.

Definition semantic_feasibility (GM : GraphMatcher) (u v : nx_node) : result bool :=
  node_match GM (n_data u) (n_data v).

(** The candidates of [G1] for the node [v] of [G2], given how the search
    continues once a pair is fixed. *)
Fixpoint try_candidates (GM : GraphMatcher) (core : mapping_t) (v : nx_node)
    (continue : mapping_t -> result (option mapping_t)) (cands : list nx_node)
  : result (option mapping_t) :=
  match cands with
  | [] => Ok None
  | u :: cands' =>
      if Z_in (n_id u) (map fst core)
         || negb (syntactic_feasibility GM core (n_id u) (n_id v))
      then try_candidates GM core v continue cands'
      else
        match semantic_feasibility GM u v with
        | Raise e => Raise e
        | Ok false => try_candidates GM core v continue cands'
        | Ok true =>
            match continue ((n_id u, n_id v) :: core) with
            | Raise e => Raise e
            | Ok (Some m) => Ok (Some m)
            | Ok None => try_candidates GM core v continue cands'
            end
        end
  end.

(** Depth-first extension of [core] over the nodes of [G2] still to map. *)
Fixpoint match_nodes (GM : GraphMatcher) (todo : list nx_node) (core : mapping_t)
  : result (option mapping_t) :=
  match todo with
  | [] => Ok (Some core)
  | v :: todo' =>
      try_candidates GM core v (fun core' => match_nodes GM todo' core') (G1 GM)
  end.

(** [GM.subgraph_is_isomorphic()], together with [GM.mapping] when it
    holds. *)
Definition subgraph_is_isomorphic (GM : GraphMatcher) : result (option mapping_t) :=
  match_nodes GM (G2 GM) [].

Fixpoint insert_Z (x : Z) (l : list Z) : list Z :=
  match l with
  | [] => [x]
  | y :: l' => if x <=? y then x :: l else y :: insert_Z x l'
  end.

Definition sorted_Z (l : list Z) : list Z := foldr insert_Z [] l.

Definition degree_sequence (G : nxGraph) : list Z :=
  sorted_Z (map (fun x => Z.of_nat (length (n_adj x))
                          + (if Z_in (n_id x) (n_adj x) then 1 else 0)) G).

Definition list_Z_eqb (a b : list Z) : bool :=
  (length a =? length b)%nat && forallb (fun p => fst p =? snd p) (combine a b).

(** [GM.is_isomorphic()]: orders and degree sequences are compared before
    the search. *)
Definition is_isomorphic_gm (GM : GraphMatcher) : result bool :=
  if negb (length (G1 GM) =? length (G2 GM))%nat then Ok false
  else if negb (list_Z_eqb (degree_sequence (G1 GM)) (degree_sequence (G2 GM))) then Ok false
  else r ← subgraph_is_isomorphic GM; Ok (found r).

End isomorphism.

(** [nx.is_isomorphic(g1, g2, node_match = ...)] *)
Definition nx_is_isomorphic (g1 g2 : nxGraph) (node_match : node_match_t) : result bool :=
  isomorphism.is_isomorphic_gm (isomorphism.mk_GraphMatcher g1 g2 node_match).

(** ** Matchers *)

(** [nx.get_node_attributes(g, "string_labels").values()] *)
Definition string_label_values (g : nxGraph) : list string :=
  map snd (nx.get_node_attributes attr_string_labels g).

Definition list_ascii_eqb (a b : list ascii) : bool :=
  (length a =? length b)%nat && forallb (fun p => Ascii.eqb (fst p) (snd p)) (combine a b).

(** [len(set([len(k) for k in l])) == 1] *)
Definition same_lengths {A} (l : list (list A)) : bool :=
  match l with
  | [] => false
  | k :: l' => forallb (fun k' => (length k' =? length k)%nat) l'
  end.

Definition compare_glycans (glycan_a glycan_b : glycan_arg) (libr : list string)
    (wildcards : bool) (wildcard_list : list pyval) : result bool :=
  graphs ← match glycan_a, glycan_b with
           | GString a, GString b =>
               (* check whether glycan_a and glycan_b have the same length *)
               if same_lengths (min_process_glycans [a; b]) then
                 g1 ← glycan_to_nxGraph a libr "ignore" None false;
                 g2 ← glycan_to_nxGraph b libr "ignore" None false;
                 Ok (Some (g1, g2))
               else Ok None
           | GGraph g1, GGraph g2 => Ok (Some (g1, g2))
           | _, _ => Raise AttributeError
           end;
  match graphs with
  | None => Ok false
  | Some (g1, g2) =>
      if (length (nx.nodes g1) =? length (nx.nodes g2))%nat then
        if wildcards then
          nx_is_isomorphic g1 g2
            (categorical_node_match_wildcard (Z.of_nat (length libr)) wildcard_list)
        else
          (* first check whether components of both glycan graphs are
             identical, then check graph isomorphism (costly) *)
          if list_ascii_eqb
               (PyStr.sorted (PyStr.concat (string_label_values g1)))
               (PyStr.sorted (PyStr.concat (string_label_values g2)))
          then nx_is_isomorphic g1 g2 (categorical_node_match (Z.of_nat (length libr)))
          else Ok false
      else Ok false
  end.

(** What [subgraph_isomorphism] returns: a truth value, or a count when
    [count] is set. *)
Inductive pyret : Type :=
| RBool (b : bool)
| RInt (n : Z).

Definition no_match (count : bool) : pyret :=
  if count then RInt 0 else RBool false.

(** [all(k in nx.get_node_attributes(g1, "string_labels").values()
        for k in motif_comp)] *)
Definition labels_present (g1 : nxGraph) (motif_comp : list string) : bool :=
  forallb (fun k => str_in k (string_label_values g1)) motif_comp.

(** The three-way choice on [extra] that binds [graph_pair]; the function
    makes it once before the counting loop and once more after every match. *)
Inductive pair_choice : Type :=
| Matcher (graph_pair : isomorphism.GraphMatcher)
| PreCheckFailed
| NoBranch.

Definition choose_graph_pair (libr : list string) (extra : string)
    (wildcard_list : list pyval) (motif_comp : list string) (g1 g2 : nxGraph)
  : pair_choice :=
  let default := Z.of_nat (length libr) in
  if str_eqb extra "ignore" then
    if labels_present g1 motif_comp
    then Matcher (isomorphism.mk_GraphMatcher g1 g2 (categorical_node_match default))
    else PreCheckFailed
  else if str_eqb extra "wildcards" then
    Matcher (isomorphism.mk_GraphMatcher g1 g2
               (categorical_node_match_wildcard default wildcard_list))
  else if str_eqb extra "termini" then
    if labels_present g1 motif_comp
    then Matcher (isomorphism.mk_GraphMatcher g1 g2
                    (categorical_termini_match default "flexible"))
    else PreCheckFailed
  else NoBranch.

(** The counting loop. [graph_pair] is the matcher bound at the head of
    the loop; its first graph is the working copy [g1]. [None] stands for a
    loop that is still running when the fuel is spent. *)
Fixpoint count_loop (fuel : nat) (libr : list string) (extra : string)
    (wildcard_list : list pyval) (motif_comp : list string)
    (graph_pair : isomorphism.GraphMatcher) (counts : Z) : option (result Z) :=
  match fuel with
  | O => None
  | S fuel' =>
      match isomorphism.subgraph_is_isomorphic graph_pair with
      | Raise e => Some (Raise e)
      | Ok None => Some (Ok counts)
      | Ok (Some mapping) =>
          let counts := counts + 1 in
          let g1 := nx.remove_nodes_from (isomorphism.G1 graph_pair) (map fst mapping) in
          let g2 := isomorphism.G2 graph_pair in
          match choose_graph_pair libr extra wildcard_list motif_comp g1 g2 with
          | Matcher graph_pair' =>
              count_loop fuel' libr extra wildcard_list motif_comp graph_pair' counts
          | PreCheckFailed => Some (Ok counts)
          | NoBranch =>
              count_loop fuel' libr extra wildcard_list motif_comp
                (isomorphism.mk_GraphMatcher g1 g2 (isomorphism.node_match graph_pair))
                counts
          end
      end
  end.

(** [wildcard_list = [libr.index(k) for k in wildcard_list]] when the list
    is not empty. *)
Definition index_wildcards (libr : list string) (wildcard_list : list string)
  : result (list pyval) :=
  if (1 <=? length wildcard_list)%nat
  then result_mapM (fun k => PyInt <$> list_index k libr) wildcard_list
  else Ok (map PyString wildcard_list).

(** The two graphs [g1] and [g2] the function works on; a graph handed in
    by the caller is deep-copied. *)
Definition matcher_graphs (glycan : glycan_arg) (motif : string) (libr : list string)
    (extra : string) (termini_list : list string) : result (nxGraph * nxGraph) :=
  match glycan with
  | GString glycan =>
      if str_eqb extra "termini" then
        g1 ← glycan_to_nxGraph glycan libr "calc" None false;
        g2 ← glycan_to_nxGraph motif libr "provided" (Some termini_list) true;
        Ok (g1, g2)
      else
        g1 ← glycan_to_nxGraph glycan libr "ignore" None false;
        g2 ← glycan_to_nxGraph motif libr "ignore" None true;
        Ok (g1, g2)
  | GGraph glycan =>
      let g1 := glycan in
      if str_eqb extra "termini" then
        g2 ← glycan_to_nxGraph motif libr "provided" (Some termini_list) true;
        Ok (g1, g2)
      else
        g2 ← glycan_to_nxGraph motif libr "ignore" None true;
        Ok (g1, g2)
  end.

(** The function from the length check on. *)
Definition match_graphs (fuel : nat) (libr : list string) (extra : string)
    (wildcard_list : list pyval) (motif_comp : list string) (count : bool)
    (g1 g2 : nxGraph) : option (result pyret) :=
  (* check whether length of glycan is larger or equal than the motif *)
  if (length (nx.nodes g2) <=? length (nx.nodes g1))%nat then
    match choose_graph_pair libr extra wildcard_list motif_comp g1 g2 with
    | PreCheckFailed => Some (Ok (no_match count))
    | NoBranch => Some (Raise UnboundLocalError)
    | Matcher graph_pair =>
        (* count motif occurrence *)
        if count then
          match count_loop fuel libr extra wildcard_list motif_comp graph_pair 0 with
          | Some counts => Some (RInt <$> counts)
          | None => None
          end
        else
          Some (r ← isomorphism.subgraph_is_isomorphic graph_pair;
                Ok (RBool (found r)))
    end
  else Some (Ok (no_match count)).

Definition subgraph_isomorphism (fuel : nat) (glycan : glycan_arg) (motif : string)
    (libr : list string) (extra : string) (wildcard_list : list string)
    (termini_list : list string) (count : bool) : option (result pyret) :=
  match index_wildcards libr wildcard_list with
  | Raise e => Some (Raise e)
  | Ok wildcard_list =>
      let motif_comp := tokenize motif in
      match matcher_graphs glycan motif libr extra termini_list with
      | Raise e => Some (Raise e)
      | Ok (g1, g2) => match_graphs fuel libr extra wildcard_list motif_comp count g1 g2
      end
  end.

(** ** Python lists *)

(** Position addressed by [l[i]]: a negative index counts from the end. *)
Definition py_position (n : nat) (i : Z) : option nat :=
  let i' := if i <? 0 then Z.of_nat n + i else i in
  if (0 <=? i') && (i' <? Z.of_nat n) then Some (Z.to_nat i') else None.

(** [l[i]] *)
Definition py_get {A} (l : list A) (i : Z) : result A :=
  match py_position (length l) i with
  | Some p => match l !! p with Some x => Ok x | None => Raise IndexError end
  | None => Raise IndexError
  end.

(** [l[i] = x] *)
Definition py_set {A} (l : list A) (i : Z) (x : A) : result (list A) :=
  match py_position (length l) i with
  | Some p => Ok (<[p := x]> l)
  | None => Raise IndexError
  end.

(** [np.where(bs)[0][-1]]: the last position holding [True]. *)
Fixpoint last_true_from (bs : list bool) (i : Z) (found : option Z) : result Z :=
  match bs with
  | [] => match found with Some p => Ok p | None => Raise IndexError end
  | b :: bs' => last_true_from bs' (i + 1) (if b then Some i else found)
  end.
Definition last_true (bs : list bool) : result Z := last_true_from bs 0 None.

(** [np.where(bs)[0][0]]: the first position holding [True]. *)
Fixpoint first_true (bs : list bool) : result nat :=
  match bs with
  | [] => Raise IndexError
  | b :: bs' => if b then Ok O else S <$> first_true bs'
  end.

(** [max(l)] and [min(l)] of a list of integers *)
Definition py_max_Z (l : list Z) : result Z :=
  match l with
  | [] => Raise ValueError
  | x :: l' => Ok (foldl Z.max x l')
  end.

Definition py_min_Z (l : list Z) : result Z :=
  match l with
  | [] => Raise ValueError
  | x :: l' => Ok (foldl Z.min x l')
  end.

(** ** Serializer *)

(** The first [re.sub] of the serializer. Its pattern is an opening
    parenthesis, captured together with the longest run free of parentheses
    that follows it, and then a second opening parenthesis; the replacement
    is the captured group and a closing parenthesis. So the second opening
    parenthesis becomes a closing one. [skip] counts the characters of a
    match already rewritten. *)
Fixpoint paren_sub (skip : nat) (s : string) : string :=
  match s with
  | EmptyString => EmptyString
  | String c s' =>
      match skip with
      | S k => paren_sub k s'
      | O =>
          let n := run_length (fun c => negb (is_paren c)) s' in
          if Ascii.eqb c "("%char && PyStr.startswith "(" (PyStr.drop n s')
          then String c (PyStr.take n s' +:+ ")" +:+ paren_sub (S n) s')
          else String c (paren_sub O s')
      end
  end.

(** The character class [[^0-9a-zA-Z\-,]]. *)
Definition is_label_boundary (c : ascii) : bool :=
  negb (PyStr.is_digit c || PyStr.is_alpha c
        || Ascii.eqb c "-"%char || Ascii.eqb c ","%char).

(** [re.sub('([^0-9a-zA-Z\-,])K([^0-9a-zA-Z\-,])', r'\1J\2', s)] for a
    digit string [K] and a label [J] free of backslashes: [K] standing
    between two boundary characters is replaced by [J]. *)
Fixpoint label_sub (K J : string) (skip : nat) (s : string) : string :=
  match s with
  | EmptyString => EmptyString
  | String c s' =>
      match skip with
      | S k => label_sub K J k s'
      | O =>
          if is_label_boundary c && PyStr.startswith K s' then
            match PyStr.drop (PyStr.len K) s' with
            | String c2 _ =>
                if is_label_boundary c2
                then String c (J +:+ String c2 (label_sub K J (S (PyStr.len K)) s'))
                else String c (label_sub K J O s')
            | EmptyString => String c (label_sub K J O s')
            end
          else String c (label_sub K J O s')
      end
  end.

(** [dict(sorted(d.items(), reverse = True))] for a dictionary with integer
    keys. *)
Fixpoint insert_desc {V} (kv : Z * V) (l : list (Z * V)) : list (Z * V) :=
  match l with
  | [] => [kv]
  | kv' :: l' => if fst kv' <=? fst kv then kv :: l else kv' :: insert_desc kv l'
  end.
Definition sorted_desc {V} (d : list (Z * V)) : list (Z * V) :=
  foldr insert_desc [] d.

(** [d[k]] on a dictionary kept as an association list *)
Fixpoint dict_get {V} (d : list (Z * V)) (k : Z) : result V :=
  match d with
  | [] => Raise KeyError
  | (k', v) :: d' => if k' =? k then Ok v else dict_get d' k
  end.

(** [skeleton[idx-1] = skeleton[idx-1] + ']'] for the last fragment before
    position [k] that holds an opening bracket. *)
Definition push_bracket (skeleton : list string) (k : nat) : result (list string) :=
  idx ← last_true (map (PyStr.contains "[") (take k skeleton));
  m ← py_get skeleton (idx - 1);
  py_set skeleton (idx - 1) (m +:+ "]").

(** One round of the loop over the skeleton. *)
Definition skeleton_step (graph : nxGraph) (skeleton : list string) (k : nat)
  : result (list string) :=
  (* multibranch situation on reducing end *)
  here ← py_get skeleton (Z.of_nat k);
  final ← py_get skeleton (-1);
  multi ← (if str_eqb here final
           then d ← nx.degree graph (Z.of_nat k); Ok (d =? 3)
           else Ok false);
  skeleton ← (if (multi : bool) then push_bracket skeleton k else Ok skeleton);
  d ← nx.degree graph (Z.of_nat k);
  (* note whether a multibranch situation exists *)
  if d =? 4 then push_bracket skeleton k
  (* note whether a branch separates neighbors *)
  else if 2 <? d then
    m ← py_get skeleton (Z.of_nat k); py_set skeleton (Z.of_nat k) ("]" +:+ m)
  (* note whether a branch starts *)
  else if (d =? 1) && (0 <? k)%nat then
    m ← py_get skeleton (Z.of_nat k); py_set skeleton (Z.of_nat k) ("[" +:+ m)
  else Ok skeleton.

Fixpoint skeleton_loop (graph : nxGraph) (skeleton : list string) (ks : list nat)
  : result (list string) :=
  match ks with
  | [] => Ok skeleton
  | k :: ks' => skeleton ← skeleton_step graph skeleton k; skeleton_loop graph skeleton ks'
  end.

(** One round of the loop that puts the glycoletters in place of the node
    ids, the first and the last node apart. *)
Definition substitute_label (n : nat) (glycan : string) (kj : Z * string) : result string :=
  let '(k, j) := kj in
  if negb (k =? 0) && negb (k =? Z.of_nat n - 1) then
    c ← PyStr.first j;
    let j := if PyStr.is_digit c then "_" +:+ j else j in
    Ok (label_sub (PyStr.of_Z k) j O glycan)
  else Ok glycan.

Fixpoint substitute_labels (n : nat) (glycan : string) (items : list (Z * string))
  : result string :=
  match items with
  | [] => Ok glycan
  | kj :: items' => glycan ← substitute_label n glycan kj; substitute_labels n glycan items'
  end.

(** [max(glycan[:glycan.rfind(')')+1], glycan[:glycan.rfind(']')+1])]: the
    part of the string kept in front of the label of the last node. *)
Definition terminal_prefix (glycan : string) : string :=
  PyStr.max (PyStr.take_Z (PyStr.rfind ")" glycan + 1) glycan)
            (PyStr.take_Z (PyStr.rfind "]" glycan + 1) glycan).

(** The string built up to the point where the label of the last node is
    appended. *)
Definition graph_to_skeleton_string (graph : nxGraph) : result string :=
  let node_labels := nx.get_node_attributes attr_string_labels graph in
  let edges := nx.edges graph in
  let branch_points :=
    map snd (List.filter (fun e => 1 <? Z.abs (fst e - snd e)) edges) in
  (* note if a monosaccharide is a bona fide branch point *)
  let skeleton :=
    map (fun k => if Z_in k branch_points then "]" +:+ PyStr.of_Z k else PyStr.of_Z k)
      (map fst node_labels) in
  skeleton ← skeleton_loop graph skeleton (range (length skeleton));
  (* combine the skeleton, format, and map to the monosaccharides/linkages *)
  let glycan := PyStr.drop_last (PyStr.join "(" skeleton) in
  let glycan := paren_sub O glycan in
  let glycan := PyStr.replace "[)" ")[" glycan in
  let glycan := PyStr.replace "])" ")]" glycan in
  let glycan := PyStr.replace_while (PyStr.len glycan) "]]" "]" glycan in
  let glycan := PyStr.replace_while (PyStr.len glycan) "[[" "[" glycan in
  glycan ← substitute_labels (length node_labels) glycan (sorted_desc node_labels);
  first ← dict_get node_labels 0;
  Ok (first +:+ PyStr.drop 1 glycan).

Section Serializer.

(** The reference table [df_glycan] of the package data, as the list of its
    notations. *)
Variable df_glycan : list string.

(** [graph_to_string(graph, fallback = True, libr = libr)]: the first
    notation of the table with as many glycoletters as the graph has nodes
    whose graph compares equal. *)
Definition graph_to_string_fallback (graph : nxGraph) (libr : list string) : result string :=
  let len_dist := map (@length string) (min_process_glycans df_glycan) in
  let df_glycan2 :=
    map snd (List.filter (fun p => (fst p =? length (nx.nodes graph))%nat)
               (combine len_dist df_glycan)) in
  hits ← result_mapM
    (fun k => g ← glycan_to_nxGraph k libr "ignore" None false;
              compare_glycans (GGraph graph) (GGraph g) libr false [])
    df_glycan2;
  idx ← first_true hits;
  match df_glycan2 !! idx with
  | Some glycan => Ok glycan
  | None => Raise IndexError
  end.

Definition graph_to_string (graph : nxGraph) (fallback : bool) (libr : list string)
  : result string :=
  if fallback then graph_to_string_fallback graph libr
  else
    let node_labels := nx.get_node_attributes attr_string_labels graph in
    glycan ← graph_to_skeleton_string graph;
    final ← dict_get node_labels (Z.of_nat (length node_labels) - 1);
    let glycan := terminal_prefix glycan +:+ final in
    Ok (PyStr.replace "_" EmptyString glycan).

Definition try_string_conversion (graph : nxGraph) (libr : list string) : option string :=
  match (temp ← graph_to_string graph false libr;
         temp ← glycan_to_nxGraph temp libr "ignore" None false;
         graph_to_string temp false libr) with
  | Ok s => Some s
  | Raise _ => None
  end.

End Serializer.

(** ** Common-subgraph extractor *)

Section Extractor.

Variable df_glycan : list string.

(** [list(nx.isomorphism.ISMAGS(graph_a, graph_b, node_match = ...)
          .largest_common_subgraph())]: the search of the library for the
    largest common induced subgraphs, each as a dictionary from nodes of
    [graph_a] to nodes of [graph_b]. *)
Variable ISMAGS_largest_common_subgraph :
  nxGraph -> nxGraph -> node_match_t -> list (list (Z * Z)).

(** The graph handed to the serializer once the common subgraph [lgs] is
    known to be connected: every node id less the smallest one. *)
Definition renumber_from_min (lgs : nxGraph) : result nxGraph :=
  min_num ← py_min_Z (nx.nodes lgs);
  let node_dic := map (fun k => (k, k - min_num)) (nx.nodes lgs) in
  Ok (nx.relabel_nodes lgs node_dic).

(** The induced subgraph of [graph_a] on the first correspondence found. *)
Definition common_subgraph (graph_a graph_b : nxGraph) (libr : list string)
  : result nxGraph :=
  let largest_common_subgraph :=
    ISMAGS_largest_common_subgraph graph_a graph_b
      (categorical_node_match (Z.of_nat (length libr))) in
  match largest_common_subgraph with
  | [] => Raise IndexError
  | first :: _ => Ok (nx.subgraph graph_a (map fst first))
  end.

Definition largest_subgraph (glycan_a glycan_b : glycan_arg) (libr : list string)
  : result string :=
  graph_a ← ensure_graph glycan_a libr;
  graph_b ← ensure_graph glycan_b libr;
  lgs ← common_subgraph graph_a graph_b libr;
  connected ← nx.is_connected lgs;
  if (connected : bool) then
    lgs ← renumber_from_min lgs;
    if (0 <? length (nx.nodes lgs))%nat then
      match graph_to_string df_glycan lgs false libr with
      | Ok s => Ok s
      | Raise _ => graph_to_string df_glycan lgs true libr
      end
    else Ok EmptyString
  else Ok EmptyString.

End Extractor.

(** ** Topology enumerator *)

(** The candidate for the leaf [k]: a copy of [ggraph] with an edge from
    the highest node of the first component to [k], renumbered by position. *)
Definition attach (ggraph : nxGraph) (floating : nxGraph) (k : Z) : result nxGraph :=
  top ← py_max_Z (nx.nodes floating);
  let ggraph2 := nx.add_edge ggraph top k in
  Ok (nx.relabel_nodes ggraph2
        (combine (nx.nodes ggraph2) (map Z.of_nat (range (length (nx.nodes ggraph2)))))).

(** The loop over the nodes of the last component. *)
Fixpoint topologies_loop (ggraph first_part last_part : nxGraph) (ks : list Z)
  : result (list nxGraph) :=
  match ks with
  | [] => Ok []
  | k :: ks' =>
      d ← nx.degree last_part k;
      anchor ← py_max_Z (nx.nodes last_part);
      (* only add to non-reducing ends *)
      if (d =? 1) && negb (k =? anchor) then
        ggraph2 ← attach ggraph first_part k;
        topologies ← topologies_loop ggraph first_part last_part ks';
        Ok (ggraph2 :: topologies)
      else topologies_loop ggraph first_part last_part ks'
  end.

Definition get_possible_topologies (glycan : glycan_arg) (libr : list string)
  : result (list nxGraph) :=
  ggraph ← ensure_graph glycan libr;
  let parts := map (nx.subgraph ggraph) (nx.connected_components ggraph) in
  match parts, List.last (map Some parts) None with
  | first_part :: _, Some last_part =>
      topologies_loop ggraph first_part last_part (nx.nodes last_part)
  | _, _ => Raise IndexError
  end.

Definition possible_topology_check (glycan : glycan_arg) (glycans : list glycan_arg)
    (libr : list string) : result (list glycan_arg) :=
  topologies ← get_possible_topologies glycan libr;
  hits ← result_mapM
    (fun g =>
       ggraph ← ensure_graph g libr;
       bs ← result_mapM
         (fun t => compare_glycans (GGraph t) (GGraph ggraph) libr false []) topologies;
       Ok (g, existsb id bs))
    glycans;
  Ok (map fst (List.filter snd hits)).

(** ** The matcher over a store of graph objects *)

(** Graphs are mutable objects: [remove_nodes_from] changes the graph it is
    called on, and every name bound to that graph sees the change. The
    store holds the graph objects alive during a call, a location being the
    position of an object in it. *)
Abbreviation loc := nat (only parsing).
Abbreviation store := (list nxGraph) (only parsing).

(** A glycan argument as the caller holds it: a string, or a reference to a
    graph object. *)
Inductive glycan_ref : Type :=
| RString (s : string)
| RGraph (l : loc).

Definition read (σ : store) (l : loc) : nxGraph := default nx.Graph (σ !! l).

Definition write (σ : store) (l : loc) (g : nxGraph) : store := <[l := g]> σ.

(** A new object holding [g]. *)
Definition alloc (g : nxGraph) (σ : store) : loc * store := (length σ, σ ++ [g]).

(** [copy.deepcopy(glycan)]: a new object with the contents of the old. *)
Definition deepcopy (l : loc) (σ : store) : loc * store := alloc (read σ l) σ.

(** [g1.remove_nodes_from(ns)] on the object at [l]. *)
Definition remove_nodes_from_at (l : loc) (ns : list Z) (σ : store) : store :=
  write σ l (nx.remove_nodes_from (read σ l) ns).

(** The counting loop over the store: the matcher refers to the working
    copy at [l1] and to the motif graph at [l2]. *)
Fixpoint count_loop_st (fuel : nat) (libr : list string) (extra : string)
    (wildcard_list : list pyval) (motif_comp : list string)
    (l1 l2 : loc) (node_match : node_match_t) (counts : Z) (σ : store)
  : option (result Z * store) :=
  match fuel with
  | O => None
  | S fuel' =>
      let graph_pair := isomorphism.mk_GraphMatcher (read σ l1) (read σ l2) node_match in
      match isomorphism.subgraph_is_isomorphic graph_pair with
      | Raise e => Some (Raise e, σ)
      | Ok None => Some (Ok counts, σ)
      | Ok (Some mapping) =>
          let counts := counts + 1 in
          let σ := remove_nodes_from_at l1 (map fst mapping) σ in
          match choose_graph_pair libr extra wildcard_list motif_comp
                  (read σ l1) (read σ l2) with
          | Matcher graph_pair' =>
              count_loop_st fuel' libr extra wildcard_list motif_comp l1 l2
                (isomorphism.node_match graph_pair') counts σ
          | PreCheckFailed => Some (Ok counts, σ)
          | NoBranch =>
              count_loop_st fuel' libr extra wildcard_list motif_comp l1 l2
                node_match counts σ
          end
      end
  end.

Definition match_graphs_st (fuel : nat) (libr : list string) (extra : string)
    (wildcard_list : list pyval) (motif_comp : list string) (count : bool)
    (l1 l2 : loc) (σ : store) : option (result pyret * store) :=
  if (length (nx.nodes (read σ l2)) <=? length (nx.nodes (read σ l1)))%nat then
    match choose_graph_pair libr extra wildcard_list motif_comp (read σ l1) (read σ l2) with
    | PreCheckFailed => Some (Ok (no_match count), σ)
    | NoBranch => Some (Raise UnboundLocalError, σ)
    | Matcher graph_pair =>
        if count then
          match count_loop_st fuel libr extra wildcard_list motif_comp l1 l2
                  (isomorphism.node_match graph_pair) 0 σ with
          | Some (counts, σ') => Some (RInt <$> counts, σ')
          | None => None
          end
        else
          Some (r ← isomorphism.subgraph_is_isomorphic graph_pair; Ok (RBool (found r)), σ)
    end
  else Some (Ok (no_match count), σ).

Definition subgraph_isomorphism_st (fuel : nat) (glycan : glycan_ref) (motif : string)
    (libr : list string) (extra : string) (wildcard_list : list string)
    (termini_list : list string) (count : bool) (σ : store)
  : option (result pyret * store) :=
  match index_wildcards libr wildcard_list with
  | Raise e => Some (Raise e, σ)
  | Ok wildcard_list =>
      let motif_comp := tokenize motif in
      let motif_termini := if str_eqb extra "termini" then "provided" else "ignore" in
      let motif_termini_list := if str_eqb extra "termini" then Some termini_list else None in
      (* g1: parsed from the string, or a deep copy of the caller's graph *)
      let built :=
        match glycan with
        | RString glycan =>
            g1 ← glycan_to_nxGraph glycan libr
                   (if str_eqb extra "termini" then "calc" else "ignore") None false;
            Ok (alloc g1 σ)
        | RGraph l => Ok (deepcopy l σ)
        end in
      match built with
      | Raise e => Some (Raise e, σ)
      | Ok (l1, σ) =>
          match glycan_to_nxGraph motif libr motif_termini motif_termini_list true with
          | Raise e => Some (Raise e, σ)
          | Ok g2 =>
              let '(l2, σ) := alloc g2 σ in
              match_graphs_st fuel libr extra wildcard_list motif_comp count l1 l2 σ
          end
      end
  end.

(** ** Well-formed graphs *)

(** Node ids are distinct, every neighbour is a node, and adjacency is
    symmetric: what every graph built through the networkx API satisfies. *)
Definition nodup_Z (l : list Z) : bool :=
  (fix go (l seen : list Z) : bool :=
     match l with
     | [] => true
     | x :: l' => negb (Z_in x seen) && go l' (x :: seen)
     end) l [].

Definition well_formed (G : nxGraph) : bool :=
  nodup_Z (nx.nodes G)
  && forallb (fun x => nodup_Z (n_adj x)
                       && forallb (fun v => nx.has_node G v && nx.has_edge G v (n_id x))
                            (n_adj x)) G.

(** Every node carries its glycoletter. *)
Definition labelled (G : nxGraph) : bool :=
  forallb (fun x => found (attr_string_labels (n_data x))) G.

(** ** A sample registry *)

(** A few entries of the glycoletter library, enough for the examples. *)
Definition sample_lib : list string :=
  ["Gal"; "Glc"; "GlcNAc"; "Man"; "Fuc"; "Hex"; "Neu5Ac";
   "a1-2"; "a1-3"; "a1-6"; "a2-3"; "b1-2"; "b1-4"].

(** ** What the matchers are to find *)

(** [completes GM todo core m]: the mapping [m] extends [core] by one pair
    for every node of [todo], each pair joining a fresh node of [G1] to the
    node of [G2] at hand, structurally consistent with the pairs before it
    and accepted by [node_match]. *)
Inductive completes (GM : isomorphism.GraphMatcher)
  : list nx_node -> isomorphism.mapping_t -> isomorphism.mapping_t -> Prop :=
| completes_done core : completes GM [] core core
| completes_step v todo core u m :
    In u (isomorphism.G1 GM) ->
    Z_in (n_id u) (map fst core) = false ->
    isomorphism.syntactic_feasibility GM core (n_id u) (n_id v) = true ->
    isomorphism.semantic_feasibility GM u v = Ok true ->
    completes GM todo ((n_id u, n_id v) :: core) m ->
    completes GM (v :: todo) core m.

(** An occurrence of the motif [g2] in the host [g1] under a predicate: a
    node-induced subgraph of [g1] isomorphic to [g2], given as the list of
    matched pairs. *)
Definition occurrence (g1 g2 : nxGraph) (node_match : node_match_t)
    (m : isomorphism.mapping_t) : Prop :=
  completes (isomorphism.mk_GraphMatcher g1 g2 node_match) g2 [] m.

(** The predicate that accepts every pair: occurrences under it are the
    occurrences of the bare topology. *)
Definition any_label : node_match_t := fun _ _ => Ok true.

(** [node_match] answers on every pair of nodes of the two graphs. *)
Definition answers (g1 g2 : nxGraph) (node_match : node_match_t) : Prop :=
  forall u v, In u g1 -> In v g2 ->
    exists b, node_match (n_data u) (n_data v) = Ok b.

(** [σ'] holds every object of [σ0] unchanged. *)
Definition keeps (σ0 σ' : store) : Prop :=
  forall l, (l < length σ0)%nat -> σ' !! l = σ0 !! l.

(** ** What the topology enumerator is to produce *)

(** A node of degree one. *)
Definition is_leaf (G : nxGraph) (k : Z) : bool :=
  match nx.degree G k with
  | Ok d => d =? 1
  | Raise _ => false
  end.

(** The highest node id of a graph with at least one node. *)
Definition highest (G : nxGraph) : Z :=
  match py_max_Z (nx.nodes G) with
  | Ok top => top
  | Raise _ => 0
  end.

(** The leaves of a component other than its highest node, the anchor. *)
Definition free_leaves (part : nxGraph) : list Z :=
  List.filter (fun k => is_leaf part k && negb (k =? highest part)) (nx.nodes part).

(** Node ids replaced by the positions of the nodes. *)
Definition renumbered (G : nxGraph) : nxGraph :=
  nx.relabel_nodes G
    (combine (nx.nodes G) (map Z.of_nat (range (length (nx.nodes G))))).

(** Distinct node ids and no neighbour outside the graph. *)
Definition closed_graph (G : nxGraph) : Prop :=
  NoDup (nx.nodes G)
  /\ forall x v, In x G -> In v (n_adj x) -> In v (nx.nodes G).

(** ** The round trip *)

(** Parse, serialize, parse again and compare the second graph with the
    first. *)
Definition round_trip (df_glycan : list string) (libr : list string) (s : string)
  : result bool :=
  g ← glycan_to_nxGraph s libr "ignore" None false;
  s' ← graph_to_string df_glycan g false libr;
  g' ← glycan_to_nxGraph s' libr "ignore" None false;
  compare_glycans (GGraph g') (GGraph g) libr false [].

(** The mapping that sends every node of a list to itself, last node
    first. *)
Definition identity_pairs (l : list nx_node) : isomorphism.mapping_t :=
  rev (map (fun x => (n_id x, n_id x)) l).

(** An element of a wildcard list that is a registry index. *)
Definition is_index (v : pyval) : bool :=
  match v with PyInt _ => true | PyString _ => false end.

(** The character [c] does not occur in [s]. *)
Fixpoint free_of (c : ascii) (s : string) : bool :=
  match s with
  | EmptyString => true
  | String d s' => negb (Ascii.eqb d c) && free_of c s'
  end.

(** A graph of one node, numbered [0]. *)
Definition single_node (data : node_data) : nxGraph := [mk_nx_node 0 data []].

(** One entry [(k, v)] of the dictionary passed to [set_node_attributes],
    as it acts on a single node. *)
Definition set_entry {V} (set : V -> nx_node -> nx_node) (x : nx_node) (kv : Z * V)
  : nx_node :=
  if n_id x =? fst kv then set (snd kv) x else x.

(** ** Tokenization *)

(** [pad_sequence(seq, max_length, pad_label)]; [lib] is the library of the
    package data, whose length is the padding label when none is given. *)
Definition pad_sequence (lib : list string) (seq : list Z) (max_length : Z)
    (pad_label : option Z) : list Z :=
  let pad_label := match pad_label with
                   | Some p => p
                   | None => Z.of_nat (length lib)
                   end in
  seq ++ map (fun _ => pad_label) (range (Z.to_nat (max_length - Z.of_nat (length seq)))).

Definition easy_cores : list string :=
  ["GlcNAc"; "GalNAc"; "ManNAc"; "FucNAc"; "QuiNAc"; "RhaNAc"; "GulNAc";
   "IdoNAc"; "MurNAc"; "HexNAc"; "6dAltNAc"; "AcoNAc"; "GlcA"; "AltA";
   "GalA"; "ManA"; "Tyv"; "Yer"; "Abe"; "GlcfNAc"; "GalfNAc"; "ManfNAc";
   "FucfNAc"; "IdoA"; "GulA"; "LDManHep"; "DDManHep"; "DDGlcHep"; "LyxHep"; "ManHep";
   "DDAltHep"; "IdoHep"; "DLGlcHep"; "GalHep"].

(** The source writes ['IdoN' 'Glcf'] without a comma between the two
    literals, which Python reads as the one string ['IdoNGlcf']. *)
Definition next_cores : list string :=
  ["GlcN"; "GalN"; "ManN"; "FucN"; "QuiN"; "RhaN"; "AraN"; "IdoNGlcf"; "Galf"; "Manf";
   "Fucf"; "Araf"; "Lyxf"; "Xylf"; "6dAltf"; "Ribf"; "Fruf"; "Apif"; "Kdof"; "Sedf";
   "6dTal"; "AltNAc"; "6dAlt"].

Definition hard_cores : list string :=
  ["Glc"; "Gal"; "Man"; "Fuc"; "Qui"; "Rha"; "Ara"; "Oli"; "Kdn"; "Gul"; "Lyx";
   "Xyl"; "Dha"; "Rib"; "Kdo"; "Tal"; "All"; "Pse"; "Leg"; "Asc";
   "Fru"; "Hex"; "Alt"; "Xluf"; "Api"; "Ko"; "Pau"; "Fus"; "Erwiniose";
   "Aco"; "Bac"; "Dig"; "Thre-ol"; "Ery-ol"].

(** [[ele for ele in cores if ele in sugar]] *)
Definition cores_in (cores : list string) (sugar : string) : list string :=
  List.filter (fun ele => PyStr.contains ele sugar) cores.

(** The pattern of [get_core] and [stemify_glycan], matched from the start
    of the string: a run of digits, then one or more times a hyphen and a
    run of digits, up to the end of the string or up to a newline that ends
    it. The states are: before the first digit, inside the first run, after
    a hyphen, inside a later run. *)
Inductive linkage_state : Type :=
| AtStart | InFirstRun | AfterHyphen | InLaterRun.

Definition newline : ascii := "010"%char.

Fixpoint linkage_scan (st : linkage_state) (s : string) : bool :=
  match s with
  | EmptyString => match st with InLaterRun => true | _ => false end
  | String c s' =>
      if PyStr.is_digit c then
        match st with
        | AtStart | InFirstRun => linkage_scan InFirstRun s'
        | AfterHyphen | InLaterRun => linkage_scan InLaterRun s'
        end
      else if Ascii.eqb c "-"%char then
        match st with
        | InFirstRun | InLaterRun => linkage_scan AfterHyphen s'
        | _ => false
        end
      else if Ascii.eqb c newline then
        match st, s' with
        | InLaterRun, EmptyString => true
        | _, _ => false
        end
      else false
  end.

Definition is_position_range (s : string) : bool := linkage_scan AtStart s.

Definition get_core (sugar : string) : string :=
  match cores_in easy_cores sugar with
  | ele :: _ => ele
  | [] =>
  match cores_in next_cores sugar with
  | ele :: _ => ele
  | [] =>
  match cores_in hard_cores sugar with
  | ele :: _ => ele
  | [] =>
    if PyStr.contains "Neu" sugar && PyStr.contains "5Ac" sugar then "Neu5Ac"
    else if PyStr.contains "Neu" sugar && PyStr.contains "5Gc" sugar then "Neu5Gc"
    else if PyStr.contains "Neu" sugar then "Neu"
    else if PyStr.startswith "a" sugar || PyStr.startswith "b" sugar then sugar
    else if is_position_range sugar then sugar
    else "Sug"
  end end end.

(** The names [get_core] can return without returning its argument. *)
Definition core_names : list string :=
  easy_cores ++ next_cores ++ hard_cores ++ ["Neu5Ac"; "Neu5Gc"; "Neu"; "Sug"].

(** The pairs of [m] agree on edges: two nodes of [g1] are joined exactly
    when their partners in [g2] are. *)
Definition edges_agree (g1 g2 : nxGraph) (m : isomorphism.mapping_t) : Prop :=
  forall p q, In p m -> In q m ->
    nx.has_edge g1 (fst p) (fst q) = nx.has_edge g2 (snd p) (snd q).

(** ** Notations for the round trip *)






Definition monosaccharides : list string :=
  ["Gal"; "Glc"; "GlcNAc"; "GalNAc"; "Man"; "Fuc"; "Xyl"; "Neu5Ac"].

Definition linkages : list string :=
  ["a1-2"; "a1-3"; "a1-4"; "a1-6"; "a2-3"; "b1-2"; "b1-4"].

(** A library of the glycoletters above. *)
Definition glycoletters : list string := (monosaccharides ++ linkages)%list.







(** * Properties *)

(** Splits a conjunction of closed facts into its parts and leaves each to
    evaluation. *)
Ltac split_all := repeat match goal with |- _ /\ _ => split end.
Ltac by_evaluation := split_all; vm_compute; reflexivity.

(** ** Strings *)



Import isomorphism.
(** ** The search finds occurrences, and only occurrences *)

Section Search.

Variable GM : GraphMatcher.

Lemma try_candidates_sound v todo core continue :
  (forall core' m, continue core' = Ok (Some m) -> completes GM todo core' m) ->
  forall cands m,
    incl cands (G1 GM) ->
    try_candidates GM core v continue cands = Ok (Some m) ->
    completes GM (v :: todo) core m.
Proof.
  intros Hk cands. induction cands as [|u cands IH]; intros m Hin H; simpl in H.
  - discriminate.
  - assert (Hin' : incl cands (G1 GM)) by (intros x Hx; apply Hin; now right).
    destruct (Z_in (n_id u) (map fst core)) eqn:Hused; simpl in H; [now apply IH|].
    destruct (syntactic_feasibility GM core (n_id u) (n_id v)) eqn:Hsyn; simpl in H;
      [|now apply IH].
    destruct (semantic_feasibility GM u v) as [[|]|e] eqn:Hsem; try discriminate;
      [|now apply IH].
    destruct (continue ((n_id u, n_id v) :: core)) as [[m'|]|e] eqn:Hc; try discriminate;
      [|now apply IH].
    injection H as <-.
    eapply completes_step; eauto. apply Hin. now left.
Qed.

Lemma match_nodes_sound todo : forall core m,
  match_nodes GM todo core = Ok (Some m) -> completes GM todo core m.
Proof.
  induction todo as [|v todo IH]; intros core m H; simpl in H.
  - injection H as <-. constructor.
  - eapply try_candidates_sound; [| |exact H]; [|apply incl_refl].
    intros core' m' H'. now apply IH.
Qed.

(** The search raises only what [node_match] raises. *)
Lemma try_candidates_answers v core continue :
  (forall u, In u (G1 GM) -> exists b, semantic_feasibility GM u v = Ok b) ->
  (forall core', exists r, continue core' = Ok r) ->
  forall cands, incl cands (G1 GM) ->
    exists r, try_candidates GM core v continue cands = Ok r.
Proof.
  intros Hnm Hk cands. induction cands as [|u cands IH]; intros Hin; simpl.
  - eauto.
  - assert (Hin' : incl cands (G1 GM)) by (intros x Hx; apply Hin; now right).
    destruct (_ || _); [now apply IH|].
    destruct (Hnm u) as [b ->]; [apply Hin; now left|].
    destruct b; [|now apply IH].
    destruct (Hk ((n_id u, n_id v) :: core)) as [[m|] ->]; eauto.
Qed.

Lemma match_nodes_answers todo :
  (forall u v, In u (G1 GM) -> In v todo -> exists b, semantic_feasibility GM u v = Ok b) ->
  forall core, exists r, match_nodes GM todo core = Ok r.
Proof.
  induction todo as [|v todo IH]; intros Hnm core; simpl.
  - eauto.
  - apply try_candidates_answers; [| |apply incl_refl].
    + intros u Hu. apply Hnm; [exact Hu|now left].
    + intros core'. apply IH. intros u v' Hu Hv'. apply Hnm; [exact Hu|now right].
Qed.

Lemma try_candidates_complete v core continue u :
  (forall u, In u (G1 GM) -> exists b, semantic_feasibility GM u v = Ok b) ->
  (forall core', exists r, continue core' = Ok r) ->
  Z_in (n_id u) (map fst core) = false ->
  syntactic_feasibility GM core (n_id u) (n_id v) = true ->
  semantic_feasibility GM u v = Ok true ->
  (exists m, continue ((n_id u, n_id v) :: core) = Ok (Some m)) ->
  forall cands, incl cands (G1 GM) -> In u cands ->
    exists m, try_candidates GM core v continue cands = Ok (Some m).
Proof.
  intros Hnm Hk Hused Hsyn Hsem [m Hm] cands.
  induction cands as [|x cands IH]; intros Hin Hu; [destruct Hu|]. simpl.
  assert (Hin' : incl cands (G1 GM)) by (intros y Hy; apply Hin; now right).
  destruct (Z_in (n_id x) (map fst core) || negb (syntactic_feasibility GM core (n_id x) (n_id v)))
    eqn:Hskip.
  - destruct Hu as [->|Hu]; [|now apply IH].
    rewrite Hused, Hsyn in Hskip. discriminate.
  - destruct (Hnm x) as [b Hb]; [apply Hin; now left|]. rewrite Hb.
    destruct b.
    + destruct (Hk ((n_id x, n_id v) :: core)) as [[m'|] Hm']; rewrite Hm'; eauto.
      destruct Hu as [->|Hu]; [|now apply IH]. congruence.
    + destruct Hu as [->|Hu]; [|now apply IH]. congruence.
Qed.

Lemma match_nodes_complete todo :
  (forall u v, In u (G1 GM) -> In v todo -> exists b, semantic_feasibility GM u v = Ok b) ->
  forall core m, completes GM todo core m ->
    exists m', match_nodes GM todo core = Ok (Some m').
Proof.
  intros Hnm core m H. induction H as [core|v todo core u m Hu Hused Hsyn Hsem H IH]; simpl.
  - eauto.
  - eapply try_candidates_complete; eauto using incl_refl.
    + intros u' Hu'. apply Hnm; [exact Hu'|now left].
    + intros core'. apply match_nodes_answers.
      intros u' v' Hu' Hv'. apply Hnm; [exact Hu'|now right].
    + apply IH. intros u' v' Hu' Hv'. apply Hnm; [exact Hu'|now right].
Qed.

(** The pairs of a completed mapping. *)
Lemma completes_incl todo core m :
  completes GM todo core m -> incl core m.
Proof.
  induction 1 as [core|v todo core u m _ _ _ _ _ IH].
  - apply incl_refl.
  - intros p Hp. apply IH. now right.
Qed.

Lemma completes_length todo core m :
  completes GM todo core m -> length m = (length todo + length core)%nat.
Proof.
  induction 1 as [core|v todo core u m _ _ _ _ _ IH]; simpl in *; lia.
Qed.

Lemma completes_hits_host v todo core m :
  completes GM (v :: todo) core m ->
  exists u, In u (G1 GM) /\ In (n_id u) (map fst m).
Proof.
  inversion 1 as [|v' todo' core' u m' Hu _ _ _ Hrest]; subst.
  exists u. split; [exact Hu|].
  apply completes_incl in Hrest.
  apply (in_map fst) with (x := (n_id u, n_id v)). apply Hrest. now left.
Qed.

End Search.

(** ** Removing nodes *)

Lemma Z_in_spec x l : Z_in x l = true <-> In x l.
Proof.
  unfold Z_in. rewrite existsb_exists. split.
  - intros (y & Hy & Heq). apply Z.eqb_eq in Heq. now subst.
  - intros H. exists x. split; [exact H|apply Z.eqb_refl].
Qed.

Lemma Z_in_false x l : Z_in x l = false <-> ~ In x l.
Proof.
  rewrite <- Z_in_spec. destruct (Z_in x l); split; congruence.
Qed.

Lemma nodes_delete_node G n :
  nx.nodes (nx.delete_node G n) = List.filter (fun x => negb (x =? n)) (nx.nodes G).
Proof.
  unfold nx.delete_node, nx.nodes. rewrite map_map. simpl.
  induction G as [|x G IH]; simpl; [reflexivity|].
  destruct (n_id x =? n); simpl; now rewrite IH.
Qed.

Lemma filter_all_true {A} (f : A -> bool) l :
  (forall x, In x l -> f x = true) -> List.filter f l = l.
Proof.
  induction l as [|a l IH]; intros H; simpl; [reflexivity|].
  rewrite H by now left. f_equal. apply IH. intros x Hx. apply H. now right.
Qed.

Lemma nodes_remove_nodes_from ns : forall G,
  nx.nodes (nx.remove_nodes_from G ns)
  = List.filter (fun x => negb (Z_in x ns)) (nx.nodes G).
Proof.
  unfold nx.remove_nodes_from.
  induction ns as [|n ns IH]; intros G; simpl.
  - symmetry. now apply filter_all_true.
  - rewrite IH. destruct (nx.has_node G n) eqn:Hn.
    + rewrite nodes_delete_node.
      induction (nx.nodes G) as [|x l IHl]; simpl; [reflexivity|].
      destruct (x =? n); simpl; [apply IHl|].
      fold (Z_in x ns). destruct (Z_in x ns); simpl; [apply IHl|]. f_equal. apply IHl.
    + unfold nx.has_node in Hn. apply Z_in_false in Hn.
      apply filter_ext_in. intros x Hx. simpl.
      destruct (Z.eqb_spec x n) as [->|]; [contradiction|reflexivity].
Qed.

Lemma filter_length_lt {A} (f : A -> bool) l x :
  In x l -> f x = false -> (length (List.filter f l) < length l)%nat.
Proof.
  induction l as [|a l IH]; intros Hin Hf; [destruct Hin|]. simpl.
  destruct Hin as [->|Hin].
  - rewrite Hf. pose proof (filter_length_le f l). lia.
  - specialize (IH Hin Hf). destruct (f a); simpl; lia.
Qed.

(** Removing a list of nodes that holds a node of the graph leaves fewer
    nodes. *)
Lemma remove_nodes_from_shrinks G ns u :
  In u G -> In (n_id u) ns ->
  (length (nx.remove_nodes_from G ns) < length G)%nat.
Proof.
  intros Hu Hns.
  rewrite <- (length_map n_id (nx.remove_nodes_from G ns)), <- (length_map n_id G).
  change (map n_id (nx.remove_nodes_from G ns)) with (nx.nodes (nx.remove_nodes_from G ns)).
  rewrite nodes_remove_nodes_from.
  apply filter_length_lt with (x := n_id u).
  - unfold nx.nodes. now apply in_map.
  - apply Z_in_spec in Hns. now rewrite Hns.
Qed.

(** ** The counting loop *)

Lemma choose_graph_pair_graphs libr extra wl mc g1 g2 gp :
  choose_graph_pair libr extra wl mc g1 g2 = Matcher gp ->
  G1 gp = g1 /\ G2 gp = g2.
Proof.
  unfold choose_graph_pair. intros H.
  repeat match type of H with
         | (if ?c then _ else _) = _ => destruct c
         end; try discriminate; injection H as <-; auto.
Qed.

(** Every match found for a motif with at least one node takes at least
    one node off the working copy. *)
Lemma match_shrinks_host gp mapping :
  (1 <= length (G2 gp))%nat ->
  subgraph_is_isomorphic gp = Ok (Some mapping) ->
  (length (nx.remove_nodes_from (G1 gp) (map fst mapping)) < length (G1 gp))%nat.
Proof.
  intros Hne H. apply match_nodes_sound in H.
  destruct (G2 gp) as [|v todo]; [simpl in Hne; lia|].
  destruct (completes_hits_host _ _ _ _ _ H) as (u & Hu & Hm).
  eapply remove_nodes_from_shrinks; eauto.
Qed.

Lemma count_loop_terminates libr extra wl mc : forall fuel gp counts,
  (1 <= length (G2 gp))%nat ->
  (length (G1 gp) < fuel)%nat ->
  exists r, count_loop fuel libr extra wl mc gp counts = Some r.
Proof.
  induction fuel as [|fuel IH]; intros gp counts Hne Hlt; [lia|]. simpl.
  destruct (subgraph_is_isomorphic gp) as [[mapping|]|e] eqn:Hm; eauto.
  pose proof (match_shrinks_host gp mapping Hne Hm) as Hshrink.
  destruct (choose_graph_pair libr extra wl mc _ (G2 gp)) as [gp'| |] eqn:Hc; eauto.
  - apply choose_graph_pair_graphs in Hc as [H1 H2].
    apply IH; [now rewrite H2 | rewrite H1; lia].
  - apply IH; simpl; [assumption | lia].
Qed.

(** More fuel does not change the result of a loop that has ended. *)
Lemma count_loop_fuel_mono libr extra wl mc : forall fuel fuel' gp counts r,
  (fuel <= fuel')%nat ->
  count_loop fuel libr extra wl mc gp counts = Some r ->
  count_loop fuel' libr extra wl mc gp counts = Some r.
Proof.
  induction fuel as [|fuel IH]; intros fuel' gp counts r Hle H; [discriminate|].
  destruct fuel' as [|fuel']; [lia|]. simpl in *.
  destruct (subgraph_is_isomorphic gp) as [[mapping|]|e]; auto.
  destruct (choose_graph_pair _ _ _ _ _ _); auto; apply IH with (fuel' := fuel') in H; auto; lia.
Qed.

(** C10. For every host and every motif whose graph has at least one node,
    the counting loop of [subgraph_isomorphism] with [count=True] ends:
    from a bound on, whatever fuel the loop is given, the call returns. *)
Theorem counting_terminates (glycan : glycan_arg) (motif : string) (libr : list string)
    (extra : string) (wildcard_list termini_list : list string) :
  (forall g1 g2, matcher_graphs glycan motif libr extra termini_list = Ok (g1, g2) ->
                 (1 <= length (nx.nodes g2))%nat) ->
  exists bound r, forall fuel, (bound <= fuel)%nat ->
    subgraph_isomorphism fuel glycan motif libr extra wildcard_list termini_list true
    = Some r.
Proof.
  intros Hmotif. unfold subgraph_isomorphism.
  destruct (index_wildcards libr wildcard_list) as [wl|e]; [|exists O; eauto].
  destruct (matcher_graphs glycan motif libr extra termini_list) as [[g1 g2]|e] eqn:Hg;
    [|exists O; eauto].
  specialize (Hmotif g1 g2 eq_refl). unfold nx.nodes in Hmotif. rewrite length_map in Hmotif.
  unfold match_graphs.
  destruct (_ <=? _)%nat; [|exists O; eauto].
  destruct (choose_graph_pair libr extra wl (tokenize motif) g1 g2) as [gp| |] eqn:Hc;
    [|exists O; eauto..].
  apply choose_graph_pair_graphs in Hc as [H1 H2].
  destruct (count_loop_terminates libr extra wl (tokenize motif) (S (length g1)) gp 0)
    as [r Hr]; [now rewrite H2 | rewrite H1; lia|].
  exists (S (length g1)), (RInt <$> r). intros fuel Hfuel.
  now rewrite (count_loop_fuel_mono _ _ _ _ _ fuel _ _ _ Hfuel Hr).
Qed.

Lemma counting_terminates_witness :
  exists bound r, forall fuel, (bound <= fuel)%nat ->
    subgraph_isomorphism fuel (GString "Gal(b1-4)GlcNAc(b1-2)Man") "Gal(b1-4)GlcNAc"
      sample_lib "ignore" [] [] true = Some r.
Proof.
  apply counting_terminates.
  intros g1 g2 H. vm_compute in H. injection H as _ <-. vm_compute. lia.
Defined.

(** ** Presence and count *)

Lemma count_loop_grows libr extra wl mc : forall fuel gp counts n,
  count_loop fuel libr extra wl mc gp counts = Some (Ok n) ->
  counts <= n /\ (found <$> subgraph_is_isomorphic gp = Ok true -> counts + 1 <= n).
Proof.
  induction fuel as [|fuel IH]; intros gp counts n H; [discriminate|]. simpl in H.
  destruct (subgraph_is_isomorphic gp) as [[mapping|]|e]; try discriminate.
  - assert (counts + 1 <= n) as Hle; [|split; [lia|auto]].
    destruct (choose_graph_pair _ _ _ _ _ _).
    + apply IH in H. lia.
    + injection H as <-. lia.
    + apply IH in H. lia.
  - injection H as <-. split; [lia|]. simpl. discriminate.
Qed.

(** When both calls return, the truth value says whether the count is
    positive. *)
Lemma presence_agrees_with_count fuel fuel' glycan motif libr extra wildcard_list
    termini_list b n :
  subgraph_isomorphism fuel glycan motif libr extra wildcard_list termini_list false
    = Some (Ok (RBool b)) ->
  subgraph_isomorphism fuel' glycan motif libr extra wildcard_list termini_list true
    = Some (Ok (RInt n)) ->
  (b = true <-> 1 <= n) /\ (b = false <-> n = 0).
Proof.
  unfold subgraph_isomorphism.
  destruct (index_wildcards libr wildcard_list) as [wl|e]; [|discriminate].
  destruct (matcher_graphs glycan motif libr extra termini_list) as [[g1 g2]|e];
    [|discriminate].
  unfold match_graphs. destruct (_ <=? _)%nat.
  - destruct (choose_graph_pair libr extra wl (tokenize motif) g1 g2) as [gp| |].
    + destruct (count_loop fuel' libr extra wl (tokenize motif) gp 0) as [[n'|e]|] eqn:Hloop;
        try discriminate.
      intros Hb Hn. injection Hn as <-.
      destruct fuel' as [|fuel'']; [discriminate|].
      pose proof (count_loop_grows _ _ _ _ _ _ _ _ Hloop) as [_ Hpos].
      simpl in Hloop.
      destruct (subgraph_is_isomorphic gp) as [[mapping|]|e]; try discriminate.
      * injection Hb as <-. simpl in *. specialize (Hpos eq_refl).
        split; split; intros; try reflexivity; try discriminate; lia.
      * injection Hb as <-. injection Hloop as <-. simpl.
        split; split; intros; try reflexivity; try discriminate; lia.
    + intros Hb Hn. injection Hb as <-. injection Hn as <-.
      split; split; intros; try reflexivity; try discriminate; lia.
    + discriminate.
  - intros Hb Hn. injection Hb as <-. injection Hn as <-.
    split; split; intros; try reflexivity; try discriminate; lia.
Qed.

(** A motif whose graph is empty is found in every working copy and takes
    nothing off it: the loop never ends. *)
Lemma count_loop_empty_motif libr wl mc g1 : forall fuel counts,
  labels_present g1 mc = true ->
  count_loop fuel libr "ignore" wl mc
    (mk_GraphMatcher g1 [] (categorical_node_match (Z.of_nat (length libr)))) counts
  = None.
Proof.
  induction fuel as [|fuel IH]; intros counts Hl; [reflexivity|].
  simpl. unfold choose_graph_pair. simpl. rewrite Hl. now apply IH.
Qed.

(** C5. The truth value and the count disagree on the motif ["Hex"]: the
    call with [count=False] returns [True], the call with [count=True]
    never returns, whatever fuel its loop is given. *)
Theorem count_never_returns_on_Hex (fuel : nat) :
  subgraph_isomorphism fuel (GString "Gal(b1-4)Hex") "Hex" sample_lib
    "ignore" [] [] false = Some (Ok (RBool true))
  /\ subgraph_isomorphism fuel (GString "Gal(b1-4)Hex") "Hex" sample_lib
       "ignore" [] [] true = None.
Proof.
  split; [vm_compute; reflexivity|].
  unfold subgraph_isomorphism.
  change (index_wildcards sample_lib []) with (@Ok (list pyval) []).
  cbv beta iota.
  destruct (matcher_graphs (GString "Gal(b1-4)Hex") "Hex" sample_lib "ignore" [])
    as [[g1 g2]|e] eqn:Hg; vm_compute in Hg; [|discriminate].
  injection Hg as <- <-.
  unfold match_graphs. simpl Nat.leb. cbv iota.
  unfold choose_graph_pair.
  change (str_eqb "ignore" "ignore") with true. cbv iota.
  match goal with |- context [labels_present ?g ?mc] =>
    assert (Hl : labels_present g mc = true) by (vm_compute; reflexivity);
    rewrite Hl
  end.
  now rewrite count_loop_empty_motif.
Qed.

(** ** The pre-check *)

(** Where the pre-check is made: in the modes ['ignore'] and ['termini'],
    [subgraph_isomorphism] returns [False] (or [0] when counting) whenever
    a glycoletter of the motif is missing from the labels of the host; in
    every mode it does so whenever the host has fewer nodes than the motif
    graph. The mode ['wildcards'] makes no test on the labels. *)
Theorem precheck_rejects (fuel : nat) (glycan : glycan_arg) (motif : string)
    (libr : list string) (extra : string) (wildcard_list termini_list : list string)
    (count : bool) (wl : list pyval) (g1 g2 : nxGraph) :
  index_wildcards libr wildcard_list = Ok wl ->
  matcher_graphs glycan motif libr extra termini_list = Ok (g1, g2) ->
  ((length (nx.nodes g1) < length (nx.nodes g2))%nat ->
   subgraph_isomorphism fuel glycan motif libr extra wildcard_list termini_list count
   = Some (Ok (no_match count)))
  /\ (extra = "ignore" \/ extra = "termini" ->
      labels_present g1 (tokenize motif) = false ->
      subgraph_isomorphism fuel glycan motif libr extra wildcard_list termini_list count
      = Some (Ok (no_match count))).
Proof.
  intros Hw Hg. unfold subgraph_isomorphism. rewrite Hw, Hg. unfold match_graphs. split.
  - intros Hlt. apply Nat.leb_gt in Hlt. now rewrite Hlt.
  - intros Hmode Hl. destruct (_ <=? _)%nat; [|reflexivity].
    unfold choose_graph_pair. rewrite Hl.
    destruct Hmode as [-> | ->]; reflexivity.
Qed.

Lemma precheck_rejects_witness :
  subgraph_isomorphism 5 (GString "Gal(b1-4)Glc") "Man(a1-3)Gal" sample_lib
    "ignore" [] [] true = Some (Ok (RInt 0))
  /\ subgraph_isomorphism 5 (GString "Gal") "Gal(b1-4)Glc" sample_lib
       "wildcards" ["Gal"] [] false = Some (Ok (RBool false)).
Proof.
  split.
  - edestruct (precheck_rejects 5 (GString "Gal(b1-4)Glc") "Man(a1-3)Gal" sample_lib
                 "ignore" [] [] true) as [_ H];
      [vm_compute; reflexivity | vm_compute; reflexivity |].
    apply H; [now left | vm_compute; reflexivity].
  - edestruct (precheck_rejects 5 (GString "Gal") "Gal(b1-4)Glc" sample_lib
                 "wildcards" ["Gal"] [] false) as [H _];
      [vm_compute; reflexivity | vm_compute; reflexivity |].
    apply H. vm_compute. lia.
Defined.

(** C4. In the mode ['wildcards'], with no wildcard given, the host
    ["Gal(b1-4)Glc"] is reported to hold the motif ["Gal(b1-4)Hex"], once
    when counting, although no node of the host is labelled ["Hex"]. The
    motif graph is built with [override_reducing_end], which takes the
    glycoletter ["Hex"] at the end of the motif for the helper it appends
    to a motif ending in a linkage and removes its node: what is searched
    for is ["Gal(b1-4)"]. With ["Man"] in the place of ["Hex"] the same
    calls return [False] and [0], and in the mode ['ignore'] the pre-check
    rejects the motif. *)
Theorem missing_label_found_in_wildcard_mode :
  string_label_values <$> glycan_to_nxGraph "Gal(b1-4)Glc" sample_lib "ignore" None false
  = Ok ["Gal"; "b1-4"; "Glc"]
  /\ tokenize "Gal(b1-4)Hex" = ["Gal"; "b1-4"; "Hex"]
  /\ string_label_values <$> glycan_to_nxGraph "Gal(b1-4)Hex" sample_lib "ignore" None true
     = Ok ["Gal"; "b1-4"]
  /\ subgraph_isomorphism 2 (GString "Gal(b1-4)Glc") "Gal(b1-4)Hex" sample_lib
       "wildcards" [] [] false = Some (Ok (RBool true))
  /\ subgraph_isomorphism 2 (GString "Gal(b1-4)Glc") "Gal(b1-4)Hex" sample_lib
       "wildcards" [] [] true = Some (Ok (RInt 1))
  /\ subgraph_isomorphism 2 (GString "Gal(b1-4)Glc") "Gal(b1-4)Man" sample_lib
       "wildcards" [] [] false = Some (Ok (RBool false))
  /\ subgraph_isomorphism 2 (GString "Gal(b1-4)Glc") "Gal(b1-4)Man" sample_lib
       "wildcards" [] [] true = Some (Ok (RInt 0))
  /\ subgraph_isomorphism 2 (GString "Gal(b1-4)Glc") "Gal(b1-4)Hex" sample_lib
       "ignore" [] [] false = Some (Ok (RBool false)).
Proof. by_evaluation. Qed.

(** ** Override mode *)

(** C9. With [override_reducing_end] set, a notation that ends in the
    glycoletter ["Hex"], not in a linkage, loses its last node: the graph
    differs from the one built without the flag. *)
Theorem override_strips_real_node :
  nx.nodes <$> glycan_to_nxGraph_int "Gal(b1-4)Hex" sample_lib "ignore" None false
  = Ok [0; 1; 2]
  /\ nx.nodes <$> glycan_to_nxGraph_int "Gal(b1-4)Hex" sample_lib "ignore" None true
     = Ok [0; 1]
  /\ nx.nodes <$> glycan_to_nxGraph_int "Hex" sample_lib "ignore" None true = Ok [].
Proof. by_evaluation. Qed.

(** ** The string loops reach their exit *)

(** The three [while] loops over strings are given the length of the
    string as fuel; each round shortens the string, so the loop condition
    is false when they return. *)

Lemma startswith_length p : forall s,
  PyStr.startswith p s = true -> (PyStr.len p <= PyStr.len s)%nat.
Proof.
  unfold PyStr.len.
  induction p as [|a p IH]; intros s H; [simpl; lia|].
  destruct s as [|b s]; [discriminate H|]. simpl in H.
  apply andb_true_iff in H as [_ H]. apply IH in H. simpl. lia.
Qed.

Lemma len_drop n : forall s, PyStr.len (PyStr.drop n s) = (PyStr.len s - n)%nat.
Proof.
  induction n as [|n IH]; intros [|c s]; simpl; try reflexivity.
  apply IH.
Qed.

Lemma branch_match_length rest n :
  branch_match rest = Some n -> (2 <= n <= PyStr.len rest)%nat.
Proof.
  unfold branch_match.
  destruct (1 <=? run_length _ rest)%nat eqn:Hrun; cbn [andb]; [|discriminate].
  match goal with |- context [PyStr.startswith ?p ?r] =>
    destruct (PyStr.startswith p r) eqn:Hs; [|discriminate]
  end.
  intros H. injection H as <-. apply Nat.leb_le in Hrun.
  apply startswith_length in Hs. rewrite len_drop in Hs.
  change (PyStr.len "]") with 1%nat in Hs. lia.
Qed.

Lemma branch_sub_length s : forall skip,
  (PyStr.len (branch_sub skip s) + Nat.min skip (PyStr.len s) <= PyStr.len s)%nat.
Proof.
  induction s as [|c s IH]; intros skip; simpl; [lia|].
  destruct skip as [|k].
  - destruct (Ascii.eqb c "[").
    + destruct (branch_match s) as [n|] eqn:Hm.
      * apply branch_match_length in Hm. specialize (IH n). unfold PyStr.len in *. lia.
      * specialize (IH O). simpl. unfold PyStr.len in *. lia.
    + specialize (IH O). simpl. unfold PyStr.len in *. lia.
  - specialize (IH k). unfold PyStr.len in *. lia.
Qed.

Lemma branch_sub_shrinks s :
  branch_search s = true -> (PyStr.len (branch_sub O s) < PyStr.len s)%nat.
Proof.
  induction s as [|c s IH]; simpl; [discriminate|].
  destruct (Ascii.eqb c "["); simpl.
  - destruct (branch_match s) as [n|] eqn:Hm; simpl.
    + intros _. apply branch_match_length in Hm.
      pose proof (branch_sub_length s n). unfold PyStr.len in *. lia.
    + intros H. apply IH in H. unfold PyStr.len in *. lia.
  - intros H. apply IH in H. unfold PyStr.len in *. lia.
Qed.

Lemma bracket_removal_loop_done fuel : forall s,
  (PyStr.len s <= fuel)%nat -> branch_search (bracket_removal_loop fuel s) = false.
Proof.
  induction fuel as [|fuel IH]; intros s Hlen; simpl.
  - destruct s; [reflexivity|simpl in Hlen; lia].
  - destruct (branch_search s) eqn:Hs; [|exact Hs].
    apply IH. apply branch_sub_shrinks in Hs. lia.
Qed.

(** [bracket_removal] returns a string in which no complete branch is
    left. *)
Lemma bracket_removal_done glycan_part :
  branch_search (bracket_removal glycan_part) = false.
Proof. now apply bracket_removal_loop_done. Qed.

Lemma len_append a b : PyStr.len (a +:+ b) = (PyStr.len a + PyStr.len b)%nat.
Proof. induction a as [|c a IH]; simpl; [reflexivity|]. unfold PyStr.len in *. simpl. lia. Qed.

Lemma replace_scan_length old new s : forall skip,
  (PyStr.len new <= PyStr.len old)%nat ->
  (PyStr.len (PyStr.replace_scan old new skip s) + Nat.min skip (PyStr.len s)
   <= PyStr.len s)%nat.
Proof.
  intros skip Hnew. revert skip.
  induction s as [|c s IH]; intros skip; simpl; [lia|].
  destruct skip as [|k].
  - destruct (PyStr.startswith old (String c s)) eqn:Hs.
    + apply startswith_length in Hs. specialize (IH (PyStr.len old - 1)%nat).
      rewrite len_append. unfold PyStr.len in *. simpl in *. lia.
    + specialize (IH O). unfold PyStr.len in *. simpl in *. lia.
  - specialize (IH k). unfold PyStr.len in *. lia.
Qed.

Lemma find_Some_contains old s :
  PyStr.contains old s = true ->
  PyStr.startswith old s = true
  \/ exists c s', s = String c s' /\ PyStr.startswith old s = false
                  /\ PyStr.contains old s' = true.
Proof.
  unfold PyStr.contains. destruct s as [|c s']; simpl.
  - destruct (PyStr.startswith old ""); [now left|discriminate].
  - destruct (PyStr.startswith old (String c s')) eqn:Hs; [now left|].
    intros H. right. exists c, s'. repeat split.
    destruct (PyStr.find old s'); [reflexivity|discriminate].
Qed.

Lemma replace_scan_shrinks old new : 
  (PyStr.len new < PyStr.len old)%nat ->
  forall s, PyStr.contains old s = true ->
    (PyStr.len (PyStr.replace_scan old new O s) < PyStr.len s)%nat.
Proof.
  intros Hnew. induction s as [|c s IH]; intros Hc.
  - apply find_Some_contains in Hc as [Hs|(c & s' & H & _)]; [|discriminate].
    apply startswith_length in Hs. simpl in Hs. lia.
  - simpl. apply find_Some_contains in Hc as [Hs|(c' & s' & H & Hs & Hc)].
    + rewrite Hs. pose proof (startswith_length _ _ Hs) as Hlen.
      pose proof (replace_scan_length old new s (PyStr.len old - 1)%nat) as Hle.
      rewrite len_append. unfold PyStr.len in *. simpl in *. lia.
    + injection H as <- <-. rewrite Hs. apply IH in Hc. unfold PyStr.len in *. simpl. lia.
Qed.

Lemma replace_while_done old new :
  PyStr.is_empty old = false ->
  (PyStr.len new < PyStr.len old)%nat ->
  forall fuel s, (PyStr.len s <= fuel)%nat ->
    PyStr.contains old (PyStr.replace_while fuel old new s) = false.
Proof.
  intros Hold Hnew. induction fuel as [|fuel IH]; intros s Hlen; simpl.
  - destruct s; [|simpl in Hlen; lia].
    destruct old; [discriminate|reflexivity].
  - destruct (PyStr.contains old s) eqn:Hc; [|exact Hc].
    apply IH. unfold PyStr.replace. rewrite Hold.
    pose proof (replace_scan_shrinks old new Hnew s Hc). lia.
Qed.

(** The two bracket-merging loops of the serializer leave no doubled
    bracket. *)
Lemma merged_brackets_done (b : string) (s : string) :
  b = "]" \/ b = "[" ->
  PyStr.contains (b +:+ b) (PyStr.replace_while (PyStr.len s) (b +:+ b) b s) = false.
Proof.
  intros [-> | ->]; apply replace_while_done; simpl; try reflexivity; lia.
Qed.

(** ** The store: only the working copy is written *)

Lemma read_write_same σ l g : (l < length σ)%nat -> read (write σ l g) l = g.
Proof.
  intros H. unfold read, write. now rewrite list_lookup_insert_eq.
Qed.

Lemma read_write_other σ l l' g : l <> l' -> read (write σ l g) l' = read σ l'.
Proof.
  intros H. unfold read, write. now rewrite list_lookup_insert_ne.
Qed.

Lemma length_write σ l g : length (write σ l g) = length σ.
Proof. apply length_insert. Qed.

Lemma read_alloc_new σ g : read (snd (alloc g σ)) (fst (alloc g σ)) = g.
Proof.
  unfold read, alloc. simpl. rewrite lookup_app_r by lia.
  now rewrite Nat.sub_diag.
Qed.

Lemma read_alloc_old σ g l : (l < length σ)%nat -> read (snd (alloc g σ)) l = read σ l.
Proof.
  intros H. unfold read, alloc. simpl. now rewrite lookup_app_l.
Qed.

Lemma keeps_refl σ : keeps σ σ.
Proof. now intros l _. Qed.

Lemma keeps_alloc σ0 σ g : keeps σ0 σ -> (length σ0 <= length σ)%nat ->
  keeps σ0 (snd (alloc g σ)).
Proof.
  intros H Hlen l Hl. unfold alloc. simpl.
  rewrite lookup_app_l by lia. now apply H.
Qed.

Lemma keeps_write σ0 σ l g : keeps σ0 σ -> (length σ0 <= l)%nat ->
  keeps σ0 (write σ l g).
Proof.
  intros H Hge l' Hl'. unfold write.
  rewrite list_lookup_insert_ne by lia. now apply H.
Qed.

Lemma count_loop_st_keeps σ0 libr extra wl mc l1 l2 :
  (length σ0 <= l1)%nat ->
  forall fuel nm counts σ r σ',
    keeps σ0 σ ->
    count_loop_st fuel libr extra wl mc l1 l2 nm counts σ = Some (r, σ') ->
    keeps σ0 σ'.
Proof.
  intros Hl1. induction fuel as [|fuel IH]; intros nm counts σ r σ' Hk H; [discriminate|].
  simpl in H.
  destruct (subgraph_is_isomorphic _) as [[mapping|]|e]; try (injection H as <- <-; exact Hk).
  assert (Hk' : keeps σ0 (remove_nodes_from_at l1 (map fst mapping) σ))
    by now apply keeps_write.
  destruct (choose_graph_pair _ _ _ _ _ _); try (injection H as <- <-; exact Hk');
    eapply IH; eauto.
Qed.

(** The loop over the store computes what the loop over graph values
    computes. *)
Lemma count_loop_st_refines libr extra wl mc l1 l2 :
  l1 <> l2 ->
  forall fuel nm counts σ,
    (l1 < length σ)%nat ->
    fst <$> count_loop_st fuel libr extra wl mc l1 l2 nm counts σ
    = count_loop fuel libr extra wl mc (mk_GraphMatcher (read σ l1) (read σ l2) nm) counts.
Proof.
  intros Hne. induction fuel as [|fuel IH]; intros nm counts σ Hl1; [reflexivity|].
  simpl.
  destruct (subgraph_is_isomorphic _) as [[mapping|]|e]; try reflexivity.
  unfold remove_nodes_from_at.
  rewrite read_write_same, read_write_other by assumption.
  destruct (choose_graph_pair _ _ _ _ _ _) as [gp| |] eqn:Hc; try reflexivity.
  - apply choose_graph_pair_graphs in Hc as [H1 H2].
    rewrite IH by now rewrite length_write.
    rewrite read_write_same, read_write_other by assumption.
    destruct gp as [a b nm']; simpl in *. now subst.
  - rewrite IH by now rewrite length_write.
    now rewrite read_write_same, read_write_other by assumption.
Qed.

Lemma match_graphs_st_keeps σ0 fuel libr extra wl mc count l1 l2 σ r σ' :
  (length σ0 <= l1)%nat ->
  keeps σ0 σ ->
  match_graphs_st fuel libr extra wl mc count l1 l2 σ = Some (r, σ') ->
  keeps σ0 σ'.
Proof.
  intros Hl1 Hk. unfold match_graphs_st.
  destruct (_ <=? _)%nat; [|intros H; injection H as <- <-; exact Hk].
  destruct (choose_graph_pair _ _ _ _ _ _); try (intros H; injection H as <- <-; exact Hk).
  destruct count; [|intros H; injection H as <- <-; exact Hk].
  destruct (count_loop_st _ _ _ _ _ _ _ _ _ _) as [[c σ'']|] eqn:Hloop; [|discriminate].
  intros H. injection H as <- <-. eapply count_loop_st_keeps; eauto.
Qed.

(** C6. A call of [subgraph_isomorphism] leaves every graph object that
    existed before the call as it was, the caller's graph among them: the
    nodes removed between two matches are removed from the copy the call
    made for itself. *)
Theorem caller_graph_untouched (fuel : nat) (glycan : glycan_ref) (motif : string)
    (libr : list string) (extra : string) (wildcard_list termini_list : list string)
    (count : bool) (σ σ' : store) (r : result pyret) :
  subgraph_isomorphism_st fuel glycan motif libr extra wildcard_list termini_list count σ
  = Some (r, σ') ->
  forall l g, σ !! l = Some g -> σ' !! l = Some g.
Proof.
  intros H l g Hg. enough (keeps σ σ') as Hk.
  { rewrite Hk; [exact Hg|]. now apply lookup_lt_Some in Hg. }
  clear l g Hg. revert H. unfold subgraph_isomorphism_st.
  destruct (index_wildcards libr wildcard_list) as [wl|e];
    [|intros H; injection H as <- <-; apply keeps_refl].
  set (built := match glycan with RString _ => _ | RGraph _ => _ end).
  assert (Hbuilt : forall l1 σ1, built = Ok (l1, σ1) ->
            l1 = length σ /\ length σ1 = S (length σ) /\ keeps σ σ1).
  { subst built. intros l1 σ1. destruct glycan as [s|l].
    - destruct (glycan_to_nxGraph s libr _ None false) as [g1|e]; [|discriminate].
      simpl. intros H. injection H as <- <-. repeat split.
      + rewrite length_app. simpl. lia.
      + apply (keeps_alloc σ σ g1); [apply keeps_refl|lia].
    - intros H. injection H as <- <-. repeat split.
      + unfold deepcopy, alloc. simpl. rewrite length_app. simpl. lia.
      + apply (keeps_alloc σ σ); [apply keeps_refl|lia]. }
  destruct built as [[l1 σ1]|e]; [|intros H; injection H as <- <-; apply keeps_refl].
  destruct (Hbuilt l1 σ1 eq_refl) as (-> & Hlen & Hk1).
  destruct (glycan_to_nxGraph motif libr _ _ true) as [g2|e];
    [|intros H; injection H as <- <-; exact Hk1].
  simpl. intros H. eapply match_graphs_st_keeps in H; eauto.
  apply (keeps_alloc σ σ1 g2); [exact Hk1|lia].
Qed.

(** On a store with one graph, counting the motif twice in it. *)
Lemma caller_graph_untouched_witness :
  let g := [mk_nx_node 0 (mk_node_data (Some 0) (Some "Gal") None) [1];
            mk_nx_node 1 (mk_node_data (Some 12) (Some "b1-4") None) [0; 2];
            mk_nx_node 2 (mk_node_data (Some 0) (Some "Gal") None) [1]] in
  exists σ',
    subgraph_isomorphism_st 5 (RGraph 0%nat) "Gal" sample_lib "ignore" [] [] true [g]
    = Some (Ok (RInt 2), σ')
    /\ σ' !! 0%nat = Some g.
Proof.
  intros g. eexists. split.
  - vm_compute. reflexivity.
  - eapply (caller_graph_untouched 5 (RGraph 0%nat) "Gal" sample_lib "ignore" [] [] true [g]).
    + vm_compute. reflexivity.
    + reflexivity.
Defined.

(** Over the store the call returns what it returns on graph values. *)
Lemma subgraph_isomorphism_st_refines fuel glycan motif libr extra wildcard_list
    termini_list count σ :
  fst <$> subgraph_isomorphism_st fuel glycan motif libr extra wildcard_list
            termini_list count σ
  = subgraph_isomorphism fuel
      (match glycan with RString s => GString s | RGraph l => GGraph (read σ l) end)
      motif libr extra wildcard_list termini_list count.
Proof.
  unfold subgraph_isomorphism_st, subgraph_isomorphism.
  destruct (index_wildcards libr wildcard_list) as [wl|e]; [|reflexivity].
  assert (Hmg : forall (l1 : loc) σ1 g1 g2,
            read σ1 l1 = g1 -> (l1 < length σ1)%nat -> l1 <> length σ1 ->
            fst <$> match_graphs_st fuel libr extra wl (tokenize motif) count l1
                      (fst (alloc g2 σ1)) (snd (alloc g2 σ1))
            = match_graphs fuel libr extra wl (tokenize motif) count g1 g2).
  { intros l1 σ1 g1 g2 Hr Hlt Hne. unfold match_graphs_st, match_graphs.
    rewrite read_alloc_new, read_alloc_old, Hr by assumption.
    destruct (_ <=? _)%nat; [|reflexivity].
    destruct (choose_graph_pair _ _ _ _ _ _) as [gp| |] eqn:Hc; try reflexivity.
    destruct count; [|reflexivity].
    apply choose_graph_pair_graphs in Hc as [H1 H2].
    pose proof (count_loop_st_refines libr extra wl (tokenize motif) l1
                  (fst (alloc g2 σ1)) Hne fuel (node_match gp) 0 (snd (alloc g2 σ1))) as Href.
    rewrite read_alloc_new, read_alloc_old, Hr in Href by assumption.
    replace (mk_GraphMatcher g1 g2 (node_match gp)) with gp in Href
      by (destruct gp; simpl in *; now subst).
    rewrite <- Href; [|unfold alloc; simpl; rewrite length_app; simpl; lia].
    now destruct (count_loop_st _ _ _ _ _ _ _ _ _ _) as [[c σ'']|]. }
  destruct glycan as [s|l]; unfold matcher_graphs.
  - destruct (str_eqb extra "termini");
      (destruct (glycan_to_nxGraph s libr _ None false) as [g1|e]; [|reflexivity]);
      simpl;
      (destruct (glycan_to_nxGraph motif libr _ _ true) as [g2|e]; [|reflexivity]);
      simpl; apply (Hmg (length σ) (σ ++ [g1]) g1 g2);
      try (rewrite length_app; simpl; lia);
      apply (read_alloc_new σ g1).
  - simpl.
    destruct (str_eqb extra "termini");
      (destruct (glycan_to_nxGraph motif libr _ _ true) as [g2|e]; [|reflexivity]);
      simpl; apply (Hmg (length σ) (σ ++ [read σ l]) (read σ l) g2);
      try (rewrite length_app; simpl; lia);
      apply (read_alloc_new σ (read σ l)).
Qed.

(** ** Topology enumeration *)

Lemma find_node_in G n : In n (nx.nodes G) -> exists x, nx.find_node G n = Some x.
Proof.
  induction G as [|y G IH]; intros H; [destruct H|]. simpl.
  destruct (Z.eqb_spec (n_id y) n) as [|Hne]; [eauto|].
  destruct H as [H|H]; [contradiction|auto].
Qed.

Lemma degree_in G n : In n (nx.nodes G) -> exists d, nx.degree G n = Ok d.
Proof.
  intros H. unfold nx.degree. destruct (find_node_in G n H) as [x ->]. eauto.
Qed.

Lemma py_max_Z_highest G k : In k (nx.nodes G) -> py_max_Z (nx.nodes G) = Ok (highest G).
Proof.
  unfold highest. destruct (nx.nodes G); [intros []|reflexivity].
Qed.

Lemma nodes_subgraph G ns :
  nx.nodes (nx.subgraph G ns) = List.filter (fun k => Z_in k ns) (nx.nodes G).
Proof.
  unfold nx.subgraph, nx.nodes. rewrite map_map. simpl.
  induction G as [|x G IH]; simpl; [reflexivity|].
  destruct (Z_in (n_id x) ns); simpl; now rewrite IH.
Qed.

Lemma bfs_keeps_seen G : forall fuel seen frontier,
  incl seen (nx.bfs fuel G seen frontier).
Proof.
  induction fuel as [|fuel IH]; intros seen frontier; simpl; [apply incl_refl|].
  destruct (nx.add_unseen seen _) as [|c next]; [apply incl_refl|].
  intros x Hx. apply IH. apply in_or_app. now left.
Qed.

Lemma plain_bfs_source G v : In v (nx.plain_bfs G v).
Proof. apply (bfs_keeps_seen G (length G) [v] [v]). now left. Qed.

Lemma components_from_sources G : forall todo seen c,
  In c (nx.components_from G todo seen) ->
  exists v, In v todo /\ c = nx.plain_bfs G v.
Proof.
  induction todo as [|v todo IH]; intros seen c H; simpl in H; [destruct H|].
  destruct (Z_in v seen).
  - destruct (IH _ _ H) as (w & Hw & ->). exists w. split; [now right|reflexivity].
  - destruct H as [<-|H].
    + exists v. split; [now left|reflexivity].
    + destruct (IH _ _ H) as (w & Hw & ->). exists w. split; [now right|reflexivity].
Qed.

(** Every connected component gives a part with at least one node. *)
Lemma component_part_nonempty G c :
  In c (nx.connected_components G) ->
  exists k, In k (nx.nodes (nx.subgraph G c)).
Proof.
  intros H. apply components_from_sources in H as (v & Hv & ->).
  exists v. rewrite nodes_subgraph. apply filter_In. split; [exact Hv|].
  apply Z_in_spec, plain_bfs_source.
Qed.

Lemma topologies_loop_leaves ggraph first_part last_part :
  (exists k, In k (nx.nodes first_part)) ->
  forall ks, incl ks (nx.nodes last_part) ->
    topologies_loop ggraph first_part last_part ks
    = Ok (map (fun k => renumbered (nx.add_edge ggraph (highest first_part) k))
            (List.filter
               (fun k => is_leaf last_part k && negb (k =? highest last_part)) ks)).
Proof.
  intros [k0 Hk0] ks. induction ks as [|k ks IH]; intros Hin; [reflexivity|].
  assert (Hk : In k (nx.nodes last_part)) by (apply Hin; now left).
  assert (Hin' : incl ks (nx.nodes last_part)) by (intros x Hx; apply Hin; now right).
  simpl. unfold is_leaf.
  destruct (degree_in _ _ Hk) as [d ->]. simpl.
  rewrite (py_max_Z_highest _ _ Hk). simpl.
  destruct ((d =? 1) && negb (k =? highest last_part)).
  - unfold attach. rewrite (py_max_Z_highest _ _ Hk0). simpl.
    rewrite (IH Hin'). reflexivity.
  - apply (IH Hin').
Qed.



(** ** Relabelling *)

Lemma nodup_Z_go_spec l : forall seen,
  (fix go (l seen : list Z) : bool :=
     match l with
     | [] => true
     | x :: l' => negb (Z_in x seen) && go l' (x :: seen)
     end) l seen = true ->
  NoDup l /\ forall x, In x l -> ~ In x seen.
Proof.
  induction l as [|a l IH]; intros seen H.
  - split; [constructor|intros x []].
  - apply andb_true_iff in H as [Ha H]. apply negb_true_iff, Z_in_false in Ha.
    destruct (IH _ H) as [Hnd Hfresh]. split.
    + constructor; [|exact Hnd]. intros Hin. apply list_elem_of_In in Hin.
      apply (Hfresh a Hin). now left.
    + intros x [<-|Hx]; [exact Ha|]. intros Hs. apply (Hfresh x Hx). now right.
Qed.

Lemma nodup_Z_spec l : nodup_Z l = true -> NoDup l.
Proof. intros H. now apply (nodup_Z_go_spec l []). Qed.

Lemma has_node_spec G n : nx.has_node G n = true <-> In n (nx.nodes G).
Proof. apply Z_in_spec. Qed.

Lemma well_formed_closed G : well_formed G = true -> closed_graph G.
Proof.
  unfold well_formed. intros H. apply andb_true_iff in H as [Hnd Hadj]. split.
  - now apply nodup_Z_spec.
  - intros x v Hx Hv. rewrite forallb_forall in Hadj.
    specialize (Hadj x Hx). apply andb_true_iff in Hadj as [_ Hadj].
    rewrite forallb_forall in Hadj. specialize (Hadj v Hv).
    apply andb_true_iff in Hadj as [Hn _]. now apply has_node_spec.
Qed.


Lemma nodes_add_node_new G n :
  ~ In n (nx.nodes G) -> nx.nodes (nx.add_node G n) = nx.nodes G ++ [n].
Proof.
  intros H. unfold nx.add_node.
  destruct (nx.has_node G n) eqn:Hn; [apply has_node_spec in Hn; contradiction|].
  unfold nx.nodes. now rewrite map_app.
Qed.

Lemma nodes_add_node_old G n :
  In n (nx.nodes G) -> nx.add_node G n = G.
Proof.
  intros H. unfold nx.add_node. apply has_node_spec in H. now rewrite H.
Qed.

Lemma nodes_add_nodes_from ns : forall G,
  NoDup (nx.nodes G ++ ns) ->
  nx.nodes (nx.add_nodes_from G ns) = nx.nodes G ++ ns.
Proof.
  unfold nx.add_nodes_from.
  induction ns as [|n ns IH]; intros G Hnd; simpl.
  - now rewrite app_nil_r.
  - assert (Hn : ~ In n (nx.nodes G)).
    { apply NoDup_app in Hnd as (_ & Hdisj & _). intros Hin.
      apply (Hdisj n); [now apply list_elem_of_In|]. left. }
    rewrite IH; rewrite nodes_add_node_new by exact Hn.
    + now rewrite <- app_assoc.
    + now rewrite <- app_assoc.
Qed.

Lemma nodes_update_node f n G :
  (forall x, n_id (f x) = n_id x) ->
  nx.nodes (nx.update_node f n G) = nx.nodes G.
Proof.
  intros Hf. unfold nx.update_node, nx.nodes. rewrite map_map.
  apply map_ext. intros x. destruct (n_id x =? n); [apply Hf|reflexivity].
Qed.

Lemma n_id_add_neighbour v x : n_id (nx.add_neighbour v x) = n_id x.
Proof. unfold nx.add_neighbour. now destruct (Z_in v (n_adj x)). Qed.

Lemma nodes_add_edge G u v :
  In u (nx.nodes G) -> In v (nx.nodes G) ->
  nx.nodes (nx.add_edge G u v) = nx.nodes G.
Proof.
  intros Hu Hv. unfold nx.add_edge.
  rewrite !nodes_update_node by apply n_id_add_neighbour.
  rewrite (nodes_add_node_old G u Hu). now rewrite (nodes_add_node_old G v Hv).
Qed.

Lemma nodes_add_edges_from es : forall G,
  (forall e, In e es -> In (fst e) (nx.nodes G) /\ In (snd e) (nx.nodes G)) ->
  nx.nodes (nx.add_edges_from G es) = nx.nodes G.
Proof.
  unfold nx.add_edges_from.
  induction es as [|e es IH]; intros G H; simpl; [reflexivity|].
  destruct (H e) as [Hu Hv]; [now left|].
  rewrite IH; rewrite nodes_add_edge by assumption; [reflexivity|].
  intros e' He'. apply H. now right.
Qed.

Lemma edges_from_endpoints (N : list Z) : forall G seen e,
  (forall x, In x G -> In (n_id x) N /\ forall v, In v (n_adj x) -> In v N) ->
  In e (nx.edges_from G seen) -> In (fst e) N /\ In (snd e) N.
Proof.
  induction G as [|x G IH]; intros seen e H He; simpl in He; [destruct He|].
  apply in_app_or in He as [He|He].
  - apply in_map_iff in He as (nbr & <- & Hnbr). apply filter_In in Hnbr as [Hnbr _].
    destruct (H x) as [Hx Hadj]; [now left|]. simpl. auto.
  - eapply IH; [|exact He]. intros y Hy. apply H. now right.
Qed.

Lemma edges_endpoints G e :
  closed_graph G -> In e (nx.edges G) ->
  In (fst e) (nx.nodes G) /\ In (snd e) (nx.nodes G).
Proof.
  intros [_ Hadj] He. eapply edges_from_endpoints; [|exact He].
  intros x Hx. split; [unfold nx.nodes; now apply in_map|].
  intros v Hv. eapply Hadj; eauto.
Qed.

(** Relabelling a closed graph by a mapping that keeps the nodes apart
    lists the images of the nodes, in the order of the nodes. *)
Lemma nodes_relabel_nodes G mapping :
  closed_graph G ->
  NoDup (map (nx.mapping_get mapping) (nx.nodes G)) ->
  nx.nodes (nx.relabel_nodes G mapping) = map (nx.mapping_get mapping) (nx.nodes G).
Proof.
  intros Hc Hnd. unfold nx.relabel_nodes.
  set (H0 := nx.add_nodes_from nx.Graph _).
  assert (HH0 : nx.nodes H0 = map (nx.mapping_get mapping) (nx.nodes G)).
  { subst H0. now rewrite nodes_add_nodes_from. }
  set (H1 := foldl _ H0 G).
  assert (HH1 : nx.nodes H1 = nx.nodes H0).
  { subst H1. generalize H0. clear. induction G as [|x G' IH]; intros H; simpl; [reflexivity|].
    rewrite IH. now apply nodes_update_node. }
  rewrite nodes_add_edges_from; [congruence|].
  intros e He. apply in_map_iff in He as (e' & <- & He'). simpl.
  rewrite HH1, HH0. apply (edges_endpoints G e' Hc) in He' as [Hu Hv].
  split; now apply in_map.
Qed.

(** ** The common subgraph handed to the serializer *)








(** ** Occurrences under different predicates *)

Lemma completes_mono GM GM' todo core m :
  G1 GM' = G1 GM -> G2 GM' = G2 GM ->
  (forall u v, In u (G1 GM) -> In v todo ->
     semantic_feasibility GM u v = Ok true -> semantic_feasibility GM' u v = Ok true) ->
  completes GM todo core m -> completes GM' todo core m.
Proof.
  intros H1 H2 Hsem H.
  induction H as [core|v todo core u m Hu Hused Hsyn Hnm H IH].
  - constructor.
  - eapply completes_step.
    + rewrite H1. exact Hu.
    + exact Hused.
    + unfold syntactic_feasibility in *. rewrite H1, H2. exact Hsyn.
    + apply Hsem; [exact Hu|now left|exact Hnm].
    + apply IH. intros u' v' Hu' Hv'. apply Hsem; [exact Hu'|now right].
Qed.

(** A completed mapping pairs distinct nodes of the host. *)
Lemma completes_injective GM todo core m :
  completes GM todo core m ->
  NoDup (map fst core) ->
  (forall p, In p core -> In (fst p) (nx.nodes (G1 GM))) ->
  NoDup (map fst m) /\ (forall p, In p m -> In (fst p) (nx.nodes (G1 GM))).
Proof.
  induction 1 as [core|v todo core u m Hu Hused Hsyn Hnm H IH]; intros Hnd Hin.
  - auto.
  - apply IH.
    + simpl. apply NoDup_cons. split; [|exact Hnd].
      rewrite list_elem_of_In. now apply Z_in_false.
    + intros p [<-|Hp]; [|auto]. simpl. unfold nx.nodes. now apply in_map.
Qed.

(** An occurrence needs a host with at least as many nodes as the motif. *)
Lemma occurrence_length g1 g2 nm m :
  occurrence g1 g2 nm m -> (length g2 <= length g1)%nat.
Proof.
  intros H. unfold occurrence in H.
  pose proof (completes_length _ _ _ _ H) as Hlen. simpl in Hlen.
  destruct (completes_injective _ _ _ _ H) as [Hnd Hin]; [constructor|intros p []|].
  simpl in Hin.
  assert (length (map fst m) <= length (nx.nodes g1))%nat as Hle.
  { apply submseteq_length, NoDup_submseteq; [exact Hnd|].
    intros x Hx. apply list_elem_of_In. apply list_elem_of_In in Hx.
    apply in_map_iff in Hx as (p & <- & Hp). now apply Hin. }
  rewrite length_map in Hle. unfold nx.nodes in Hle. rewrite length_map in Hle. lia.
Qed.

Lemma labelled_spec G x :
  labelled G = true -> In x G -> exists s, attr_string_labels (n_data x) = Some s.
Proof.
  unfold labelled. rewrite forallb_forall. intros H Hx. specialize (H x Hx).
  destruct (attr_string_labels (n_data x)); [eauto|discriminate].
Qed.

(** On labelled graphs the wildcard predicate answers, and it accepts
    every pair the exact predicate accepts. *)
Lemma wildcard_answers g1 g2 default wl :
  labelled g1 = true -> labelled g2 = true ->
  answers g1 g2 (categorical_node_match_wildcard default wl).
Proof.
  intros H1 H2 u v Hu Hv. unfold categorical_node_match_wildcard.
  destruct (labelled_spec _ _ H1 Hu) as [s1 ->].
  destruct (labelled_spec _ _ H2 Hv) as [s2 ->].
  destruct (pyval_in _ wl); [eauto|]. destruct (pyval_in _ wl); eauto.
Qed.

Lemma wildcard_accepts_exact default wl d1 d2 s1 s2 :
  attr_string_labels d1 = Some s1 -> attr_string_labels d2 = Some s2 ->
  categorical_node_match default d1 d2 = Ok true ->
  categorical_node_match_wildcard default wl d1 d2 = Ok true.
Proof.
  intros H1 H2 H. unfold categorical_node_match_wildcard. rewrite H1, H2.
  destruct (pyval_in _ wl); [reflexivity|]. destruct (pyval_in _ wl); [reflexivity|].
  exact H.
Qed.

(** C3. In the mode ['wildcards'] with [count=False], for a labelled host
    graph and a motif whose graph is labelled, [subgraph_isomorphism]
    returns [True] whenever the motif occurs in the host with its own
    labels, whatever the wildcard list; and it returns [True] only if the
    host holds an induced subgraph of the shape of the motif. A host with
    as many nodes as the motif is not enough. *)
Theorem wildcards_need_the_topology (fuel : nat) (host : nxGraph) (motif : string)
    (libr : list string) (wildcard_list : list string) (wl : list pyval) (g2 : nxGraph) :
  index_wildcards libr wildcard_list = Ok wl ->
  glycan_to_nxGraph motif libr "ignore" None true = Ok g2 ->
  labelled host = true ->
  labelled g2 = true ->
  ((exists m, occurrence host g2 (categorical_node_match (Z.of_nat (length libr))) m) ->
   subgraph_isomorphism fuel (GGraph host) motif libr "wildcards" wildcard_list [] false
   = Some (Ok (RBool true)))
  /\ (subgraph_isomorphism fuel (GGraph host) motif libr "wildcards" wildcard_list [] false
      = Some (Ok (RBool true)) ->
      exists m, occurrence host g2 any_label m).
Proof.
  intros Hw Hg2 Hl1 Hl2.
  unfold subgraph_isomorphism. rewrite Hw. unfold matcher_graphs.
  change (str_eqb "wildcards" "termini") with false. cbv iota.
  rewrite Hg2. simpl. unfold match_graphs, choose_graph_pair.
  change (str_eqb "wildcards" "ignore") with false.
  change (str_eqb "wildcards" "wildcards") with true. cbv iota.
  set (GMw := mk_GraphMatcher host g2
                (categorical_node_match_wildcard (Z.of_nat (length libr)) wl)).
  split.
  - intros [m Hm].
    pose proof (occurrence_length _ _ _ _ Hm) as Hlen. unfold occurrence in Hm.
    unfold nx.nodes. rewrite !length_map.
    apply Nat.leb_le in Hlen. rewrite Hlen.
    assert (Hm' : completes GMw g2 [] m).
    { apply completes_mono
        with (GM := mk_GraphMatcher host g2
                      (categorical_node_match (Z.of_nat (length libr))));
        [reflexivity|reflexivity| |exact Hm].
      intros u v Hu Hv. unfold semantic_feasibility. simpl.
      destruct (labelled_spec _ _ Hl1 Hu) as [s1 Hs1].
      destruct (labelled_spec _ _ Hl2 Hv) as [s2 Hs2].
      now apply wildcard_accepts_exact with (s1 := s1) (s2 := s2). }
    destruct (match_nodes_complete GMw g2) with (core := @nil (Z * Z)) (m := m)
      as [m' Hfound]; [|exact Hm'|].
    + intros u v Hu Hv. now apply (wildcard_answers host g2).
    + unfold subgraph_is_isomorphic. simpl G2. rewrite Hfound. reflexivity.
  - destruct (_ <=? _)%nat; [|discriminate].
    destruct (subgraph_is_isomorphic GMw) as [[m|]|e] eqn:Hfound; try discriminate.
    intros _. exists m. apply match_nodes_sound in Hfound.
    apply completes_mono with (GM := GMw); [reflexivity|reflexivity| |exact Hfound].
    reflexivity.
Qed.

(** The motif ["Gal(b1-4)GlcNAc"] occurs in ["Gal(b1-4)GlcNAc(b1-2)Man"]. *)
Lemma wildcards_need_the_topology_witness :
  exists host g2,
    glycan_to_nxGraph "Gal(b1-4)GlcNAc(b1-2)Man" sample_lib "ignore" None false = Ok host
    /\ glycan_to_nxGraph "Gal(b1-4)GlcNAc" sample_lib "ignore" None true = Ok g2
    /\ index_wildcards sample_lib ["Hex"] = Ok [PyInt 5]
    /\ labelled host = true
    /\ labelled g2 = true
    /\ occurrence host g2 (categorical_node_match (Z.of_nat (length sample_lib)))
         [(2, 2); (1, 1); (0, 0)]
    /\ subgraph_isomorphism 1 (GGraph host) "Gal(b1-4)GlcNAc" sample_lib
         "wildcards" ["Hex"] [] false = Some (Ok (RBool true)).
Proof.
  do 2 eexists.
  split; [vm_compute; reflexivity|].
  split; [vm_compute; reflexivity|].
  split; [vm_compute; reflexivity|].
  split; [vm_compute; reflexivity|].
  split; [vm_compute; reflexivity|].
  split; [apply match_nodes_sound; vm_compute; reflexivity|].
  eapply wildcards_need_the_topology;
    [vm_compute; reflexivity | vm_compute; reflexivity
    | vm_compute; reflexivity | vm_compute; reflexivity |].
  eexists. apply match_nodes_sound. vm_compute. reflexivity.
Defined.

(** The claim as it stands fails: the host is a chain of seven nodes, the
    motif has seven nodes and a branch, and the wildcard list holds every
    glycoletter of the motif; no node of the chain has three neighbours,
    and the answer is [False]. *)
Lemma wildcards_do_not_bend_chains :
  (fmap (@length nx_node))
    (glycan_to_nxGraph "Man(a1-2)Man(a1-2)Man(a1-2)Man" sample_lib "ignore" None false)
  = Ok 7%nat
  /\ (fmap (@length nx_node))
       (glycan_to_nxGraph "Man(a1-2)[Man(a1-2)]Man(a1-2)Man" sample_lib "ignore" None true)
     = Ok 7%nat
  /\ forallb (fun k => str_in k ["Man"; "a1-2"])
       (tokenize "Man(a1-2)[Man(a1-2)]Man(a1-2)Man") = true
  /\ subgraph_isomorphism 1 (GString "Man(a1-2)Man(a1-2)Man(a1-2)Man")
       "Man(a1-2)[Man(a1-2)]Man(a1-2)Man" sample_lib "wildcards" ["Man"; "a1-2"] [] false
     = Some (Ok (RBool false)).
Proof. by_evaluation. Qed.

(** ** The nodes of a parsed graph *)

Lemma result_mapM_Forall2 {A B} (f : A -> result B) l : forall l',
  result_mapM f l = Ok l' -> Forall2 (fun x y => f x = Ok y) l l'.
Proof.
  induction l as [|x l IH]; intros l' H; simpl in H.
  - injection H as <-. constructor.
  - destruct (f x) as [y|e] eqn:Hy; [|discriminate]. simpl in H.
    destruct (result_mapM f l) as [ys|e]; [|discriminate]. simpl in H.
    injection H as <-. constructor; auto.
Qed.

Lemma Forall2_In_r {A B} (P : A -> B -> Prop) l l' y :
  Forall2 P l l' -> In y l' -> exists x, In x l /\ P x y.
Proof.
  induction 1 as [|x y' l l' Hxy _ IH]; intros Hy; [destruct Hy|].
  destruct Hy as [<-|Hy].
  - exists x. split; [now left|exact Hxy].
  - destruct (IH Hy) as (x' & Hx' & HP). exists x'. split; [now right|exact HP].
Qed.

Lemma result_mapM_length {A B} (f : A -> result B) l l' :
  result_mapM f l = Ok l' -> length l' = length l.
Proof.
  intros H. apply result_mapM_Forall2 in H. symmetry. eapply Forall2_length, H.
Qed.

Lemma enumerate_In {A} (l : list A) i x :
  In (i, x) (enumerate l) -> (i < length l)%nat /\ In x l.
Proof.
  unfold enumerate, range. intros H. split.
  - apply in_combine_l in H. apply in_seq in H. lia.
  - now apply in_combine_r in H.
Qed.

Lemma nonzero_in_range (A : list (list Z)) n e :
  length A = n -> (forall row, In row A -> length row = n) ->
  In e (nx.nonzero A) ->
  In (fst e) (map Z.of_nat (range n)) /\ In (snd e) (map Z.of_nat (range n)).
Proof.
  intros Hlen Hrows He. unfold nx.nonzero in He.
  apply in_flat_map in He as ([i row] & Hrow & He).
  apply in_flat_map in He as ([j cell] & Hcell & He).
  simpl in Hcell, He.
  apply enumerate_In in Hrow as [Hi Hrow]. apply enumerate_In in Hcell as [Hj _]. destruct (cell =? 0); [destruct He|]. destruct He as [<-|[]].
  rewrite (Hrows row Hrow) in Hj. rewrite Hlen in Hi. simpl.
  split; apply in_map, in_seq; lia.
Qed.

Lemma NoDup_range_Z n : NoDup (map Z.of_nat (range n)).
Proof.
  apply NoDup_fmap_2; [intros a b; lia|]. apply NoDup_ListNoDup, seq_NoDup.
Qed.

Lemma nodes_from_numpy_matrix (A : list (list Z)) :
  (forall row, In row A -> length row = length A) ->
  nx.nodes (nx.from_numpy_matrix A) = map Z.of_nat (range (length A)).
Proof.
  intros Hrows. unfold nx.from_numpy_matrix.
  assert (H0 : nx.nodes (nx.add_nodes_from nx.Graph (map Z.of_nat (range (length A))))
               = map Z.of_nat (range (length A))).
  { rewrite nodes_add_nodes_from; [reflexivity|]. apply NoDup_range_Z. }
  rewrite nodes_add_edges_from; [exact H0|].
  intros e He. rewrite H0. eapply nonzero_in_range; eauto.
Qed.

Lemma nodes_set_node_attributes {V} (set : V -> nx_node -> nx_node) values :
  (forall v x, n_id (set v x) = n_id x) ->
  forall G, nx.nodes (nx.set_node_attributes set G values) = nx.nodes G.
Proof.
  intros Hset. unfold nx.set_node_attributes.
  induction values as [|kv values IH]; intros G; simpl; [reflexivity|].
  rewrite IH. apply nodes_update_node. intros x. apply Hset.
Qed.

Lemma glycan_to_graph_square glycan node_dict adj_matrix :
  glycan_to_graph glycan = Ok (node_dict, adj_matrix) ->
  length adj_matrix = length node_dict
  /\ forall row, In row adj_matrix -> length row = length adj_matrix.
Proof.
  unfold glycan_to_graph.
  destruct (result_mapM _ (range (length (tokenize glycan)))) as [A|e] eqn:HA;
    [|discriminate].
  simpl. intros H. injection H as <- <-.
  pose proof (result_mapM_length _ _ _ HA) as Hlen.
  unfold range in Hlen. rewrite length_seq in Hlen.
  split; [exact Hlen|]. intros row Hrow.
  apply result_mapM_Forall2 in HA.
  destruct (Forall2_In_r _ _ _ _ HA Hrow) as (k & _ & Hk).
  apply result_mapM_length in Hk. unfold range in Hk. rewrite length_seq in Hk. lia.
Qed.

(** A notation parsed without the override flag and without annotation
    gives a graph whose node ids are distinct. *)
Lemma parsed_nodes_distinct glycan libr g :
  glycan_to_nxGraph_int glycan libr "ignore" None false = Ok g ->
  NoDup (nx.nodes g).
Proof.
  unfold glycan_to_nxGraph_int. simpl.
  destruct (glycan_to_graph glycan) as [[node_dict adj_matrix]|e] eqn:Hg; [|discriminate].
  simpl. destruct (string_to_labels node_dict libr) as [labels|e]; [|discriminate].
  simpl. intros H. injection H as <-.
  rewrite !nodes_set_node_attributes by reflexivity.
  destruct (glycan_to_graph_square _ _ _ Hg) as [Hlen Hrows].
  destruct (1 <? length node_dict)%nat.
  - rewrite nodes_from_numpy_matrix by exact Hrows. apply NoDup_range_Z.
  - simpl. apply NoDup_singleton.
Qed.

(** ** A graph equals itself *)

Lemma identity_pairs_snoc l v :
  identity_pairs (l ++ [v]) = (n_id v, n_id v) :: identity_pairs l.
Proof. unfold identity_pairs. rewrite map_app, rev_app_distr. reflexivity. Qed.

Lemma identity_pairs_fst l : map fst (identity_pairs l) = rev (nx.nodes l).
Proof.
  unfold identity_pairs, nx.nodes. rewrite map_rev, map_map. reflexivity.
Qed.

Lemma completes_identity G default : 
  NoDup (nx.nodes G) ->
  forall todo done, G = done ++ todo ->
    completes (mk_GraphMatcher G G (categorical_node_match default)) todo
      (identity_pairs done) (identity_pairs G).
Proof.
  intros Hnd. induction todo as [|v todo IH]; intros done HG.
  - rewrite app_nil_r in HG. subst. constructor.
  - eapply completes_step with (u := v).
    + simpl. rewrite HG. apply in_or_app. right. now left.
    + apply Z_in_false. rewrite identity_pairs_fst. rewrite <- in_rev. intros Hin.
      rewrite HG in Hnd. unfold nx.nodes in Hnd. rewrite map_app in Hnd.
      apply NoDup_app in Hnd as (_ & Hdisj & _).
      apply (Hdisj (n_id v)); [now apply list_elem_of_In|]. simpl. left.
    + unfold syntactic_feasibility. simpl. rewrite eqb_reflx. simpl.
      apply forallb_forall. intros p Hp. unfold identity_pairs in Hp.
      apply in_rev, in_map_iff in Hp as (w & <- & _). simpl.
      now rewrite !eqb_reflx.
    + unfold semantic_feasibility, categorical_node_match. simpl.
      now rewrite Z.eqb_refl.
    + rewrite <- identity_pairs_snoc. apply IH. now rewrite <- app_assoc.
Qed.

Lemma list_Z_eqb_refl l : list_Z_eqb l l = true.
Proof.
  unfold list_Z_eqb. rewrite Nat.eqb_refl. simpl.
  induction l as [|x l IH]; simpl; [reflexivity|]. now rewrite Z.eqb_refl.
Qed.

Lemma list_ascii_eqb_refl l : list_ascii_eqb l l = true.
Proof.
  unfold list_ascii_eqb. rewrite Nat.eqb_refl. simpl.
  induction l as [|x l IH]; simpl; [reflexivity|]. now rewrite Ascii.eqb_refl.
Qed.

(** [compare_glycans] holds between a graph with distinct node ids and
    itself. *)
Lemma compare_glycans_refl g libr :
  NoDup (nx.nodes g) ->
  compare_glycans (GGraph g) (GGraph g) libr false [] = Ok true.
Proof.
  intros Hnd. unfold compare_glycans. simpl. rewrite Nat.eqb_refl.
  rewrite list_ascii_eqb_refl.
  unfold nx_is_isomorphic, is_isomorphic_gm. simpl.
  rewrite Nat.eqb_refl, list_Z_eqb_refl. simpl.
  set (GM := mk_GraphMatcher g g (categorical_node_match (Z.of_nat (length libr)))).
  destruct (match_nodes_complete GM g) with (core := @nil (Z * Z)) (m := identity_pairs g)
    as [m Hm].
  - intros u v _ _. unfold semantic_feasibility. simpl. eauto.
  - apply (completes_identity g _ Hnd g []). reflexivity.
  - unfold subgraph_is_isomorphic. simpl G2. now rewrite Hm.
Qed.

(** ** Round trip *)






(** Chains, a branch, a branch within a branch and two branches side by
    side are written back as they were read. *)
Lemma round_trip_examples :
  Forall (fun s => round_trip [] sample_lib s = Ok true)
    ["Gal";
     "Gal(b1-4)Glc";
     "Neu5Ac(a2-3)Gal(b1-4)GlcNAc(b1-2)Man";
     "Gal(b1-4)[Fuc(a1-3)]GlcNAc";
     "Man(a1-3)[Man(a1-6)]Man(b1-4)GlcNAc(b1-4)GlcNAc";
     "Man(a1-2)[Man(a1-3)[Man(a1-6)]Man(b1-4)]Man";
     "Fuc(a1-2)[Gal(a1-3)][Fuc(a1-6)]Gal";
     "GlcNAc(b1-2)Man(a1-3)[GlcNAc(b1-4)][GlcNAc(b1-2)Man(a1-6)]Man(b1-4)GlcNAc"].
Proof. repeat (constructor; [vm_compute; reflexivity|]). constructor. Qed.


(** The second of two side branches must be unbranched: with a branch in
    it, the string written closes the first side branch too late, and the
    graph parsed from it joins the first side branch to the wrong residue. *)
Lemma round_trip_loses_branched_second_branch :
  let s := "Gal(a1-2)[Glc(a1-3)][GlcNAc(a1-4)[GalNAc(a1-6)]Man(a2-3)]Fuc" in
  (exists g,
     glycan_to_nxGraph s glycoletters "ignore" None false = Ok g
     /\ graph_to_string [] g false glycoletters
        = Ok "Gal(a1-2)[Glc(a1-3)[GlcNAc(a1-4)][GalNAc(a1-6)]Man(a2-3)]Fuc")
  /\ round_trip [] glycoletters s = Ok false.
Proof.
  intros s. split; [eexists; by_evaluation|].
  vm_compute. reflexivity.
Qed.

(** * Further properties of the module *)

(** ** The registry *)

Lemma list_index_spec libr : forall c i,
  list_index c libr = Ok i ->
  0 <= i /\ libr !! Z.to_nat i = Some c
  /\ forall j, (j < Z.to_nat i)%nat -> libr !! j <> Some c.
Proof.
  induction libr as [|y libr IH]; intros c i H; simpl in H; [discriminate|].
  destruct (str_eqb c y) eqn:Hy.
  - injection H as <-. apply String.eqb_eq in Hy. subst. repeat split; [lia|].
    intros j Hj. simpl in Hj. lia.
  - destruct (list_index c libr) as [i'|e] eqn:Hi; [|discriminate].
    simpl in H. injection H as <-. destruct (IH _ _ Hi) as (H0 & Hl & Hfirst).
    replace (Z.to_nat (Z.succ i')) with (S (Z.to_nat i')) by lia.
    repeat split; [lia|exact Hl|].
    intros [|j] Hj; simpl.
    + intros [= ->]. unfold str_eqb in Hy. now rewrite String.eqb_refl in Hy.
    + apply Hfirst. lia.
Qed.

Lemma list_index_raises libr c :
  (exists e, list_index c libr = Raise e) <-> ~ In c libr.
Proof.
  induction libr as [|y libr IH]; simpl.
  - split; [intros _ []|eauto].
  - destruct (str_eqb c y) eqn:Hy.
    + apply String.eqb_eq in Hy. subst. split; [intros [e He]; discriminate|].
      intros H. exfalso. apply H. now left.
    + assert (c <> y) as Hne.
      { intros ->. unfold str_eqb in Hy. now rewrite String.eqb_refl in Hy. }
      destruct (list_index c libr) as [i|e]; simpl.
      * split; [intros [e He]; discriminate|].
        intros H. exfalso. destruct IH as [_ IH].
        destruct IH as [e He]; [|discriminate]. intros Hin. apply H. now right.
      * split; [|eauto]. intros _ [Heq|Hin]; [now apply Hne|].
        destruct IH as [IH _]. apply IH; eauto.
Qed.

Lemma list_index_ValueError libr c e : list_index c libr = Raise e -> e = ValueError.
Proof.
  induction libr as [|y libr IH]; simpl; [now intros [= <-]|].
  destruct (str_eqb c y); [discriminate|].
  destruct (list_index c libr) as [i|e']; simpl; [discriminate|].
  intros [= <-]. now apply IH.
Qed.

(** X1. [character_to_label] returns the position of the first entry of
    the library equal to the glycoletter, so that looking the position up
    gives the glycoletter back; it raises, and then a [ValueError], exactly
    when the glycoletter is not in the library. *)
Theorem character_to_label_first_position (character : string) (libr : list string) :
  (forall i, character_to_label character libr = Ok i ->
     0 <= i /\ libr !! Z.to_nat i = Some character
     /\ forall j, (j < Z.to_nat i)%nat -> libr !! j <> Some character)
  /\ (character_to_label character libr = Raise ValueError <-> ~ In character libr)
  /\ (forall e, character_to_label character libr = Raise e -> e = ValueError).
Proof.
  unfold character_to_label. split; [|split].
  - intros i. apply list_index_spec.
  - rewrite <- list_index_raises. split; [eauto|].
    intros [e He]. now rewrite (list_index_ValueError _ _ _ He) in He.
  - apply list_index_ValueError.
Qed.

Lemma character_to_label_first_position_witness :
  character_to_label "Man" sample_lib = Ok 3
  /\ sample_lib !! Z.to_nat 3 = Some "Man".
Proof.
  split; [vm_compute; reflexivity|].
  destruct (character_to_label_first_position "Man" sample_lib) as [H _].
  apply (H 3). vm_compute. reflexivity.
Defined.

Lemma result_mapM_raises {A B} (f : A -> result B) l :
  (exists e, result_mapM f l = Raise e)
  <-> exists x, In x l /\ exists e, f x = Raise e.
Proof.
  induction l as [|x l IH]; simpl.
  - split; [intros [e He]; discriminate|intros (x & [] & _)].
  - destruct (f x) as [y|e] eqn:Hx.
    + change (Ok y ≫= _) with (ys ← result_mapM f l; Ok (y :: ys)).
      destruct (result_mapM f l) as [ys|e] eqn:Hl.
      * split; [intros [e He]; discriminate|].
        intros (x' & [<-|Hx'] & e & He); [congruence|].
        destruct IH as [_ IH]. destruct IH as [e' He']; [eauto|discriminate].
      * split; [|intros _; exists e; reflexivity].
        intros _. destruct IH as [IH _]. destruct IH as (x' & Hx' & He'); [eauto|].
        exists x'. split; [now right|exact He'].
    + split; [|intros _; exists e; reflexivity].
      intros _. exists x. split; [now left|eauto].
Qed.

Lemma string_to_labels_Forall2 libr cs ls :
  string_to_labels cs libr = Ok ls ->
  Forall2 (fun c i => libr !! Z.to_nat i = Some c) cs ls.
Proof.
  intros H. apply result_mapM_Forall2 in H.
  induction H as [|c i cs ls Hc _ IH]; constructor; [|exact IH].
  now apply list_index_spec in Hc.
Qed.

(** X2. The labels [string_to_labels] returns decode to the glycoletters
    they were made from: there are as many of them, and the library holds
    the [k]-th glycoletter at the [k]-th label; the call raises exactly
    when a glycoletter is missing from the library. *)
Theorem string_to_labels_decodes (character_string libr : list string) :
  (forall ls, string_to_labels character_string libr = Ok ls ->
     length ls = length character_string
     /\ map (fun i => libr !! Z.to_nat i) ls = map Some character_string)
  /\ ((exists e, string_to_labels character_string libr = Raise e)
      <-> exists c, In c character_string /\ ~ In c libr).
Proof.
  split.
  - intros ls H. split; [eapply result_mapM_length, H|].
    apply string_to_labels_Forall2 in H.
    induction H as [|c i cs ls Hc _ IH]; simpl; [reflexivity|]. now rewrite Hc, IH.
  - unfold string_to_labels. rewrite result_mapM_raises.
    split; intros (c & Hc & H); exists c; (split; [exact Hc|]);
      now apply list_index_raises.
Qed.

Lemma string_to_labels_decodes_witness :
  string_to_labels ["Gal"; "b1-4"; "Glc"] sample_lib = Ok [0; 12; 1]
  /\ map (fun i => sample_lib !! Z.to_nat i) [0; 12; 1] = map Some ["Gal"; "b1-4"; "Glc"].
Proof.
  split; [vm_compute; reflexivity|].
  destruct (string_to_labels_decodes ["Gal"; "b1-4"; "Glc"] sample_lib) as [H _].
  apply (H [0; 12; 1]). vm_compute. reflexivity.
Defined.

(** ** The parser *)

Lemma last_raises s : PyStr.last s = Raise IndexError <-> s = EmptyString.
Proof.
  split; [|now intros ->].
  induction s as [|c s IH]; [reflexivity|]. simpl.
  destruct s; [discriminate|]. intros H. now apply IH in H.
Qed.

Lemma last_ok_or_empty s : (exists c, PyStr.last s = Ok c) \/ s = EmptyString.
Proof.
  induction s as [|c s IH]; [now right|]. left. simpl.
  destruct s; [eauto|]. destruct IH as [IH|IH]; [exact IH|discriminate].
Qed.

Lemma drop_last_empty s : PyStr.drop_last s = EmptyString -> (PyStr.len s <= 1)%nat.
Proof.
  unfold PyStr.drop_last, PyStr.len.
  destruct s as [|c [|d s]]; simpl; try lia. discriminate.
Qed.

Lemma last_bracket_only s :
  PyStr.last s = Ok "]"%char -> PyStr.drop_last s = EmptyString -> s = "]".
Proof.
  intros Hlast Hdrop. apply drop_last_empty in Hdrop.
  destruct s as [|c [|d s]]; simpl in *; try discriminate; [|unfold PyStr.len in Hdrop; simpl in Hdrop; lia].
  now injection Hlast as ->.
Qed.

(** X3. [evaluate_adjacency] fails on exactly two residual strings: the
    empty one, and the lone closing bracket, whose inner part is empty. On
    every other string it answers, and the only exception it raises is an
    [IndexError]. *)
Theorem evaluate_adjacency_raises (glycan_part : string) (adjustment : nat) :
  (evaluate_adjacency glycan_part adjustment = Raise IndexError
   <-> glycan_part = EmptyString \/ glycan_part = "]")
  /\ (forall e, evaluate_adjacency glycan_part adjustment = Raise e -> e = IndexError).
Proof.
  unfold evaluate_adjacency.
  destruct (last_ok_or_empty glycan_part) as [[c Hc]| ->].
  - rewrite Hc. simpl.
    assert (Hnonempty : glycan_part <> EmptyString) by (intros ->; discriminate Hc).
    destruct (is_paren c && _) eqn:Hp.
    + apply andb_true_iff in Hp as [Hp _].
      split; [|discriminate]. split; [discriminate|].
      intros [-> | ->]; [now contradiction Hnonempty|].
      simpl in Hc. injection Hc as <-. discriminate Hp.
    + destruct (Ascii.eqb_spec c "]"%char) as [->|Hne].
      * destruct (last_ok_or_empty (PyStr.drop_last glycan_part)) as [[c' Hc']|Hempty].
        -- rewrite Hc'. simpl. split.
           ++ split; [destruct (is_paren c' && _); discriminate|].
              intros [-> | ->]; [now contradiction Hnonempty|]. discriminate Hc'.
           ++ intros e. destruct (is_paren c' && _); discriminate.
        -- rewrite Hempty. simpl. split; [|now intros e [= <-]].
           split; [|reflexivity]. intros _. right. now apply last_bracket_only.
      * split; [|discriminate]. split; [discriminate|].
        intros [-> | ->]; [now contradiction Hnonempty|].
        simpl in Hc. injection Hc as <-. now contradiction Hne.
  - simpl. split; [|now intros e [= <-]]. split; [now left|reflexivity].
Qed.

(** ** Removing branches *)

Lemma bracket_removal_loop_length fuel : forall s,
  (PyStr.len (bracket_removal_loop fuel s) <= PyStr.len s)%nat.
Proof.
  induction fuel as [|fuel IH]; intros s; simpl; [lia|].
  destruct (branch_search s) eqn:Hs; [|lia].
  specialize (IH (branch_sub O s)). apply branch_sub_shrinks in Hs. lia.
Qed.

Lemma bracket_removal_loop_fixed fuel s :
  branch_search s = false -> bracket_removal_loop fuel s = s.
Proof. intros H. destruct fuel; simpl; [reflexivity|now rewrite H]. Qed.

(** X4. [bracket_removal] ends with a string that holds no complete
    innermost branch any more and is no longer than the one it was given;
    a string without such a branch is returned as it is, so removing
    branches twice is removing them once. *)
Theorem bracket_removal_removes_all (glycan_part : string) :
  branch_search (bracket_removal glycan_part) = false
  /\ (PyStr.len (bracket_removal glycan_part) <= PyStr.len glycan_part)%nat
  /\ bracket_removal (bracket_removal glycan_part) = bracket_removal glycan_part
  /\ (branch_search glycan_part = false -> bracket_removal glycan_part = glycan_part).
Proof.
  assert (Hdone : branch_search (bracket_removal glycan_part) = false)
    by now apply bracket_removal_loop_done.
  split; [exact Hdone|]. split; [apply bracket_removal_loop_length|].
  split; apply bracket_removal_loop_fixed. exact Hdone.
Qed.

Lemma bracket_removal_removes_all_witness :
  branch_search ")[GlcNAc(b1-4)]" = true
  /\ bracket_removal ")[Fuc(a1-2)[Gal(a1-3)]Gal(b1-4)]" = ")"
  /\ branch_search ")]" = false
  /\ bracket_removal ")]" = ")]".
Proof.
  split; [vm_compute; reflexivity|]. split; [vm_compute; reflexivity|].
  split; [vm_compute; reflexivity|].
  apply (bracket_removal_removes_all ")]"). vm_compute. reflexivity.
Defined.

(** ** The matcher *)

Lemma str_eqb_neq a b : a <> b -> str_eqb a b = false.
Proof. intros H. now apply String.eqb_neq. Qed.

(** X5. A mode that is none of ['ignore'], ['wildcards'] and ['termini']
    binds no matcher: when the host has at least as many nodes as the
    motif the call raises an [UnboundLocalError], and when it has fewer
    the call still returns [False], or [0] when counting. *)
Theorem unknown_mode_binds_no_matcher (fuel : nat) (glycan : glycan_arg) (motif : string)
    (libr : list string) (extra : string) (wildcard_list termini_list : list string)
    (count : bool) (wl : list pyval) (g1 g2 : nxGraph) :
  extra <> "ignore" -> extra <> "wildcards" -> extra <> "termini" ->
  index_wildcards libr wildcard_list = Ok wl ->
  matcher_graphs glycan motif libr extra termini_list = Ok (g1, g2) ->
  subgraph_isomorphism fuel glycan motif libr extra wildcard_list termini_list count
  = Some (if (length (nx.nodes g2) <=? length (nx.nodes g1))%nat
          then Raise UnboundLocalError
          else Ok (no_match count)).
Proof.
  intros H1 H2 H3 Hw Hg. unfold subgraph_isomorphism. rewrite Hw, Hg.
  unfold match_graphs, choose_graph_pair.
  rewrite (str_eqb_neq _ _ H1), (str_eqb_neq _ _ H2), (str_eqb_neq _ _ H3).
  now destruct (_ <=? _)%nat.
Qed.

Lemma unknown_mode_binds_no_matcher_witness :
  subgraph_isomorphism 3 (GString "Gal(b1-4)Glc") "Gal" sample_lib "exact" [] [] false
  = Some (Raise UnboundLocalError)
  /\ subgraph_isomorphism 3 (GString "Gal") "Gal(b1-4)Glc" sample_lib "exact" [] [] true
     = Some (Ok (RInt 0)).
Proof.
  split.
  - etransitivity.
    + eapply (unknown_mode_binds_no_matcher 3 (GString "Gal(b1-4)Glc") "Gal" sample_lib
                "exact" [] [] false);
        [discriminate | discriminate | discriminate
        | vm_compute; reflexivity | vm_compute; reflexivity].
    + vm_compute. reflexivity.
  - etransitivity.
    + eapply (unknown_mode_binds_no_matcher 3 (GString "Gal") "Gal(b1-4)Glc" sample_lib
                "exact" [] [] true);
        [discriminate | discriminate | discriminate
        | vm_compute; reflexivity | vm_compute; reflexivity].
    + vm_compute. reflexivity.
Defined.

Lemma exact_answers g1 g2 default : answers g1 g2 (categorical_node_match default).
Proof. intros u v _ _. unfold categorical_node_match. eauto. Qed.

Lemma search_decides_occurrence g1 g2 nm :
  answers g1 g2 nm ->
  exists r, subgraph_is_isomorphic (mk_GraphMatcher g1 g2 nm) = Ok r
            /\ (found r = true <-> exists m, occurrence g1 g2 nm m).
Proof.
  intros Hans. set (GM := mk_GraphMatcher g1 g2 nm).
  destruct (match_nodes_answers GM g2) with (core := @nil (Z * Z)) as [r Hr].
  { intros u v Hu Hv. now apply Hans. }
  exists r. split; [exact Hr|]. split.
  - destruct r as [m|]; [|discriminate]. intros _. exists m.
    now apply match_nodes_sound.
  - intros [m Hm]. destruct (match_nodes_complete GM g2) with (core := @nil (Z * Z)) (m := m)
      as [m' Hm']; [|exact Hm|].
    + intros u v Hu Hv. now apply Hans.
    + unfold subgraph_is_isomorphic in Hr. simpl G2 in Hr. rewrite Hm' in Hr.
      now injection Hr as <-.
Qed.

(** X6. In the mode ['ignore'] with [count=False], for a host graph whose
    labels hold every glycoletter of the motif, [subgraph_isomorphism]
    returns a truth value, and it is [True] exactly when the motif graph
    occurs in the host: some node-induced subgraph of the host is
    isomorphic to it with equal registry labels on matched nodes. *)
Theorem exact_mode_finds_occurrences (fuel : nat) (host : nxGraph) (motif : string)
    (libr : list string) (g2 : nxGraph) :
  glycan_to_nxGraph motif libr "ignore" None true = Ok g2 ->
  labels_present host (tokenize motif) = true ->
  exists b,
    subgraph_isomorphism fuel (GGraph host) motif libr "ignore" [] [] false
    = Some (Ok (RBool b))
    /\ (b = true
        <-> exists m, occurrence host g2 (categorical_node_match (Z.of_nat (length libr))) m).
Proof.
  intros Hg2 Hl. unfold subgraph_isomorphism. simpl index_wildcards. cbv iota.
  unfold matcher_graphs. change (str_eqb "ignore" "termini") with false. cbv iota.
  rewrite Hg2. simpl. unfold match_graphs, choose_graph_pair.
  change (str_eqb "ignore" "ignore") with true. cbv iota. rewrite Hl.
  unfold nx.nodes. rewrite !length_map.
  destruct (length g2 <=? length host)%nat eqn:Hlen.
  - destruct (search_decides_occurrence host g2
                (categorical_node_match (Z.of_nat (length libr)))) as (r & Hr & Hiff).
    { apply exact_answers. }
    rewrite Hr. simpl. exists (found r). split; [reflexivity|exact Hiff].
  - exists false. split; [reflexivity|]. split; [discriminate|].
    intros [m Hm]. apply occurrence_length in Hm. apply Nat.leb_gt in Hlen. lia.
Qed.

Lemma exact_mode_finds_occurrences_witness :
  exists host g2,
    glycan_to_nxGraph "Gal(b1-4)GlcNAc(b1-2)Man" sample_lib "ignore" None false = Ok host
    /\ glycan_to_nxGraph "GlcNAc(b1-2)Man" sample_lib "ignore" None true = Ok g2
    /\ labels_present host (tokenize "GlcNAc(b1-2)Man") = true
    /\ exists b,
         subgraph_isomorphism 1 (GGraph host) "GlcNAc(b1-2)Man" sample_lib "ignore" [] [] false
         = Some (Ok (RBool b))
         /\ (b = true
             <-> exists m, occurrence host g2
                             (categorical_node_match (Z.of_nat (length sample_lib))) m).
Proof.
  do 2 eexists.
  split; [vm_compute; reflexivity|].
  split; [vm_compute; reflexivity|].
  split; [vm_compute; reflexivity|].
  apply exact_mode_finds_occurrences; vm_compute; reflexivity.
Defined.

(** X7. When [compare_glycans] answers [True] for two graphs without
    wildcards, the graphs have as many nodes and the second occurs in the
    first: there is a one-to-one pairing of all their nodes that keeps
    edges, non-edges and registry labels. *)
Theorem compare_glycans_true_is_isomorphism (g1 g2 : nxGraph) (libr : list string) :
  compare_glycans (GGraph g1) (GGraph g2) libr false [] = Ok true ->
  length g1 = length g2
  /\ exists m,
       occurrence g1 g2 (categorical_node_match (Z.of_nat (length libr))) m
       /\ length m = length g2
       /\ NoDup (map fst m).
Proof.
  unfold compare_glycans. simpl. unfold nx.nodes. rewrite !length_map.
  destruct (length g1 =? length g2)%nat eqn:Hlen; [|discriminate].
  destruct (list_ascii_eqb _ _); [|discriminate].
  unfold nx_is_isomorphic, is_isomorphic_gm. simpl. rewrite Hlen. simpl.
  destruct (list_Z_eqb _ _); simpl; [|discriminate].
  destruct (subgraph_is_isomorphic _) as [[m|]|e] eqn:Hm; try discriminate.
  intros _. apply Nat.eqb_eq in Hlen. split; [exact Hlen|].
  apply match_nodes_sound in Hm. exists m. split; [exact Hm|].
  pose proof (completes_length _ _ _ _ Hm) as Hl. simpl in Hl.
  split; [lia|]. now destruct (completes_injective _ _ _ _ Hm) as [Hnd _]; [constructor|intros p []|].
Qed.

Lemma compare_glycans_true_is_isomorphism_witness :
  exists g1 g2,
    glycan_to_nxGraph "Man(a1-3)[Man(a1-6)]Man" sample_lib "ignore" None false = Ok g1
    /\ glycan_to_nxGraph "Man(a1-6)[Man(a1-3)]Man" sample_lib "ignore" None false = Ok g2
    /\ compare_glycans (GGraph g1) (GGraph g2) sample_lib false [] = Ok true
    /\ length g1 = length g2.
Proof.
  do 2 eexists.
  split; [vm_compute; reflexivity|].
  split; [vm_compute; reflexivity|].
  split; [vm_compute; reflexivity|].
  apply (compare_glycans_true_is_isomorphism _ _ sample_lib). vm_compute. reflexivity.
Defined.

(** X8. When both calls return, the truth value of [subgraph_isomorphism]
    says whether its count is positive: [True] goes with a count of at
    least one and [False] with a count of zero, in every mode. *)
Theorem presence_matches_count (fuel fuel' : nat) (glycan : glycan_arg) (motif : string)
    (libr : list string) (extra : string) (wildcard_list termini_list : list string)
    (b : bool) (n : Z) :
  subgraph_isomorphism fuel glycan motif libr extra wildcard_list termini_list false
  = Some (Ok (RBool b)) ->
  subgraph_isomorphism fuel' glycan motif libr extra wildcard_list termini_list true
  = Some (Ok (RInt n)) ->
  (b = true <-> 1 <= n) /\ (b = false <-> n = 0).
Proof. apply presence_agrees_with_count. Qed.

Lemma presence_matches_count_witness :
  subgraph_isomorphism 9 (GString "Gal(b1-4)GlcNAc(b1-2)Man(a1-3)[Gal(b1-4)GlcNAc(b1-2)Man(a1-6)]Man")
    "Gal(b1-4)GlcNAc" sample_lib "ignore" [] [] true = Some (Ok (RInt 2))
  /\ (true = true <-> 1 <= 2).
Proof.
  split; [vm_compute; reflexivity|].
  eapply (presence_matches_count 9 9
            (GString "Gal(b1-4)GlcNAc(b1-2)Man(a1-3)[Gal(b1-4)GlcNAc(b1-2)Man(a1-6)]Man")
            "Gal(b1-4)GlcNAc" sample_lib "ignore" [] [] true 2);
    vm_compute; reflexivity.
Defined.

(** ** Counting without overlap *)

Lemma filter_out_one (k : Z) l :
  NoDup l -> In k l ->
  (length (List.filter (fun x => negb (x =? k)%Z) l) + 1 = length l)%nat.
Proof.
  induction l as [|a l IH]; intros Hnd Hin; [destruct Hin|].
  apply NoDup_cons in Hnd as [Ha Hnd]. simpl.
  destruct (Z.eqb_spec a k) as [->|Hne]; simpl.
  - rewrite filter_all_true; [lia|].
    intros x Hx. destruct (Z.eqb_spec x k) as [->|]; [|reflexivity].
    exfalso. apply Ha. now apply list_elem_of_In.
  - destruct Hin as [Heq|Hin]; [contradiction|]. specialize (IH Hnd Hin). lia.
Qed.

Lemma filter_out_cons (k : Z) ks l :
  List.filter (fun x => negb (Z_in x (k :: ks))) l
  = List.filter (fun x => negb (x =? k))
      (List.filter (fun x => negb (Z_in x ks)) l).
Proof.
  induction l as [|a l IH]; [reflexivity|].
  cbn [List.filter]. rewrite IH.
  change (Z_in a (k :: ks)) with ((a =? k) || Z_in a ks).
  destruct (a =? k) eqn:Hak, (Z_in a ks) eqn:Hin; cbn [negb orb List.filter];
    rewrite ?Hak; reflexivity.
Qed.

Lemma filter_out_list ks : forall l,
  NoDup l -> NoDup ks -> incl ks l ->
  (length (List.filter (fun x => negb (Z_in x ks)) l) + length ks = length l)%nat.
Proof.
  induction ks as [|k ks IH]; intros l Hl Hks Hin.
  - simpl. rewrite filter_all_true; [lia|reflexivity].
  - apply NoDup_cons in Hks as [Hk Hks].
    pose proof (filter_out_cons k ks l) as Heq.
    rewrite Heq.
    assert (In k (List.filter (fun x => negb (Z_in x ks)) l)) as Hkin.
    { apply filter_In. split; [apply Hin; now left|].
      apply negb_true_iff, Z_in_false. intros H. apply Hk. now apply list_elem_of_In. }
    pose proof (filter_out_one k _ (proj2 (NoDup_ListNoDup _)
                                      (List.NoDup_filter _ (proj1 (NoDup_ListNoDup _) Hl)))
                  Hkin) as H1.
    specialize (IH l Hl Hks (fun x Hx => Hin x (or_intror Hx))). cbn [length]. lia.
Qed.

(** A match takes exactly the nodes of the motif off a host with distinct
    node ids. *)
Lemma match_removes_motif_size gp mapping :
  NoDup (nx.nodes (G1 gp)) ->
  subgraph_is_isomorphic gp = Ok (Some mapping) ->
  (length (nx.remove_nodes_from (G1 gp) (map fst mapping)) + length (G2 gp)
   = length (G1 gp))%nat
  /\ NoDup (nx.nodes (nx.remove_nodes_from (G1 gp) (map fst mapping))).
Proof.
  intros Hnd H. apply match_nodes_sound in H.
  pose proof (completes_length _ _ _ _ H) as Hlen. simpl in Hlen.
  destruct (completes_injective _ _ _ _ H) as [Hkeys Hin]; [constructor|intros p []|].
  rewrite <- (length_map n_id (nx.remove_nodes_from _ _)), <- (length_map n_id (G1 gp)).
  change (map n_id (nx.remove_nodes_from (G1 gp) (map fst mapping)))
    with (nx.nodes (nx.remove_nodes_from (G1 gp) (map fst mapping))).
  rewrite nodes_remove_nodes_from. split.
  - change (map n_id (G1 gp)) with (nx.nodes (G1 gp)).
    pose proof (filter_out_list (map fst mapping) (nx.nodes (G1 gp)) Hnd Hkeys) as Hf.
    rewrite length_map in Hf. rewrite <- Hf; [lia|].
    intros u Hu. apply in_map_iff in Hu as (p & <- & Hp). now apply Hin.
  - apply NoDup_ListNoDup, List.NoDup_filter, NoDup_ListNoDup, Hnd.
Qed.

Lemma count_loop_bounded libr extra wl mc : forall fuel gp counts n,
  NoDup (nx.nodes (G1 gp)) ->
  count_loop fuel libr extra wl mc gp counts = Some (Ok n) ->
  counts <= n
  /\ (n - counts) * Z.of_nat (length (G2 gp)) <= Z.of_nat (length (G1 gp)).
Proof.
  induction fuel as [|fuel IH]; intros gp counts n Hnd H; [discriminate|]. simpl in H.
  destruct (subgraph_is_isomorphic gp) as [[mapping|]|e] eqn:Hm; try discriminate.
  - destruct (match_removes_motif_size gp mapping Hnd Hm) as [Hlen Hnd'].
    destruct (choose_graph_pair _ _ _ _ _ _) as [gp'| |] eqn:Hc.
    + apply choose_graph_pair_graphs in Hc as [H1 H2].
      apply IH in H; [|now rewrite H1]. rewrite H1, H2 in H. nia.
    + injection H as <-. nia.
    + apply IH in H; [|exact Hnd']. simpl in H. nia.
  - injection H as <-. split; [lia|]. nia.
Qed.

(** X9. The count [subgraph_isomorphism] returns for a host with distinct
    node ids is never negative, and that many copies of the motif graph fit
    into the host: the count times the number of motif nodes is at most the
    number of host nodes. *)
Theorem count_fits_into_host (fuel : nat) (glycan : glycan_arg) (motif : string)
    (libr : list string) (extra : string) (wildcard_list termini_list : list string)
    (g1 g2 : nxGraph) (n : Z) :
  matcher_graphs glycan motif libr extra termini_list = Ok (g1, g2) ->
  NoDup (nx.nodes g1) ->
  subgraph_isomorphism fuel glycan motif libr extra wildcard_list termini_list true
  = Some (Ok (RInt n)) ->
  0 <= n /\ n * Z.of_nat (length g2) <= Z.of_nat (length g1).
Proof.
  intros Hg Hnd. unfold subgraph_isomorphism.
  destruct (index_wildcards libr wildcard_list) as [wl|e]; [|discriminate].
  rewrite Hg. unfold match_graphs.
  destruct (_ <=? _)%nat; [|intros [= <-]; lia].
  destruct (choose_graph_pair libr extra wl (tokenize motif) g1 g2) as [gp| |] eqn:Hc;
    [|intros [= <-]; lia|discriminate].
  apply choose_graph_pair_graphs in Hc as [H1 H2].
  destruct (count_loop _ _ _ _ _ gp 0) as [[n'|e]|] eqn:Hloop; try discriminate.
  intros [= <-]. apply count_loop_bounded in Hloop; [|now rewrite H1].
  rewrite H1, H2 in Hloop. lia.
Qed.

Lemma count_fits_into_host_witness :
  exists g1 g2,
    matcher_graphs (GString "Man(a1-2)Man(a1-2)Man(a1-2)Man") "Man(a1-2)Man" sample_lib
      "ignore" [] = Ok (g1, g2)
    /\ length g1 = 7%nat /\ length g2 = 3%nat
    /\ subgraph_isomorphism 9 (GString "Man(a1-2)Man(a1-2)Man(a1-2)Man") "Man(a1-2)Man"
         sample_lib "ignore" [] [] true = Some (Ok (RInt 2))
    /\ 2 * Z.of_nat (length g2) <= Z.of_nat (length g1).
Proof.
  do 2 eexists.
  split; [vm_compute; reflexivity|].
  split; [vm_compute; reflexivity|].
  split; [vm_compute; reflexivity|].
  split; [vm_compute; reflexivity|].
  eapply (count_fits_into_host 9 (GString "Man(a1-2)Man(a1-2)Man(a1-2)Man") "Man(a1-2)Man"
            sample_lib "ignore" [] []).
  - vm_compute. reflexivity.
  - apply nodup_Z_spec. vm_compute. reflexivity.
  - vm_compute. reflexivity.
Defined.


(** ** Wildcards given as registry indices *)

Lemma syntactic_feasibility_graphs GM GM' core u v :
  G1 GM' = G1 GM -> G2 GM' = G2 GM ->
  syntactic_feasibility GM' core u v = syntactic_feasibility GM core u v.
Proof. intros H1 H2. unfold syntactic_feasibility. now rewrite H1, H2. Qed.

Lemma try_candidates_ext GM GM' v core k k' :
  G1 GM' = G1 GM -> G2 GM' = G2 GM ->
  (forall core', k core' = k' core') ->
  forall cands,
    (forall u, In u cands -> semantic_feasibility GM u v = semantic_feasibility GM' u v) ->
    try_candidates GM core v k cands = try_candidates GM' core v k' cands.
Proof.
  intros H1 H2 Hk. induction cands as [|u cands IH]; intros Hsem; [reflexivity|].
  simpl. rewrite (syntactic_feasibility_graphs GM GM') by assumption.
  rewrite <- (Hsem u) by now left. rewrite <- Hk.
  rewrite IH by (intros u' Hu'; apply Hsem; now right). reflexivity.
Qed.

(** The search sees [node_match] only on pairs of nodes of the two
    graphs. *)
Lemma match_nodes_ext GM GM' :
  G1 GM' = G1 GM -> G2 GM' = G2 GM ->
  forall todo,
    (forall u v, In u (G1 GM) -> In v todo ->
       semantic_feasibility GM u v = semantic_feasibility GM' u v) ->
    forall core, match_nodes GM todo core = match_nodes GM' todo core.
Proof.
  intros H1 H2. induction todo as [|v todo IH]; intros Hsem core; [reflexivity|].
  simpl. rewrite H1. apply try_candidates_ext; try assumption.
  - intros core'. apply IH. intros u v' Hu Hv'. apply Hsem; [exact Hu|now right].
  - intros u Hu. apply Hsem; [exact Hu|now left].
Qed.

Lemma pyval_in_indices s wl : forallb is_index wl = true -> pyval_in (PyString s) wl = false.
Proof.
  induction wl as [|[z|s'] wl IH]; simpl; [reflexivity| |discriminate].
  exact IH.
Qed.

Lemma wildcard_indices_are_exact default wl d1 d2 s1 s2 :
  forallb is_index wl = true ->
  attr_string_labels d1 = Some s1 -> attr_string_labels d2 = Some s2 ->
  categorical_node_match_wildcard default wl d1 d2 = categorical_node_match default d1 d2.
Proof.
  intros Hwl Hs1 Hs2. unfold categorical_node_match_wildcard. rewrite Hs1, Hs2.
  now rewrite !pyval_in_indices.
Qed.

Lemma index_wildcards_indices libr wildcard_list wl :
  index_wildcards libr wildcard_list = Ok wl -> forallb is_index wl = true.
Proof.
  unfold index_wildcards. destruct (1 <=? length wildcard_list)%nat eqn:Hlen.
  - intros H. apply result_mapM_Forall2 in H. clear Hlen.
    induction H as [|k v ks vs Hk _ IH]; [reflexivity|]. simpl. rewrite IH, andb_true_r.
    destruct (list_index k libr) as [i|e]; simpl in Hk; [|discriminate].
    now injection Hk as <-.
  - destruct wildcard_list; [|discriminate]. now intros [= <-].
Qed.

Lemma labelled_remove_nodes_from ns : forall G,
  labelled G = true -> labelled (nx.remove_nodes_from G ns) = true.
Proof.
  assert (Hdel : forall G n, labelled G = true -> labelled (nx.delete_node G n) = true).
  { intros G n. unfold labelled, nx.delete_node. rewrite !forallb_forall.
    intros H x Hx. apply in_map_iff in Hx as (y & <- & Hy).
    apply filter_In in Hy as [Hy _]. simpl. now apply H. }
  unfold nx.remove_nodes_from.
  induction ns as [|n ns IH]; intros G HG; simpl; [exact HG|].
  apply IH. destruct (nx.has_node G n); [now apply Hdel|exact HG].
Qed.

Lemma wildcard_search_is_exact g1 g2 default wl :
  forallb is_index wl = true -> labelled g1 = true -> labelled g2 = true ->
  subgraph_is_isomorphic (mk_GraphMatcher g1 g2 (categorical_node_match_wildcard default wl))
  = subgraph_is_isomorphic (mk_GraphMatcher g1 g2 (categorical_node_match default)).
Proof.
  intros Hwl H1 H2. unfold subgraph_is_isomorphic. simpl G2.
  apply match_nodes_ext; [reflexivity|reflexivity|].
  intros u v Hu Hv. unfold semantic_feasibility. simpl in *.
  destruct (labelled_spec _ _ H1 Hu) as [s1 Hs1].
  destruct (labelled_spec _ _ H2 Hv) as [s2 Hs2].
  now apply wildcard_indices_are_exact with (s1 := s1) (s2 := s2).
Qed.

Lemma count_loop_wildcards_inert libr wl mc g2 :
  forallb is_index wl = true -> labelled g2 = true ->
  forall fuel g1 counts,
    labelled g1 = true ->
    count_loop fuel libr "wildcards" wl mc
      (mk_GraphMatcher g1 g2 (categorical_node_match_wildcard (Z.of_nat (length libr)) wl))
      counts
    = count_loop fuel libr "wildcards" [] mc
        (mk_GraphMatcher g1 g2 (categorical_node_match_wildcard (Z.of_nat (length libr)) []))
        counts.
Proof.
  intros Hwl H2. induction fuel as [|fuel IH]; intros g1 counts H1; [reflexivity|].
  simpl. rewrite !wildcard_search_is_exact by (assumption || reflexivity).
  destruct (subgraph_is_isomorphic _) as [[mapping|]|e]; try reflexivity.
  unfold choose_graph_pair.
  change (str_eqb "wildcards" "ignore") with false.
  change (str_eqb "wildcards" "wildcards") with true. cbv iota.
  apply IH. now apply labelled_remove_nodes_from.
Qed.

(** X10. In [subgraph_isomorphism] the wildcard list is turned into
    registry indices while the wildcard predicate looks glycoletters up in
    it, so no wildcard ever fires: on labelled graphs a call in the mode
    ['wildcards'] returns what the same call returns with an empty
    wildcard list. *)
Theorem wildcard_list_changes_nothing (fuel : nat) (glycan : glycan_arg) (motif : string)
    (libr : list string) (wildcard_list termini_list : list string) (count : bool)
    (wl : list pyval) (g1 g2 : nxGraph) :
  index_wildcards libr wildcard_list = Ok wl ->
  matcher_graphs glycan motif libr "wildcards" termini_list = Ok (g1, g2) ->
  labelled g1 = true -> labelled g2 = true ->
  subgraph_isomorphism fuel glycan motif libr "wildcards" wildcard_list termini_list count
  = subgraph_isomorphism fuel glycan motif libr "wildcards" [] termini_list count.
Proof.
  intros Hw Hg H1 H2. unfold subgraph_isomorphism. rewrite Hw.
  change (index_wildcards libr []) with (@Ok (list pyval) []).
  cbv iota. rewrite Hg. unfold match_graphs, choose_graph_pair.
  change (str_eqb "wildcards" "ignore") with false.
  change (str_eqb "wildcards" "wildcards") with true. cbv iota.
  pose proof (index_wildcards_indices _ _ _ Hw) as Hwl.
  destruct (_ <=? _)%nat; [|reflexivity]. destruct count.
  - rewrite (count_loop_wildcards_inert libr wl (tokenize motif) g2 Hwl H2 fuel g1 0 H1).
    reflexivity.
  - rewrite (wildcard_search_is_exact g1 g2 _ wl Hwl H1 H2).
    rewrite (wildcard_search_is_exact g1 g2 _ [] eq_refl H1 H2). reflexivity.
Qed.

Lemma wildcard_list_changes_nothing_witness :
  subgraph_isomorphism 3 (GString "Gal(b1-4)Glc") "Hex(b1-4)Glc" sample_lib
    "wildcards" ["Hex"] [] false = Some (Ok (RBool false))
  /\ subgraph_isomorphism 3 (GString "Gal(b1-4)Glc") "Hex(b1-4)Glc" sample_lib
       "wildcards" ["Hex"] [] false
     = subgraph_isomorphism 3 (GString "Gal(b1-4)Glc") "Hex(b1-4)Glc" sample_lib
         "wildcards" [] [] false.
Proof.
  split; [vm_compute; reflexivity|].
  eapply (wildcard_list_changes_nothing 3 (GString "Gal(b1-4)Glc") "Hex(b1-4)Glc"
            sample_lib ["Hex"] [] false);
    vm_compute; reflexivity.
Defined.

(** ** Equality of graphs *)

(** X11. [compare_glycans] answers [True] when a graph with distinct node
    ids is compared with itself. *)
Theorem compare_glycans_reflexive (g : nxGraph) (libr : list string) :
  NoDup (nx.nodes g) ->
  compare_glycans (GGraph g) (GGraph g) libr false [] = Ok true.
Proof. apply compare_glycans_refl. Qed.

Lemma compare_glycans_reflexive_witness :
  exists g,
    glycan_to_nxGraph "Neu5Ac(a2-3)Gal(b1-4)[Fuc(a1-3)]GlcNAc" sample_lib "ignore" None false
    = Ok g
    /\ compare_glycans (GGraph g) (GGraph g) sample_lib false [] = Ok true.
Proof.
  eexists. split; [vm_compute; reflexivity|].
  apply compare_glycans_reflexive. apply nodup_Z_spec. vm_compute. reflexivity.
Defined.

(** ** What the serializer needs and what it does on one node *)

Lemma find_node_Some_in G n x : nx.find_node G n = Some x -> In n (nx.nodes G).
Proof.
  induction G as [|y G IH]; simpl; [discriminate|].
  destruct (Z.eqb_spec (n_id y) n) as [<-|]; [now left|]. intros H. right. auto.
Qed.

Lemma degree_Ok_in G n d : nx.degree G n = Ok d -> In n (nx.nodes G).
Proof.
  unfold nx.degree. destruct (nx.find_node G n) eqn:H; [|discriminate].
  intros _. eapply find_node_Some_in, H.
Qed.

Lemma skeleton_step_degree graph skeleton k skeleton' :
  skeleton_step graph skeleton k = Ok skeleton' ->
  exists d, nx.degree graph (Z.of_nat k) = Ok d.
Proof.
  unfold skeleton_step.
  destruct (py_get skeleton (Z.of_nat k)) as [here|e]; [|discriminate].
  destruct (py_get skeleton (-1)) as [final|e]; [|discriminate].
  cbv beta iota delta [mbind result_bind].
  destruct (nx.degree graph (Z.of_nat k)) as [d|e]; [eauto|].
  destruct (str_eqb here final); [discriminate|]. discriminate.
Qed.

Lemma skeleton_loop_degrees graph ks : forall skeleton skeleton',
  skeleton_loop graph skeleton ks = Ok skeleton' ->
  forall k, In k ks -> In (Z.of_nat k) (nx.nodes graph).
Proof.
  induction ks as [|k ks IH]; intros skeleton skeleton' H k' Hk'; [destruct Hk'|].
  simpl in H. destruct (skeleton_step graph skeleton k) as [sk1|e] eqn:Hstep; [|discriminate].
  destruct Hk' as [<-|Hk'].
  - destruct (skeleton_step_degree _ _ _ _ Hstep) as [d Hd]. eapply degree_Ok_in, Hd.
  - eapply IH; eauto.
Qed.

(** X12. [graph_to_string] returns a string only for a graph that holds
    the nodes [0], [1], ..., [n-1], where [n] is the number of its labelled
    nodes, and whose nodes [0] and [n-1] are labelled: on any other
    numbering it raises. *)
Theorem graph_to_string_needs_dense_ids (df_glycan : list string) (graph : nxGraph)
    (libr : list string) (s : string) :
  graph_to_string df_glycan graph false libr = Ok s ->
  let node_labels := nx.get_node_attributes attr_string_labels graph in
  (forall k, (k < length node_labels)%nat -> In (Z.of_nat k) (nx.nodes graph))
  /\ (exists first, dict_get node_labels 0 = Ok first)
  /\ (exists final, dict_get node_labels (Z.of_nat (length node_labels) - 1) = Ok final).
Proof.
  unfold graph_to_string, graph_to_skeleton_string.
  cbv beta iota zeta delta [mbind result_bind].
  destruct (skeleton_loop graph _ _) as [skeleton|e] eqn:Hloop; [|discriminate].
  destruct (substitute_labels _ _ _) as [glycan|e]; [|discriminate].
  destruct (dict_get _ 0) as [first|e] eqn:Hfirst; [|discriminate].
  destruct (dict_get _ (_ - 1)) as [final|e] eqn:Hfinal; [|discriminate].
  intros _. split; [|eauto].
  intros k Hk. eapply skeleton_loop_degrees; [exact Hloop|].
  rewrite !length_map. apply in_seq. lia.
Qed.

Lemma graph_to_string_needs_dense_ids_witness :
  exists graph,
    glycan_to_nxGraph "Gal(b1-4)Glc" sample_lib "ignore" None false = Ok graph
    /\ graph_to_string [] graph false sample_lib = Ok "Gal(b1-4)Glc"
    /\ In (Z.of_nat 2) (nx.nodes graph).
Proof.
  eexists. split; [vm_compute; reflexivity|]. split; [vm_compute; reflexivity|].
  eapply (graph_to_string_needs_dense_ids [] _ sample_lib "Gal(b1-4)Glc").
  - vm_compute. reflexivity.
  - vm_compute. lia.
Defined.

Lemma startswith_char_free c s' s :
  free_of c s = true -> PyStr.startswith (String c s') s = false.
Proof.
  destruct s as [|d s]; simpl; [reflexivity|].
  intros H. apply andb_true_iff in H as [H _]. apply negb_true_iff in H.
  now rewrite Ascii.eqb_sym, H.
Qed.

Lemma free_of_tail c d s : free_of c (String d s) = true -> free_of c s = true.
Proof. simpl. intros H. now apply andb_true_iff in H as [_ H]. Qed.

Lemma rfind_from_free c s : forall i found,
  free_of c s = true -> PyStr.rfind_from (String c EmptyString) s i found = found.
Proof.
  induction s as [|d s IH]; intros i found H.
  - reflexivity.
  - change (PyStr.rfind_from (String c EmptyString) (String d s) i found)
      with (PyStr.rfind_from (String c EmptyString) s (S i)
              (if PyStr.startswith (String c EmptyString) (String d s)
               then Z.of_nat i else found)).
    rewrite (startswith_char_free c EmptyString _ H).
    apply IH. eapply free_of_tail, H.
Qed.

Lemma replace_scan_free c new s :
  free_of c s = true -> PyStr.replace_scan (String c EmptyString) new O s = s.
Proof.
  induction s as [|d s IH]; intros H; [reflexivity|].
  change (PyStr.replace_scan (String c EmptyString) new 0 (String d s))
    with (if PyStr.startswith (String c EmptyString) (String d s)
          then new +:+ PyStr.replace_scan (String c EmptyString) new
                         (PyStr.len (String c EmptyString) - 1)%nat s
          else String d (PyStr.replace_scan (String c EmptyString) new O s)).
  rewrite (startswith_char_free c EmptyString _ H).
  f_equal. apply IH. eapply free_of_tail, H.
Qed.

Lemma append_empty s : s +:+ EmptyString = s.
Proof.
  induction s as [|c s IH]; [reflexivity|].
  change (String c s +:+ EmptyString) with (String c (s +:+ EmptyString)).
  f_equal. exact IH.
Qed.

(** X13. A graph of the single node [0] is written as the label of that
    node, whatever its other attributes, as long as the label holds no
    closing parenthesis, closing bracket or underscore. *)
Theorem single_node_is_its_label (df_glycan libr : list string) (label : string)
    (labels : option Z) (termini : option string) :
  free_of ")" label = true -> free_of "]" label = true -> free_of "_" label = true ->
  graph_to_string df_glycan (single_node (mk_node_data labels (Some label) termini))
    false libr
  = Ok label.
Proof.
  intros Hp Hb Hu.
  set (g := single_node (mk_node_data labels (Some label) termini)).
  assert (Hs : graph_to_skeleton_string g = Ok (label +:+ EmptyString))
    by (vm_compute; reflexivity).
  assert (Hf : dict_get (nx.get_node_attributes attr_string_labels g)
                 (Z.of_nat (length (nx.get_node_attributes attr_string_labels g)) - 1)
               = Ok label)
    by (vm_compute; reflexivity).
  unfold graph_to_string. cbv beta iota zeta delta [mbind result_bind].
  rewrite Hs, Hf, append_empty.
  unfold terminal_prefix, PyStr.rfind.
  rewrite !rfind_from_free by assumption.
  change (PyStr.max (PyStr.take_Z (-1 + 1) label) (PyStr.take_Z (-1 + 1) label))
    with EmptyString.
  change (EmptyString +:+ label) with label.
  unfold PyStr.replace. change (PyStr.is_empty "_") with false. cbv iota.
  now rewrite replace_scan_free.
Qed.

Lemma single_node_is_its_label_witness :
  exists g,
    glycan_to_nxGraph "GlcNAc" sample_lib "ignore" None false = Ok g
    /\ g = single_node (mk_node_data (Some 2) (Some "GlcNAc") None)
    /\ graph_to_string [] g false sample_lib = Ok "GlcNAc".
Proof.
  eexists. split; [vm_compute; reflexivity|]. split; [reflexivity|].
  apply single_node_is_its_label; vm_compute; reflexivity.
Defined.

(** ** The common subgraph: what happens without one *)

(** X14. [largest_subgraph] does not return the empty string when there is
    no common subgraph: it raises an [IndexError] when the search yields no
    correspondence, and the connectivity test refuses, with an error of
    networkx, a first correspondence that selects no node of the first
    graph. The empty string is what it returns for a common subgraph that
    is not connected. *)
Theorem largest_subgraph_without_common_nodes (df_glycan : list string)
    (ISMAGS : nxGraph -> nxGraph -> node_match_t -> list (list (Z * Z)))
    (graph_a graph_b : nxGraph) (libr : list string) :
  let found := ISMAGS graph_a graph_b (categorical_node_match (Z.of_nat (length libr))) in
  (found = [] ->
   largest_subgraph df_glycan ISMAGS (GGraph graph_a) (GGraph graph_b) libr
   = Raise IndexError)
  /\ (forall first rest, found = first :: rest ->
        nx.subgraph graph_a (map fst first) = [] ->
        largest_subgraph df_glycan ISMAGS (GGraph graph_a) (GGraph graph_b) libr
        = Raise NetworkXError)
  /\ (forall first rest, found = first :: rest ->
        nx.is_connected (nx.subgraph graph_a (map fst first)) = Ok false ->
        largest_subgraph df_glycan ISMAGS (GGraph graph_a) (GGraph graph_b) libr
        = Ok EmptyString).
Proof.
  intros found. unfold largest_subgraph, common_subgraph. simpl ensure_graph.
  cbv beta iota delta [mbind result_bind]. fold found.
  split; [|split].
  - now intros ->.
  - intros first rest -> Hempty. now rewrite Hempty.
  - intros first rest -> Hconn. now rewrite Hconn.
Qed.

Lemma largest_subgraph_without_common_nodes_witness :
  exists graph_a graph_b,
    glycan_to_nxGraph "Gal(b1-4)Glc" sample_lib "ignore" None false = Ok graph_a
    /\ glycan_to_nxGraph "Man(a1-3)Man" sample_lib "ignore" None false = Ok graph_b
    /\ largest_subgraph [] (fun _ _ _ => [[]]) (GGraph graph_a) (GGraph graph_b) sample_lib
       = Raise NetworkXError
    /\ largest_subgraph [] (fun _ _ _ => [[(0, 0); (2, 2)]]) (GGraph graph_a)
         (GGraph graph_b) sample_lib
       = Ok EmptyString.
Proof.
  do 2 eexists. split; [vm_compute; reflexivity|]. split; [vm_compute; reflexivity|].
  split.
  - eapply (largest_subgraph_without_common_nodes [] (fun _ _ _ => [[]])); reflexivity.
  - eapply (largest_subgraph_without_common_nodes [] (fun _ _ _ => [[(0, 0); (2, 2)]]));
      [reflexivity|vm_compute; reflexivity].
Defined.

(** ** Candidate topologies *)

Lemma foldl_max_in l : forall x, foldl Z.max x l = x \/ In (foldl Z.max x l) l.
Proof.
  induction l as [|a l IH]; intros x; simpl; [now left|].
  destruct (IH (Z.max x a)) as [H|H]; [|now right; right].
  rewrite H. destruct (Z.max_spec x a) as [[_ ->]|[_ ->]]; [right; now left|now left].
Qed.

Lemma highest_in G k : In k (nx.nodes G) -> In (highest G) (nx.nodes G).
Proof.
  unfold highest. destruct (nx.nodes G) as [|x l]; [intros []|]. intros _. simpl.
  destruct (foldl_max_in l x) as [->|H]; [now left|now right].
Qed.

Lemma in_update_node f n G x :
  In x (nx.update_node f n G) -> exists y, In y G /\ (x = y \/ x = f y).
Proof.
  unfold nx.update_node. intros H. apply in_map_iff in H as (y & <- & Hy).
  exists y. split; [exact Hy|]. destruct (n_id y =? n); [now right|now left].
Qed.

Lemma adj_add_neighbour v x w :
  In w (n_adj (nx.add_neighbour v x)) -> In w (n_adj x) \/ w = v.
Proof.
  unfold nx.add_neighbour. destruct (Z_in v (n_adj x)); [now left|]. simpl.
  intros H. apply in_app_iff in H as [H|[<-|[]]]; [now left|now right].
Qed.

Lemma add_edge_closed G u v :
  closed_graph G -> In u (nx.nodes G) -> In v (nx.nodes G) ->
  closed_graph (nx.add_edge G u v).
Proof.
  intros [Hnd Hadj] Hu Hv. split.
  - now rewrite nodes_add_edge.
  - intros x w Hx Hw. rewrite nodes_add_edge by assumption.
    unfold nx.add_edge in Hx.
    rewrite (nodes_add_node_old G u Hu), (nodes_add_node_old G v Hv) in Hx.
    apply in_update_node in Hx as (y & Hy & Hxy).
    apply in_update_node in Hy as (z & Hz & Hyz).
    assert (Hyadj : forall w, In w (n_adj y) -> In w (nx.nodes G)).
    { intros w' Hw'. destruct Hyz as [->| ->]; [eapply Hadj; eauto|].
      apply adj_add_neighbour in Hw' as [Hw'| ->]; [eapply Hadj; eauto|exact Hv]. }
    destruct Hxy as [->| ->]; [auto|].
    apply adj_add_neighbour in Hw as [Hw| ->]; [auto|exact Hu].
Qed.

Lemma mapping_get_combine ns : forall idx,
  NoDup ns -> length idx = length ns ->
  map (nx.mapping_get (combine ns idx)) ns = idx.
Proof.
  induction ns as [|a ns IH]; intros [|i idx] Hnd Hlen; try discriminate; [reflexivity|].
  apply NoDup_cons in Hnd as [Ha Hnd]. simpl. rewrite Z.eqb_refl. f_equal.
  transitivity (map (nx.mapping_get (combine ns idx)) ns);
    [|apply IH; [exact Hnd|simpl in Hlen; lia]].
  apply map_ext_in. intros k Hk.
  destruct (Z.eqb_spec a k) as [->|_]; [|reflexivity].
  exfalso. apply Ha. now apply list_elem_of_In.
Qed.

Lemma nodes_renumbered G :
  closed_graph G -> nx.nodes (renumbered G) = map Z.of_nat (range (length (nx.nodes G))).
Proof.
  intros HG. unfold renumbered.
  assert (Hmap : map (nx.mapping_get
                        (combine (nx.nodes G) (map Z.of_nat (range (length (nx.nodes G))))))
                   (nx.nodes G)
                 = map Z.of_nat (range (length (nx.nodes G)))).
  { apply mapping_get_combine; [apply HG|]. unfold range. now rewrite length_map, length_seq. }
  rewrite nodes_relabel_nodes; [exact Hmap|exact HG|].
  rewrite Hmap. apply NoDup_range_Z.
Qed.

(** X15. Every candidate that [get_possible_topologies] returns for a
    graph of two components with distinct node ids and no edge leaving the
    graph has as many nodes as the input, numbered [0], [1], ..., [n-1] in
    this order. *)
Theorem topologies_are_numbered_from_zero (g : nxGraph) (libr : list string)
    (floating main : list Z) (topologies : list nxGraph) :
  well_formed g = true ->
  nx.connected_components g = [floating; main] ->
  get_possible_topologies (GGraph g) libr = Ok topologies ->
  Forall (fun t => nx.nodes t = map Z.of_nat (range (length g))) topologies.
Proof.
  intros Hwf Hcc. apply well_formed_closed in Hwf.
  unfold get_possible_topologies. simpl. rewrite Hcc. simpl.
  destruct (component_part_nonempty g floating) as [k0 Hk0]; [rewrite Hcc; now left|].
  rewrite topologies_loop_leaves; [|now exists k0|apply incl_refl].
  intros H. injection H as <-. apply Forall_forall. intros t Ht.
  apply list_elem_of_In, in_map_iff in Ht as (k & <- & Hk).
  apply filter_In in Hk as [Hk _].
  rewrite nodes_subgraph in Hk. apply filter_In in Hk as [Hk _].
  pose proof (highest_in _ _ Hk0) as Htop.
  rewrite nodes_subgraph in Htop. apply filter_In in Htop as [Htop _].
  rewrite nodes_renumbered by now apply add_edge_closed.
  rewrite nodes_add_edge by assumption.
  unfold nx.nodes. now rewrite length_map.
Qed.

Lemma topologies_are_numbered_from_zero_witness :
  exists g topologies,
    glycan_to_nxGraph "{Fuc}Gal(b1-4)[Man(a1-3)]Glc" sample_lib "ignore" None false = Ok g
    /\ get_possible_topologies (GGraph g) sample_lib = Ok topologies
    /\ Forall (fun t => nx.nodes t = map Z.of_nat (range (length g))) topologies
    /\ map Z.of_nat (range (length g)) = [0; 1; 2; 3; 4; 5]
    /\ length topologies = 2%nat.
Proof.
  do 2 eexists. split; [vm_compute; reflexivity|]. split; [vm_compute; reflexivity|].
  split; [|split; vm_compute; reflexivity].
  eapply (topologies_are_numbered_from_zero _ sample_lib [5] [0; 1; 4; 3; 2]);
    vm_compute; reflexivity.
Defined.

(** ** The check against a list of glycans *)

Lemma filter_fst_sublist {A} (hits : list (A * bool)) :
  sublist (map fst (List.filter snd hits)) (map fst hits).
Proof.
  induction hits as [|[a b] hits IH]; simpl; [constructor|].
  destruct b; simpl; [now apply sublist_skip|now apply sublist_cons].
Qed.

(** X16. [possible_topology_check] returns glycans of the list it is
    given, in the order of that list and as they were passed, and only
    glycans one of the candidate topologies compares equal to. *)
Theorem possible_topology_check_selects (glycan : glycan_arg) (glycans out : list glycan_arg)
    (libr : list string) :
  possible_topology_check glycan glycans libr = Ok out ->
  sublist out glycans
  /\ exists topologies,
       get_possible_topologies glycan libr = Ok topologies
       /\ forall g, In g out ->
            exists ggraph t,
              ensure_graph g libr = Ok ggraph /\ In t topologies
              /\ compare_glycans (GGraph t) (GGraph ggraph) libr false [] = Ok true.
Proof.
  unfold possible_topology_check. cbv beta iota delta [mbind result_bind].
  destruct (get_possible_topologies glycan libr) as [topologies|e]; [|discriminate].
  destruct (result_mapM _ glycans) as [hits|e] eqn:Hhits; [|discriminate].
  intros H. injection H as <-.
  apply result_mapM_Forall2 in Hhits.
  assert (Hfst : map fst hits = glycans).
  { clear -Hhits. induction Hhits as [|g h gs hs Hgh _ IH]; [reflexivity|].
    simpl. f_equal; [|exact IH].
    destruct (ensure_graph g libr); [|discriminate].
    destruct (result_mapM _ topologies); [|discriminate]. now injection Hgh as <-. }
  split; [rewrite <- Hfst; apply filter_fst_sublist|].
  exists topologies. split; [reflexivity|]. intros g Hg.
  apply in_map_iff in Hg as ([g' b] & Hgg & Hin). simpl in Hgg. subst g'.
  apply filter_In in Hin as [Hin Hb]. simpl in Hb. subst b.
  destruct (Forall2_In_r _ _ _ _ Hhits Hin) as (g0 & _ & Hg0).
  destruct (ensure_graph g0 libr) as [ggraph|e] eqn:Hens; [|discriminate].
  destruct (result_mapM _ topologies) as [bs|e] eqn:Hbs; [|discriminate].
  injection Hg0 as -> Hex. exists ggraph.
  apply existsb_exists in Hex as (b & Hb & Hid). unfold id in Hid. subst b.
  apply result_mapM_Forall2 in Hbs.
  clear -Hb Hbs Hens. induction Hbs as [|t b' ts bs Htb _ IH]; [destruct Hb|].
  destruct Hb as [->|Hb].
  - exists t. split; [exact Hens|]. split; [now left|exact Htb].
  - destruct (IH Hb) as (t' & H1 & H2 & H3). exists t'. split; [exact H1|].
    split; [now right|exact H3].
Qed.

Lemma possible_topology_check_selects_witness :
  possible_topology_check (GString "{Fuc(a1-2)}Gal(b1-4)Glc")
    [GString "Man(a1-3)Man"; GString "Fuc(a1-2)Gal(b1-4)Glc"; GString "Gal(b1-4)Glc"]
    sample_lib
  = Ok [GString "Fuc(a1-2)Gal(b1-4)Glc"]
  /\ sublist [GString "Fuc(a1-2)Gal(b1-4)Glc"]
       [GString "Man(a1-3)Man"; GString "Fuc(a1-2)Gal(b1-4)Glc"; GString "Gal(b1-4)Glc"].
Proof.
  split; [vm_compute; reflexivity|].
  eapply (possible_topology_check_selects (GString "{Fuc(a1-2)}Gal(b1-4)Glc") _ _ sample_lib).
  vm_compute. reflexivity.
Defined.

(** ** The attributes of a parsed graph *)

Lemma set_node_attributes_pointwise {V} (set : V -> nx_node -> nx_node) values :
  forall G,
    nx.set_node_attributes set G values = map (fun x => foldl (set_entry set) x values) G.
Proof.
  unfold nx.set_node_attributes.
  induction values as [|kv values IH]; intros G; simpl.
  - symmetry. apply map_id.
  - rewrite IH. unfold nx.update_node. rewrite map_map. reflexivity.
Qed.

Lemma set_entries_miss {V} (set : V -> nx_node -> nx_node) values : forall x,
  ~ In (n_id x) (map fst values) -> foldl (set_entry set) x values = x.
Proof.
  induction values as [|kv values IH]; intros x Hx; simpl; [reflexivity|].
  unfold set_entry at 2. destruct (Z.eqb_spec (n_id x) (fst kv)) as [Heq|_].
  - exfalso. apply Hx. left. now symmetry.
  - apply IH. intros H. apply Hx. now right.
Qed.

Lemma map_fst_combine {A B} (l : list A) : forall (l' : list B),
  length l' = length l -> map fst (combine l l') = l.
Proof.
  induction l as [|a l IH]; intros [|b l'] H; try discriminate; [reflexivity|].
  simpl. f_equal. apply IH. simpl in H. lia.
Qed.

Lemma get_set_node_attributes {V} (set : V -> nx_node -> nx_node)
    (attr : node_data -> option V) :
  (forall v x, n_id (set v x) = n_id x) ->
  (forall v x, attr (n_data (set v x)) = Some v) ->
  forall G vals, NoDup (nx.nodes G) -> length vals = length G ->
    nx.get_node_attributes attr
      (nx.set_node_attributes set G (combine (nx.nodes G) vals))
    = combine (nx.nodes G) vals.
Proof.
  intros Hid Hattr G vals Hnd Hlen. rewrite set_node_attributes_pointwise.
  revert vals Hnd Hlen. induction G as [|x G IH]; intros [|v vals] Hnd Hlen;
    try discriminate; [reflexivity|].
  simpl nx.nodes in *. apply NoDup_cons in Hnd as [Hx Hnd].
  assert (Hkeys : map fst (combine (nx.nodes G) vals) = nx.nodes G).
  { apply map_fst_combine. unfold nx.nodes. rewrite length_map. simpl in Hlen. lia. }
  unfold nx.get_node_attributes. simpl combine. simpl map. simpl foldl.
  unfold set_entry at 2. simpl fst. rewrite Z.eqb_refl. simpl snd.
  rewrite set_entries_miss
    by (rewrite Hid, Hkeys; intros H; apply Hx; now apply list_elem_of_In).
  simpl omap. rewrite Hattr, Hid. simpl. f_equal.
  etransitivity; [|apply (IH vals Hnd); simpl in Hlen; lia].
  unfold nx.get_node_attributes. f_equal. apply map_ext_in. intros y Hy.
  simpl foldl.
  unfold set_entry at 2. simpl fst.
  destruct (Z.eqb_spec (n_id y) (n_id x)) as [Heq|_]; [|reflexivity].
  exfalso. apply Hx. rewrite <- Heq. apply list_elem_of_In, in_map, Hy.
Qed.

Lemma get_node_attributes_other {V W} (set : W -> nx_node -> nx_node)
    (attr : node_data -> option V) values :
  (forall v x, n_id (set v x) = n_id x) ->
  (forall v x, attr (n_data (set v x)) = attr (n_data x)) ->
  forall G,
    nx.get_node_attributes attr (nx.set_node_attributes set G values)
    = nx.get_node_attributes attr G.
Proof.
  intros Hid Hattr. unfold nx.set_node_attributes.
  induction values as [|kv values IH]; intros G; simpl; [reflexivity|].
  rewrite IH. unfold nx.get_node_attributes, nx.update_node.
  induction G as [|x G IHG]; [reflexivity|].
  change (omap (fun x => pair (n_id x) <$> attr (n_data x))
            (map (fun x => if n_id x =? fst kv then set (snd kv) x else x) G))
    with (nx.get_node_attributes attr (nx.update_node (set (snd kv)) (fst kv) G)) in IHG.
  simpl. destruct (n_id x =? fst kv); [rewrite Hattr, Hid|];
    (destruct (attr (n_data x)); simpl; [f_equal|]; exact IHG).
Qed.

Lemma length_nodes (G : nxGraph) : length (nx.nodes G) = length G.
Proof. unfold nx.nodes. apply length_map. Qed.

(** X17. The graph of a notation without a floating part has one node per
    glycoletter, numbered [0], [1], ..., [n-1] in the order of the
    glycoletters; the node [k] carries the [k]-th glycoletter as its
    ['string_labels'] and the label [string_to_labels] gives it as its
    ['labels']. *)
Theorem parsed_graph_carries_glycoletters (glycan : string) (libr : list string)
    (g : nxGraph) :
  PyStr.contains "{" glycan = false ->
  tokenize glycan <> [] ->
  glycan_to_nxGraph glycan libr "ignore" None false = Ok g ->
  let glycoletters := tokenize glycan in
  let keys := map Z.of_nat (range (length glycoletters)) in
  nx.nodes g = keys
  /\ nx.get_node_attributes attr_string_labels g = combine keys glycoletters
  /\ exists labels,
       string_to_labels glycoletters libr = Ok labels
       /\ nx.get_node_attributes attr_labels g = combine keys labels.
Proof.
  intros Hfloat Htok. unfold glycan_to_nxGraph. rewrite Hfloat.
  unfold glycan_to_nxGraph_int. simpl.
  destruct (glycan_to_graph glycan) as [[node_dict adj_matrix]|e] eqn:Hg; [|discriminate].
  simpl. destruct (string_to_labels node_dict libr) as [labels|e] eqn:Hlab; [|discriminate].
  simpl. intros H. injection H as <-.
  destruct (glycan_to_graph_square _ _ _ Hg) as [Hlen Hrows].
  assert (Hdict : node_dict = tokenize glycan).
  { unfold glycan_to_graph in Hg. destruct (result_mapM _ _); [|discriminate].
    simpl in Hg. now injection Hg as <- _. }
  pose proof (result_mapM_length _ _ _ Hlab) as Hlabels.
  set (g1 := if (1 <? length node_dict)%nat then nx.from_numpy_matrix adj_matrix
             else nx.add_node nx.Graph 0).
  assert (Hg1 : nx.nodes g1 = map Z.of_nat (range (length node_dict))).
  { subst g1. destruct (Nat.ltb_spec 1 (length node_dict)) as [Hn|Hn].
    - rewrite nodes_from_numpy_matrix by exact Hrows. now rewrite Hlen.
    - destruct node_dict as [|t [|t' ts]];
        [exfalso; apply Htok; now rewrite <- Hdict|reflexivity|simpl in Hn; lia]. }
  assert (Hn1 : length g1 = length node_dict).
  { rewrite <- length_nodes, Hg1. unfold range. now rewrite length_map, length_seq. }
  subst node_dict.
  set (glycoletters := tokenize glycan) in *.
  set (keys := map Z.of_nat (range (length glycoletters))) in *.
  set (g2 := nx.set_node_attributes nx.set_labels g1 (combine keys labels)).
  assert (Hg2 : nx.nodes g2 = keys).
  { subst g2. now rewrite nodes_set_node_attributes by reflexivity. }
  split; [|split].
  - now rewrite nodes_set_node_attributes by reflexivity.
  - rewrite <- Hg2. apply get_set_node_attributes; try reflexivity.
    + rewrite Hg2. apply NoDup_range_Z.
    + rewrite <- length_nodes, Hg2. subst keys. unfold range.
      now rewrite length_map, length_seq.
  - exists labels. split; [exact Hlab|].
    rewrite get_node_attributes_other by reflexivity.
    subst g2. rewrite <- Hg1. apply get_set_node_attributes; try reflexivity.
    + rewrite Hg1. apply NoDup_range_Z.
    + lia.
Qed.

Lemma parsed_graph_carries_glycoletters_witness :
  exists g,
    glycan_to_nxGraph "Gal(b1-4)Glc" sample_lib "ignore" None false = Ok g
    /\ tokenize "Gal(b1-4)Glc" = ["Gal"; "b1-4"; "Glc"]
    /\ nx.nodes g = [0; 1; 2]
    /\ nx.get_node_attributes attr_string_labels g = [(0, "Gal"); (1, "b1-4"); (2, "Glc")]
    /\ nx.get_node_attributes attr_labels g = [(0, 0); (1, 12); (2, 1)].
Proof.
  eexists. split; [vm_compute; reflexivity|]. split; [vm_compute; reflexivity|].
  destruct (parsed_graph_carries_glycoletters "Gal(b1-4)Glc" sample_lib _
              ltac:(vm_compute; reflexivity) ltac:(vm_compute; discriminate)
              ltac:(vm_compute; reflexivity))
    as (Hnodes & Hstr & labels & Hlab & Hattr).
  split; [exact Hnodes|]. split; [exact Hstr|].
  vm_compute. reflexivity.
Defined.

(** ** The adjacency matrix *)

Lemma result_mapM_lookup {A B} (f : A -> result B) l l' i y :
  result_mapM f l = Ok l' -> l' !! i = Some y ->
  exists x, l !! i = Some x /\ f x = Ok y.
Proof.
  intros H. apply result_mapM_Forall2 in H. revert i.
  induction H as [|x y' l l' Hxy _ IH]; intros [|i] Hi; try discriminate.
  - simpl in Hi. injection Hi as <-. exists x. split; [reflexivity|exact Hxy].
  - apply IH, Hi.
Qed.

Lemma range_lookup n i x : range n !! i = Some x -> x = i.
Proof. unfold range. intros H. apply lookup_seq in H as [-> _]. reflexivity. Qed.

Lemma adjacency_cell_values glycan k j cell :
  adjacency_cell glycan k j = Ok cell ->
  (cell = 0 \/ cell = 1) /\ ((j <= k)%nat -> cell = 0).
Proof.
  unfold adjacency_cell. destruct (Nat.ltb_spec k j) as [Hkj|Hkj].
  - intros H. split; [|lia]. revert H.
    cbv beta iota zeta delta [mbind result_bind].
    destruct (PyStr.index (PyStr.of_nat k) glycan) as [ik|e]; [|discriminate].
    destruct (PyStr.index (PyStr.of_nat j) glycan) as [ij|e]; [|discriminate].
    destruct (evaluate_adjacency _ _) as [[|]|e]; [intros [= <-]; now right| |discriminate].
    destruct (_ <=? _)%nat; [|intros [= <-]; now left].
    destruct (evaluate_adjacency _ _) as [[|]|e]; [| |discriminate];
      intros [= <-]; [now right|now left].
  - intros [= <-]. split; [now left|reflexivity].
Qed.

(** X18. The adjacency matrix [glycan_to_graph] returns has one row and
    one column per glycoletter, holds only the entries [0] and [1], and is
    [0] on and below its diagonal: an adjacency is recorded once, in the row
    of the glycoletter that comes first, and never from a glycoletter to
    itself. *)
Theorem adjacency_matrix_upper_triangular (glycan : string) (node_dict : list string)
    (adj_matrix : list (list Z)) :
  glycan_to_graph glycan = Ok (node_dict, adj_matrix) ->
  length adj_matrix = length node_dict
  /\ (forall row, In row adj_matrix -> length row = length node_dict)
  /\ forall k j row cell,
       adj_matrix !! k = Some row -> row !! j = Some cell ->
       (cell = 0 \/ cell = 1) /\ ((j <= k)%nat -> cell = 0).
Proof.
  intros Hg. destruct (glycan_to_graph_square _ _ _ Hg) as [Hlen Hrows].
  split; [exact Hlen|]. split; [intros row Hrow; rewrite <- Hlen; now apply Hrows|].
  unfold glycan_to_graph in Hg.
  destruct (result_mapM _ (range (length (tokenize glycan)))) as [A|e] eqn:HA;
    [|discriminate].
  simpl in Hg. injection Hg as _ <-.
  intros k j row cell Hrow Hcell.
  destruct (result_mapM_lookup _ _ _ _ _ HA Hrow) as (k' & Hk' & Hrow').
  apply range_lookup in Hk'. subst k'.
  destruct (result_mapM_lookup _ _ _ _ _ Hrow' Hcell) as (j' & Hj' & Hcell').
  apply range_lookup in Hj'. subst j'.
  eapply adjacency_cell_values, Hcell'.
Qed.

Lemma adjacency_matrix_upper_triangular_witness :
  glycan_to_graph "Gal(b1-4)[Fuc(a1-3)]GlcNAc"
  = Ok (["Gal"; "b1-4"; "Fuc"; "a1-3"; "GlcNAc"],
        [[0; 1; 0; 0; 0]; [0; 0; 0; 0; 1]; [0; 0; 0; 1; 0]; [0; 0; 0; 0; 1]; [0; 0; 0; 0; 0]])
  /\ length [[0; 1; 0; 0; 0]; [0; 0; 0; 0; 1]; [0; 0; 0; 1; 0]; [0; 0; 0; 0; 1];
             [0; 0; 0; 0; 0]]
     = length ["Gal"; "b1-4"; "Fuc"; "a1-3"; "GlcNAc"].
Proof.
  split; [vm_compute; reflexivity|].
  eapply (adjacency_matrix_upper_triangular "Gal(b1-4)[Fuc(a1-3)]GlcNAc").
  vm_compute. reflexivity.
Defined.

(** ** Terminal and internal positions *)

Lemma result_mapM_total {A B} (f : A -> result B) (h : A -> B) l :
  (forall x, In x l -> f x = Ok (h x)) -> result_mapM f l = Ok (map h l).
Proof.
  induction l as [|x l IH]; intros H; [reflexivity|]. simpl.
  rewrite (H x) by now left. simpl. rewrite IH by (intros y Hy; apply H; now right).
  reflexivity.
Qed.

Lemma map_graph_combine {A B} (h : A -> B) l :
  map (fun k => (k, h k)) l = combine l (map h l).
Proof. induction l as [|x l IH]; simpl; [reflexivity|now rewrite IH]. Qed.

(** X19. Whenever a notation parses without annotation, it parses with
    [termini = 'calc'] too, into a graph of the same nodes in which every
    node is annotated: ['terminal'] if it has exactly one neighbour in the
    graph, ['internal'] otherwise. *)
Theorem calc_annotates_by_degree (glycan : string) (libr : list string) (g0 : nxGraph) :
  glycan_to_nxGraph_int glycan libr "ignore" None false = Ok g0 ->
  exists g,
    glycan_to_nxGraph_int glycan libr "calc" None false = Ok g
    /\ nx.nodes g = nx.nodes g0
    /\ nx.get_node_attributes attr_termini g
       = map (fun k => (k, if is_leaf g0 k then "terminal" else "internal")) (nx.nodes g0).
Proof.
  intros H0. pose proof (parsed_nodes_distinct _ _ _ H0) as Hnd. revert H0.
  unfold glycan_to_nxGraph_int. simpl.
  destruct (glycan_to_graph glycan) as [[node_dict adj_matrix]|e]; [|discriminate].
  simpl. destruct (string_to_labels node_dict libr) as [labels|e]; [|discriminate].
  simpl. intros H. injection H as H. rewrite H.
  rewrite (result_mapM_total _
             (fun k => (k, if is_leaf g0 k then "terminal" else "internal"))).
  - simpl. eexists. split; [reflexivity|]. split.
    + now rewrite nodes_set_node_attributes by reflexivity.
    + rewrite map_graph_combine. apply get_set_node_attributes; try reflexivity.
      * exact Hnd.
      * now rewrite length_map, length_nodes.
  - intros k Hk. unfold is_leaf. destruct (degree_in _ _ Hk) as [d ->]. reflexivity.
Qed.

Lemma calc_annotates_by_degree_witness :
  exists g,
    glycan_to_nxGraph_int "Gal(b1-4)Glc" sample_lib "calc" None false = Ok g
    /\ nx.get_node_attributes attr_termini g
       = [(0, "terminal"); (1, "internal"); (2, "terminal")].
Proof.
  destruct (calc_annotates_by_degree "Gal(b1-4)Glc" sample_lib _
              ltac:(vm_compute; reflexivity)) as (g & Hg & _ & Hattr).
  exists g. split; [exact Hg|]. rewrite Hattr. vm_compute. reflexivity.
Defined.

(** ** Padding *)

Lemma labels_below_library libr cs ls :
  string_to_labels cs libr = Ok ls ->
  Forall (fun l => 0 <= l < Z.of_nat (length libr)) ls.
Proof.
  intros H. apply result_mapM_Forall2 in H.
  induction H as [|c i cs ls Hc _ IH]; constructor; [|exact IH].
  apply list_index_spec in Hc as (Hpos & Hc & _).
  apply lookup_lt_Some in Hc. lia.
Qed.

(** X20. Padding a sequence of labels made from the library of the package
    never shortens it: the labels stay in front, the result is as long as
    the longer of the sequence and [max_length], and, since every label is
    below the length of the library, the padding label stands exactly at
    the positions from the end of the labels up to [max_length]. *)
Theorem padding_follows_the_labels (lib : list string) (character_string : list string)
    (seq : list Z) (max_length : Z) :
  string_to_labels character_string lib = Ok seq ->
  let padded := pad_sequence lib seq max_length None in
  length padded = Nat.max (length seq) (Z.to_nat max_length)
  /\ take (length seq) padded = seq
  /\ forall i, padded !! i = Some (Z.of_nat (length lib))
               <-> (length seq <= i < Z.to_nat max_length)%nat.
Proof.
  intros Hseq. apply labels_below_library in Hseq.
  unfold pad_sequence. cbv zeta.
  set (n := Z.to_nat (max_length - Z.of_nat (length seq))).
  assert (Hn : (n = Z.to_nat max_length - length seq)%nat) by lia.
  split; [|split].
  - rewrite length_app, length_map. unfold range. rewrite length_seq. lia.
  - now rewrite take_app_length.
  - intros i. destruct (Nat.lt_ge_cases i (length seq)) as [Hi|Hi].
    + rewrite lookup_app_l by exact Hi. split; [|lia].
      intros Hl. rewrite Forall_forall in Hseq.
      apply list_elem_of_lookup_2 in Hl. apply Hseq in Hl. lia.
    + rewrite lookup_app_r by exact Hi. rewrite list_lookup_fmap. unfold range.
      split.
      * intros Hl. destruct (List.seq 0 n !! (i - length seq)%nat) eqn:Hs; [|discriminate].
        apply lookup_lt_Some in Hs. rewrite length_seq in Hs. lia.
      * intros [_ Hi']. rewrite (lookup_seq_lt 0 n) by lia. reflexivity.
Qed.

Lemma padding_follows_the_labels_witness :
  pad_sequence sample_lib [0; 12; 1] 5 None = [0; 12; 1; 13; 13]
  /\ length (pad_sequence sample_lib [0; 12; 1] 2 None) = 3%nat.
Proof.
  split; [vm_compute; reflexivity|].
  destruct (padding_follows_the_labels sample_lib ["Gal"; "b1-4"; "Glc"] [0; 12; 1] 2
              ltac:(vm_compute; reflexivity)) as (Hlen & _).
  exact Hlen.
Defined.

(** ** Core monosaccharides *)

Lemma cores_in_head cores sugar ele rest :
  cores_in cores sugar = ele :: rest -> In ele cores.
Proof.
  intros H. assert (Hin : In ele (cores_in cores sugar)) by (rewrite H; now left).
  unfold cores_in in Hin. now apply filter_In in Hin as [Hin _].
Qed.

Lemma get_core_cases sugar :
  In (get_core sugar) core_names
  \/ (get_core sugar = sugar
      /\ (PyStr.startswith "a" sugar || PyStr.startswith "b" sugar
          || is_position_range sugar = true)).
Proof.
  unfold get_core, core_names.
  destruct (cores_in easy_cores sugar) as [|e1 r1] eqn:H1;
    [|left; apply in_or_app; left; eapply cores_in_head, H1].
  destruct (cores_in next_cores sugar) as [|e2 r2] eqn:H2;
    [|left; apply in_or_app; right; apply in_or_app; left; eapply cores_in_head, H2].
  destruct (cores_in hard_cores sugar) as [|e3 r3] eqn:H3;
    [|left; do 2 (apply in_or_app; right); apply in_or_app; left;
      eapply cores_in_head, H3].
  assert (Hlast : forall name, In name ["Neu5Ac"; "Neu5Gc"; "Neu"; "Sug"] ->
            In name (easy_cores ++ next_cores ++ hard_cores
                     ++ ["Neu5Ac"; "Neu5Gc"; "Neu"; "Sug"])).
  { intros name Hname. do 3 (apply in_or_app; right). exact Hname. }
  destruct (_ && _); [left; apply Hlast; simpl; tauto|].
  destruct (_ && _); [left; apply Hlast; simpl; tauto|].
  destruct (PyStr.contains "Neu" sugar); [left; apply Hlast; simpl; tauto|].
  destruct (PyStr.startswith "a" sugar || PyStr.startswith "b" sugar);
    [right; split; reflexivity|].
  destruct (is_position_range sugar); [right; split; reflexivity|].
  left; apply Hlast; simpl; tauto.
Qed.

Lemma core_names_fixed name : In name core_names -> get_core name = name.
Proof.
  intros Hin. apply String.eqb_eq. revert name Hin. apply forallb_forall.
  vm_compute. reflexivity.
Qed.

(** X21. The core of a core is the core itself: applying [get_core] to
    what it returned returns the same name. *)
Theorem get_core_idempotent (sugar : string) :
  get_core (get_core sugar) = get_core sugar.
Proof.
  destruct (get_core_cases sugar) as [Hin|[Heq _]]; [|congruence].
  exact (core_names_fixed _ Hin).
Qed.

Lemma startswith_prefix p q : forall s,
  PyStr.startswith (p +:+ q) s = true -> PyStr.startswith p s = true.
Proof.
  induction p as [|a p IH]; intros s H; [now destruct s|].
  destruct s as [|b s]; [discriminate H|].
  change (Ascii.eqb a b && PyStr.startswith (p +:+ q) s = true) in H.
  change (Ascii.eqb a b && PyStr.startswith p s = true).
  apply andb_true_iff in H as [Hab H]. apply andb_true_iff. split; [exact Hab|].
  apply IH, H.
Qed.

Lemma find_unfold sub s :
  PyStr.find sub s
  = if PyStr.startswith sub s then Some O
    else match s with
         | EmptyString => None
         | String _ s' => S <$> PyStr.find sub s'
         end.
Proof. destruct s; reflexivity. Qed.

Lemma contains_prefix p q s :
  PyStr.contains (p +:+ q) s = true -> PyStr.contains p s = true.
Proof.
  unfold PyStr.contains. induction s as [|c s IH].
  - rewrite (find_unfold (p +:+ q)), (find_unfold p).
    destruct (PyStr.startswith (p +:+ q) EmptyString) eqn:H; [|discriminate].
    now rewrite (startswith_prefix _ _ _ H).
  - rewrite (find_unfold (p +:+ q)), (find_unfold p).
    destruct (PyStr.startswith (p +:+ q) (String c s)) eqn:H.
    + now rewrite (startswith_prefix _ _ _ H).
    + destruct (PyStr.startswith p (String c s)); [reflexivity|].
      destruct (PyStr.find (p +:+ q) s); [|discriminate].
      intros _. specialize (IH eq_refl).
      destruct (PyStr.find p s); [reflexivity|discriminate].
Qed.

Lemma cores_in_cons e l s :
  cores_in (e :: l) s = if PyStr.contains e s then e :: cores_in l s else cores_in l s.
Proof. reflexivity. Qed.

Lemma get_core_hard sugar ele rest :
  cores_in easy_cores sugar = [] -> cores_in next_cores sugar = [] ->
  cores_in hard_cores sugar = ele :: rest -> get_core sugar = ele.
Proof. intros He Hn Hh. unfold get_core. rewrite He, Hn, Hh. reflexivity. Qed.

Lemma get_core_not sugar name :
  str_in name core_names = false ->
  (PyStr.startswith "a" name || PyStr.startswith "b" name || is_position_range name) = false ->
  get_core sugar <> name.
Proof.
  intros Hname Hret Heq. destruct (get_core_cases sugar) as [Hin|[Hs Hab]].
  - rewrite Heq in Hin. unfold str_in in Hname.
    assert (Ht : existsb (str_eqb name) core_names = true)
      by (apply existsb_exists; exists name; split; [exact Hin|apply String.eqb_refl]).
    congruence.
  - rewrite Hs in Heq. subst sugar. congruence.
Qed.

(** X22. No sugar has the core ['IdoN'] or the core ['Glcf']: the list of
    cores holds the two names as the one entry ['IdoNGlcf'], so that a
    sugar holding ['Glcf'] gets the core ['Glc'] unless an earlier entry is
    found in it. *)
Theorem get_core_never_IdoN_nor_Glcf (sugar : string) :
  get_core sugar <> "IdoN" /\ get_core sugar <> "Glcf"
  /\ (PyStr.contains "Glcf" sugar = true ->
      cores_in easy_cores sugar = [] -> cores_in next_cores sugar = [] ->
      get_core sugar = "Glc").
Proof.
  split; [apply get_core_not; vm_compute; reflexivity|].
  split; [apply get_core_not; vm_compute; reflexivity|].
  intros Hglcf He Hn.
  pose proof (contains_prefix "Glc" "f" sugar Hglcf) as Hglc.
  apply (get_core_hard sugar "Glc" (cores_in (List.tl hard_cores) sugar) He Hn).
  unfold hard_cores at 1. rewrite cores_in_cons, Hglc. reflexivity.
Qed.

Lemma get_core_never_IdoN_nor_Glcf_witness :
  get_core "Glcf" = "Glc" /\ get_core "Galf" = "Galf" /\ get_core "IdoN" = "Sug".
Proof.
  split; [|split; vm_compute; reflexivity].
  apply (get_core_never_IdoN_nor_Glcf "Glcf"); vm_compute; reflexivity.
Defined.

(** ** Equality of graphs does not depend on the order of the arguments *)

Lemma completes_edges_agree GM todo core m :
  completes GM todo core m ->
  edges_agree (G1 GM) (G2 GM) core -> edges_agree (G1 GM) (G2 GM) m.
Proof.
  induction 1 as [core|v todo core u m Hu Hused Hsyn Hsem H IH]; intros Hc; [exact Hc|].
  apply IH. unfold syntactic_feasibility in Hsyn.
  apply andb_true_iff in Hsyn as [Hself Hall]. rewrite forallb_forall in Hall.
  intros p q [<-|Hp] [<-|Hq]; simpl.
  - now apply eqb_prop.
  - specialize (Hall q Hq). apply andb_true_iff in Hall as [Hall _]. now apply eqb_prop.
  - specialize (Hall p Hp). apply andb_true_iff in Hall as [_ Hall]. now apply eqb_prop.
  - now apply Hc.
Qed.

Lemma completes_snd GM todo core m :
  completes GM todo core m -> map snd m = rev (map n_id todo) ++ map snd core.
Proof.
  induction 1 as [core|v todo core u m _ _ _ _ _ IH]; [reflexivity|].
  rewrite IH. simpl. now rewrite <- app_assoc.
Qed.

Lemma completes_pairs_matched GM todo core m :
  completes GM todo core m -> incl todo (G2 GM) ->
  forall p, In p m ->
    In p core
    \/ exists u v, In u (G1 GM) /\ In v (G2 GM) /\ p = (n_id u, n_id v)
                   /\ semantic_feasibility GM u v = Ok true.
Proof.
  induction 1 as [core|v todo core u m Hu Hused Hsyn Hsem H IH]; intros Htodo p Hp;
    [now left|].
  destruct IH with (p := p) as [[<-|Hcore]|Hnew]; auto.
  - intros x Hx. apply Htodo. now right.
  - right. exists u, v. split; [exact Hu|]. split; [apply Htodo; now left|]. now split.
Qed.

Lemma NoDup_map_inj {A B} (f : A -> B) l x y :
  NoDup (map f l) -> In x l -> In y l -> f x = f y -> x = y.
Proof.
  induction l as [|a l IH]; intros Hnd Hx Hy Hxy; [destruct Hx|].
  simpl in Hnd. apply NoDup_cons in Hnd as [Ha Hnd].
  destruct Hx as [->|Hx], Hy as [->|Hy]; auto.
  - exfalso. apply Ha. rewrite Hxy. apply list_elem_of_In, in_map, Hy.
  - exfalso. apply Ha. rewrite <- Hxy. apply list_elem_of_In, in_map, Hx.
Qed.

Lemma reverse_completes g1 g2 nm m :
  (forall a b, nm a b = nm b a) ->
  NoDup (nx.nodes g1) -> NoDup (nx.nodes g2) -> length g1 = length g2 ->
  completes (mk_GraphMatcher g1 g2 nm) g2 [] m ->
  exists m', completes (mk_GraphMatcher g2 g1 nm) g1 [] m'.
Proof.
  intros Hsym Hnd1 Hnd2 Hlen Hm.
  pose proof (completes_edges_agree _ _ _ _ Hm) as Hedges. simpl in Hedges.
  specialize (Hedges ltac:(intros p q [])).
  pose proof (completes_snd _ _ _ _ Hm) as Hsnd. simpl in Hsnd. rewrite app_nil_r in Hsnd.
  pose proof (completes_pairs_matched _ _ _ _ Hm (incl_refl _)) as Hpairs. simpl in Hpairs.
  pose proof (completes_length _ _ _ _ Hm) as Hlenm. simpl in Hlenm.
  destruct (completes_injective _ _ _ _ Hm) as [Hndm Hinm]; [constructor|intros p []|].
  simpl in Hinm.
  assert (Hcover : forall u, In u g1 -> exists vid, In (n_id u, vid) m).
  { intros u Hu.
    assert (Hperm : map fst m ≡ₚ nx.nodes g1).
    { apply submseteq_length_Permutation.
      - apply NoDup_submseteq; [exact Hndm|]. intros x Hx.
        apply list_elem_of_In. apply list_elem_of_In in Hx.
        apply in_map_iff in Hx as (p & <- & Hp). now apply Hinm.
      - unfold nx.nodes. rewrite !length_map. lia. }
    assert (Hin : In (n_id u) (map fst m)).
    { apply list_elem_of_In. rewrite Hperm. apply list_elem_of_In.
      unfold nx.nodes. now apply in_map. }
    apply in_map_iff in Hin as ([a vid] & Ha & Hp). simpl in Ha. subst a. eauto. }
  assert (Hndsnd : NoDup (map snd m)).
  { rewrite Hsnd. apply NoDup_ListNoDup, List.NoDup_rev, NoDup_ListNoDup. exact Hnd2. }
  assert (Hgen : forall todo done core',
            g1 = done ++ todo ->
            (forall p, In p core' -> In (snd p, fst p) m) ->
            map snd core' = rev (map n_id done) ->
            exists m', completes (mk_GraphMatcher g2 g1 nm) todo core' m').
  { induction todo as [|u todo IH]; intros done core' Hg Hcore Hdone.
    - eexists. constructor.
    - assert (Hu : In u g1) by (rewrite Hg; apply in_or_app; right; now left).
      destruct (Hcover u Hu) as [vid Hvid].
      destruct (Hpairs _ Hvid) as [[]|(u0 & v & Hu0 & Hv & Heq & Hsem)].
      injection Heq as Hid ->.
      assert (u0 = u) by (apply (NoDup_map_inj n_id g1); auto). subst u0.
      destruct (IH (done ++ [u]) ((n_id v, n_id u) :: core')) as [m' Hm'].
      + now rewrite <- app_assoc.
      + intros p [<-|Hp]; [exact Hvid|auto].
      + simpl. rewrite Hdone, map_app, rev_app_distr. reflexivity.
      + exists m'. apply completes_step with (u := v); simpl.
        * exact Hv.
        * apply Z_in_false. intros Hin.
          apply in_map_iff in Hin as ([a b] & Ha & Hp). simpl in Ha. subst a.
          pose proof (Hcore _ Hp) as Hbm. simpl in Hbm.
          assert (Hb : (b, n_id v) = (n_id u, n_id v))
            by (apply (NoDup_map_inj snd m); auto).
          injection Hb as ->.
          assert (Hin : In (n_id u) (map snd core'))
            by (apply in_map_iff; exists (n_id v, n_id u); split; [reflexivity|exact Hp]).
          rewrite Hdone in Hin. apply in_rev in Hin.
          rewrite Hg in Hnd1. unfold nx.nodes in Hnd1. rewrite map_app in Hnd1.
          apply NoDup_app in Hnd1 as (_ & Hdisj & _).
          apply (Hdisj (n_id u)); [now apply list_elem_of_In|]. simpl. left.
        * unfold syntactic_feasibility. simpl. apply andb_true_iff. split.
          -- pose proof (Hedges _ _ Hvid Hvid) as Hs. simpl in Hs. rewrite Hs.
             apply eqb_reflx.
          -- apply forallb_forall. intros [a b] Hp. simpl.
             pose proof (Hcore _ Hp) as Hbm. simpl in Hbm.
             pose proof (Hedges _ _ Hvid Hbm) as Hub. simpl in Hub.
             pose proof (Hedges _ _ Hbm Hvid) as Hbu. simpl in Hbu.
             rewrite Hub, Hbu. now rewrite !eqb_reflx.
        * unfold semantic_feasibility in *. simpl in *. rewrite Hsym. exact Hsem.
        * exact Hm'. }
  apply (Hgen g1 [] []); [reflexivity|intros p []|reflexivity].
Qed.

Lemma list_Z_eqb_eq a : forall b, list_Z_eqb a b = true -> a = b.
Proof.
  unfold list_Z_eqb. induction a as [|x a IH]; intros [|y b] H; try discriminate;
    [reflexivity|].
  simpl in H. apply andb_true_iff in H as [Hlen H]. apply andb_true_iff in H as [Hxy H].
  apply Z.eqb_eq in Hxy. subst y. f_equal. apply IH. now rewrite Hlen, H.
Qed.

Lemma list_ascii_eqb_eq a : forall b, list_ascii_eqb a b = true -> a = b.
Proof.
  unfold list_ascii_eqb. induction a as [|x a IH]; intros [|y b] H; try discriminate;
    [reflexivity|].
  simpl in H. apply andb_true_iff in H as [Hlen H]. apply andb_true_iff in H as [Hxy H].
  apply Ascii.eqb_eq in Hxy. subst y. f_equal. apply IH. now rewrite Hlen, H.
Qed.

Lemma compare_glycans_graphs_answer g1 g2 libr :
  exists b, compare_glycans (GGraph g1) (GGraph g2) libr false [] = Ok b.
Proof.
  unfold compare_glycans. simpl.
  destruct (_ =? _)%nat; [|eauto]. destruct (list_ascii_eqb _ _); [|eauto].
  unfold nx_is_isomorphic, is_isomorphic_gm. simpl.
  destruct (negb _); [eauto|]. destruct (negb _); [eauto|].
  destruct (match_nodes_answers
              (mk_GraphMatcher g1 g2 (categorical_node_match (Z.of_nat (length libr)))) g2)
    with (core := @nil (Z * Z)) as [r Hr].
  - intros u v _ _. unfold semantic_feasibility. simpl. eauto.
  - unfold subgraph_is_isomorphic. simpl G2. rewrite Hr. simpl. eauto.
Qed.

Lemma compare_glycans_true_swap g1 g2 libr :
  NoDup (nx.nodes g1) -> NoDup (nx.nodes g2) ->
  compare_glycans (GGraph g1) (GGraph g2) libr false [] = Ok true ->
  compare_glycans (GGraph g2) (GGraph g1) libr false [] = Ok true.
Proof.
  intros Hnd1 Hnd2. unfold compare_glycans. simpl.
  destruct (length (nx.nodes g1) =? length (nx.nodes g2))%nat eqn:Hlen; [|discriminate].
  apply Nat.eqb_eq in Hlen. rewrite <- Hlen, Nat.eqb_refl.
  destruct (list_ascii_eqb _ _) eqn:Hstr; [|discriminate].
  apply list_ascii_eqb_eq in Hstr. rewrite <- Hstr, list_ascii_eqb_refl.
  unfold nx_is_isomorphic, is_isomorphic_gm. simpl.
  unfold nx.nodes in Hlen. rewrite !length_map in Hlen.
  rewrite <- Hlen, Nat.eqb_refl. simpl.
  destruct (list_Z_eqb _ _) eqn:Hdeg; simpl; [|discriminate].
  apply list_Z_eqb_eq in Hdeg. rewrite <- Hdeg, list_Z_eqb_refl. simpl.
  destruct (subgraph_is_isomorphic _) as [[m|]|e] eqn:Hm; try discriminate.
  intros _. apply match_nodes_sound in Hm. simpl in Hm.
  destruct (reverse_completes g1 g2 (categorical_node_match (Z.of_nat (length libr))) m)
    as [m' Hm']; auto.
  { intros a b. unfold categorical_node_match. now rewrite Z.eqb_sym. }
  destruct (match_nodes_complete
              (mk_GraphMatcher g2 g1 (categorical_node_match (Z.of_nat (length libr)))) g1)
    with (core := @nil (Z * Z)) (m := m') as [m'' Hm''].
  - intros u v _ _. unfold semantic_feasibility. simpl. eauto.
  - exact Hm'.
  - unfold subgraph_is_isomorphic. simpl G2. now rewrite Hm''.
Qed.

(** X23. For two graphs with distinct node ids and without wildcards,
    [compare_glycans] gives the same answer whichever graph comes first. *)
Theorem compare_glycans_symmetric (g1 g2 : nxGraph) (libr : list string) :
  NoDup (nx.nodes g1) -> NoDup (nx.nodes g2) ->
  compare_glycans (GGraph g1) (GGraph g2) libr false []
  = compare_glycans (GGraph g2) (GGraph g1) libr false [].
Proof.
  intros Hnd1 Hnd2.
  destruct (compare_glycans_graphs_answer g1 g2 libr) as [b1 H1].
  destruct (compare_glycans_graphs_answer g2 g1 libr) as [b2 H2].
  destruct b1, b2; try congruence.
  - rewrite (compare_glycans_true_swap g1 g2 libr Hnd1 Hnd2 H1) in H2. discriminate.
  - rewrite (compare_glycans_true_swap g2 g1 libr Hnd2 Hnd1 H2) in H1. discriminate.
Qed.

Lemma compare_glycans_symmetric_witness :
  exists g1 g2,
    glycan_to_nxGraph "Man(a1-3)[Man(a1-6)]Man" sample_lib "ignore" None false = Ok g1
    /\ glycan_to_nxGraph "Man(a1-6)[Man(a1-3)]Man" sample_lib "ignore" None false = Ok g2
    /\ compare_glycans (GGraph g1) (GGraph g2) sample_lib false [] = Ok true
    /\ compare_glycans (GGraph g1) (GGraph g2) sample_lib false []
       = compare_glycans (GGraph g2) (GGraph g1) sample_lib false [].
Proof.
  do 2 eexists.
  split; [vm_compute; reflexivity|].
  split; [vm_compute; reflexivity|].
  split; [vm_compute; reflexivity|].
  apply compare_glycans_symmetric; apply nodup_Z_spec; vm_compute; reflexivity.
Defined.

(** ** The mode 'termini' on a host without annotations *)

Lemma try_candidates_unannotated GM core v continue default1 default2 :
  node_match GM = categorical_termini_match default1 default2 ->
  forall cands,
    (forall u, In u cands -> attr_termini (n_data u) = None) ->
    (exists u, In u cands /\ Z_in (n_id u) (map fst core) = false
               /\ syntactic_feasibility GM core (n_id u) (n_id v) = true) ->
    try_candidates GM core v continue cands = Raise KeyError.
Proof.
  intros Hnm cands. induction cands as [|x cands IH]; intros Hterm (u & Hu & Hfresh & Hsyn);
    [destruct Hu|].
  unfold try_candidates. fold try_candidates.
  destruct (Z_in (n_id x) (map fst core)
            || negb (syntactic_feasibility GM core (n_id x) (n_id v))) eqn:Hskip.
  - apply IH; [intros y Hy; apply Hterm; now right|].
    exists u. split; [|now split]. destruct Hu as [->|Hu]; [|exact Hu].
    rewrite Hfresh, Hsyn in Hskip. discriminate.
  - unfold semantic_feasibility. rewrite Hnm. unfold categorical_termini_match.
    cbv beta zeta. rewrite (Hterm x) by now left. reflexivity.
Qed.

(** X24. In the mode ['termini'] the node predicate reads the ['termini']
    entry of the host node first. For a host graph handed in by the caller
    in which no node has such an entry, as in the graphs built with the
    default [termini = 'ignore'], the call raises a [KeyError], with and
    without counting, whenever the motif graph has a node, the host holds
    the glycoletters of the motif and the topology of the motif occurs in
    the host: the first pair that is tested raises it. *)
Theorem termini_mode_needs_annotated_host (fuel : nat) (host : nxGraph) (motif : string)
    (libr : list string) (wildcard_list termini_list : list string) (count : bool)
    (wl : list pyval) (g2 : nxGraph) :
  index_wildcards libr wildcard_list = Ok wl ->
  glycan_to_nxGraph motif libr "provided" (Some termini_list) true = Ok g2 ->
  g2 <> [] ->
  (forall u, In u host -> attr_termini (n_data u) = None) ->
  labels_present host (tokenize motif) = true ->
  (exists m, occurrence host g2 any_label m) ->
  subgraph_isomorphism (S fuel) (GGraph host) motif libr "termini" wildcard_list
    termini_list count
  = Some (Raise KeyError).
Proof.
  intros Hw Hg2 Hne Hterm Hl [m Hm]. unfold subgraph_isomorphism. rewrite Hw.
  unfold matcher_graphs. change (str_eqb "termini" "termini") with true. cbv iota.
  rewrite Hg2. cbv beta iota delta [mbind result_bind].
  unfold match_graphs, choose_graph_pair.
  change (str_eqb "termini" "ignore") with false.
  change (str_eqb "termini" "wildcards") with false.
  change (str_eqb "termini" "termini") with true. cbv iota. rewrite Hl.
  pose proof (occurrence_length _ _ _ _ Hm) as Hlen.
  assert (Hle : (length (nx.nodes g2) <=? length (nx.nodes host))%nat = true).
  { apply Nat.leb_le. unfold nx.nodes. now rewrite !length_map. }
  rewrite Hle.
  set (GM := mk_GraphMatcher host g2
               (categorical_termini_match (Z.of_nat (length libr)) "flexible")).
  assert (Hsearch : subgraph_is_isomorphic GM = Raise KeyError).
  { unfold subgraph_is_isomorphic. simpl G2.
    destruct g2 as [|v rest2]; [now contradiction Hne|].
    unfold occurrence in Hm.
    inversion Hm as [|v' todo' core' u m' Hu Hfresh Hsyn _ _]; subst.
    change (match_nodes GM (v :: rest2) [])
      with (try_candidates GM [] v (fun core' => match_nodes GM rest2 core') (G1 GM)).
    apply (try_candidates_unannotated GM [] v _ (Z.of_nat (length libr)) "flexible");
      [reflexivity|exact Hterm|].
    exists u. split; [exact Hu|]. split; [exact Hfresh|].
    rewrite <- Hsyn. now apply syntactic_feasibility_graphs. }
  destruct count.
  - unfold count_loop. rewrite Hsearch. reflexivity.
  - rewrite Hsearch. reflexivity.
Qed.

Lemma termini_mode_needs_annotated_host_witness :
  exists host,
    glycan_to_nxGraph "Gal(b1-4)Glc" sample_lib "ignore" None false = Ok host
    /\ subgraph_isomorphism 3 (GGraph host) "Gal(b1-4)Glc" sample_lib "termini" []
         ["terminal"; "internal"; "terminal"] false
       = Some (Raise KeyError).
Proof.
  eexists. split; [vm_compute; reflexivity|].
  eapply (termini_mode_needs_annotated_host 2 _ "Gal(b1-4)Glc" sample_lib []
            ["terminal"; "internal"; "terminal"] false).
  - vm_compute. reflexivity.
  - vm_compute. reflexivity.
  - discriminate.
  - intros u Hu. repeat (destruct Hu as [<-|Hu]; [reflexivity|]). destruct Hu.
  - vm_compute. reflexivity.
  - exists [(2, 2); (1, 1); (0, 0)]. unfold occurrence.
    apply match_nodes_sound. vm_compute. reflexivity.
Defined.

(** ** Topologies of a graph without a floating part *)

(** X25. [get_possible_topologies] does not refuse a graph that has no
    floating part: for a graph of one component it returns one candidate per
    node of degree one other than the highest node, each with an edge added
    between that node and the highest node of the same component. Only a
    graph without nodes makes it raise, an [IndexError]. *)
Theorem topologies_without_floating_part (g : nxGraph) (libr : list string) (c : list Z) :
  get_possible_topologies (GGraph []) libr = Raise IndexError
  /\ (nx.connected_components g = [c] ->
      let part := nx.subgraph g c in
      get_possible_topologies (GGraph g) libr
      = Ok (map (fun k => renumbered (nx.add_edge g (highest part) k)) (free_leaves part))).
Proof.
  split; [reflexivity|]. intros Hcc part.
  unfold get_possible_topologies. simpl. rewrite Hcc. simpl.
  apply topologies_loop_leaves; [|apply incl_refl].
  apply component_part_nonempty. rewrite Hcc. now left.
Qed.

Lemma topologies_without_floating_part_witness :
  exists g topologies,
    glycan_to_nxGraph "Gal(b1-4)Glc" sample_lib "ignore" None false = Ok g
    /\ get_possible_topologies (GGraph g) sample_lib = Ok topologies
    /\ length topologies = 1%nat.
Proof.
  do 2 eexists. split; [vm_compute; reflexivity|].
  split.
  - etransitivity;
      [eapply (topologies_without_floating_part _ sample_lib [0; 1; 2]);
       vm_compute; reflexivity|].
    vm_compute. reflexivity.
  - vm_compute. reflexivity.
Defined.
